(** * HD Recon V3: the matching pipeline, embedded and verified

    A shallow embedding of the JavaScript matching pipeline of the bank
    reconciliation service:

    - the line parser ([parsePaymentNotes], [identifyLineType],
      [extractSearchText], [shouldMatchLine]);
    - the hybrid line matcher ([searchLine], [deduplicateMatches] and the
      three search strategies);
    - the two email scorers ([calculateRelevanceScore], [calculateRelevance])
      with their entry points ([searchCachedEmails], [searchInbox]);
    - the company name extractor ([extractCompanyName],
      [extractCompanyNameWithChatGPT]);
    - the summary parser ([parseActionItems]).

    Conventions of the embedding.

    - A JavaScript string is a [string]; each [ascii] stands for one UTF-16
      code unit in the range 0..255, so [String.length] is [.length].
    - A JavaScript number is the rational ([Q]) it stands for.  Sums,
      differences, products and quotients are rounded as IEEE 754 binary64
      rounds them ([round64]: to the nearest double, ties to even);
      [NaN] and the infinities never arise from the arithmetic modelled
      here, and overflow is not modelled.
    - [null] and [undefined] are [None] where the code treats them alike;
      an argument for which they differ (a default parameter, a template
      literal) is an [argument].
    - A function that may throw (or an [async] function that may reject)
      returns a [completion]; [try]/[catch] is [try_catch].
    - Regular expressions are values of [regex], run by a backtracking
      matcher that follows the ECMAScript priorities (greedy and lazy
      quantifiers, leftmost alternative first, leftmost match).
    - Backends (database, HTTP, LLM) and built-ins whose result depends on
      floating point formatting or on JSON text are arguments. *)

From Stdlib Require Import List String Ascii Bool Arith NArith ZArith QArith Qround Qabs Lia.
From Stdlib Require Import Qpower.
From Stdlib Require Import Permutation Sorted Lqa DecimalString.
Import ListNotations.

Set Implicit Arguments.
Close Scope Q_scope.
Open Scope nat_scope.
Open Scope list_scope.

(* ------------------------------------------------------------------ *)
(** * JavaScript values *)

Module JS.

(** ** Completions: normal results and thrown errors *)

Record Error := mkError { message : string }.

Inductive completion (A : Type) : Type :=
| Value (a : A)
| Throw (e : Error).

Arguments Value {A} a.
Arguments Throw {A} e.

Definition bind {A B : Type} (c : completion A) (k : A -> completion B) : completion B :=
  match c with
  | Value a => k a
  | Throw e => Throw e
  end.

(** [try { c } catch (e) { h e }] *)
Definition try_catch {A : Type} (c : completion A) (h : Error -> completion A) : completion A :=
  match c with
  | Value a => Value a
  | Throw e => h e
  end.

(** ** Characters *)

Definition code (c : ascii) : N := N_of_ascii c.

Definition between (lo hi : N) (c : ascii) : bool :=
  (lo <=? code c)%N && (code c <=? hi)%N.

Definition LF : ascii := ascii_of_N 10.
Definition CR : ascii := ascii_of_N 13.
Definition DQUOTE : ascii := ascii_of_N 34.

(** WhiteSpace and LineTerminator code units below 256: TAB, LF, VT, FF, CR,
    SPACE and NBSP.  This is the class of [\s] and what [trim] strips. *)
Definition is_space (c : ascii) : bool :=
  between 9 13 c || (code c =? 32)%N || (code c =? 160)%N.

(** LineTerminator code units below 256; [.] matches everything else. *)
Definition is_line_terminator (c : ascii) : bool :=
  (code c =? 10)%N || (code c =? 13)%N.

Definition is_digit (c : ascii) : bool := between 48 57 c.

(** The class of [\w]. *)
Definition is_word (c : ascii) : bool :=
  between 65 90 c || between 97 122 c || is_digit c || (code c =? 95)%N.

(** [toLowerCase] on one code unit: A-Z, and the Latin-1 capitals
    U+00C0..U+00DE except the multiplication sign U+00D7. *)
Definition lower (c : ascii) : ascii :=
  if between 65 90 c || (between 192 222 c && negb (code c =? 215)%N)
  then ascii_of_N (code c + 32) else c.

(** Canonicalize of a case-insensitive, non-unicode regular expression: the
    upper case of the code unit when that is a single code unit below 256. *)
Definition canonicalize (c : ascii) : ascii :=
  if between 97 122 c || (between 224 254 c && negb (code c =? 247)%N)
  then ascii_of_N (code c - 32) else c.

Definition ascii_eqb_ci (a c : ascii) : bool :=
  Ascii.eqb (canonicalize a) (canonicalize c).

(** ** Strings *)

Definition chars (s : string) : list ascii := list_ascii_of_string s.
Definition str (l : list ascii) : string := string_of_list_ascii l.

Definition toLowerCase (s : string) : string := str (map lower (chars s)).

Fixpoint starts_with (p s : list ascii) : bool :=
  match p, s with
  | [], _ => true
  | a :: p', c :: s' => Ascii.eqb a c && starts_with p' s'
  | _ :: _, [] => false
  end.

Fixpoint includes_chars (s sub : list ascii) : bool :=
  starts_with sub s ||
  match s with
  | [] => false
  | _ :: s' => includes_chars s' sub
  end.

(** [s.includes(sub)] *)
Definition includes (s sub : string) : bool := includes_chars (chars s) (chars sub).

Fixpoint trim_start (l : list ascii) : list ascii :=
  match l with
  | c :: l' => if is_space c then trim_start l' else l
  | [] => []
  end.

Definition trim_chars (l : list ascii) : list ascii :=
  rev (trim_start (rev (trim_start l))).

(** [s.trim()] *)
Definition trim (s : string) : string := str (trim_chars (chars s)).

(** [s.split(sep)] for a one-character separator. *)
Fixpoint split_chars (sep : ascii) (l : list ascii) : list (list ascii) :=
  match l with
  | [] => [[]]
  | c :: l' =>
      if Ascii.eqb c sep then [] :: split_chars sep l'
      else match split_chars sep l' with
           | cur :: more => (c :: cur) :: more
           | [] => [[c]]
           end
  end.

Definition split (sep : ascii) (s : string) : list string :=
  map str (split_chars sep (chars s)).

(** [s.substring(0, n)] *)
Definition substring0 (n : nat) (s : string) : string := str (firstn n (chars s)).

(** Truthiness of an optional string: [null], [undefined] and [''] are falsy. *)
Definition truthy_str (o : option string) : bool :=
  match o with
  | Some s => negb (String.length s =? 0)
  | None => false
  end.

(** [a || b] on optional strings. *)
Definition or_str (a b : option string) : option string :=
  if truthy_str a then a else b.

(** [a || ''] *)
Definition or_empty (a : option string) : string :=
  match a with
  | Some s => s
  | None => EmptyString
  end.

(** Truthiness of an optional number: [undefined] and [0] are falsy. *)
Definition truthy_num (o : option Q) : bool :=
  match o with
  | Some q => negb (Qeq_bool q 0%Q)
  | None => false
  end.

(** [a || 0] *)
Definition or_zero (a : option Q) : Q :=
  match a with
  | Some q => if Qeq_bool q 0%Q then 0%Q else q
  | None => 0%Q
  end.

(** [a || b || 0] *)
Definition or_num (a b : option Q) : Q :=
  if truthy_num a then or_zero a else or_zero b.

(** [Math.round]: the nearest integer, ties towards positive infinity. *)
Definition Math_round (x : Q) : Z := Qfloor (x + (1 # 2))%Q.

Definition Math_min (x y : Q) : Q := if Qle_bool x y then x else y.

Definition Math_abs (x : Q) : Q := Qabs x.

(** ** Doubles

    The result of an arithmetic operation is the double nearest to the
    exact result, ties going to the even significand.  A double has a
    significand of 53 bits and an exponent of -1074 at least (below
    2^-1022 the spacing of the doubles stays 2^-1074). *)

(** [floor (log2 x)] for a positive [x]. *)
Definition ilog2 (x : Q) : Z :=
  let k := (Z.log2 (Qnum x) - Z.log2 (Zpos (Qden x)))%Z in
  if Qle_bool (2 ^ k)%Q x then k else (k - 1)%Z.

(** The nearest integer, a tie going to the even one. *)
Definition round_half_even (x : Q) : Z :=
  let f := Qfloor x in
  match Qcompare (x - inject_Z f)%Q (1 # 2)%Q with
  | Lt => f
  | Gt => (f + 1)%Z
  | Eq => if Z.even f then f else (f + 1)%Z
  end.

(** The exponent of the unit in the last place of the doubles around a
    positive [a]. *)
Definition exponent64 (a : Q) : Z := Z.max (ilog2 a - 52) (-1074).

Definition round64_pos (a : Q) : Q :=
  (inject_Z (round_half_even (a / 2 ^ exponent64 a)) * 2 ^ exponent64 a)%Q.

(** The double nearest to [x]. *)
Definition round64 (x : Q) : Q :=
  match Qnum x with
  | Z0 => 0%Q
  | Zpos _ => Qred (round64_pos x)
  | Zneg _ => Qred (- round64_pos (- x))
  end.

(** [x + y], [x - y], [x * y] and [x / y] on doubles. *)
Definition fadd (x y : Q) : Q := round64 (x + y).
Definition fsub (x y : Q) : Q := round64 (x - y).
Definition fmul (x y : Q) : Q := round64 (x * y).
Definition fdiv (x y : Q) : Q := round64 (x / y).

(** The double a decimal literal such as [0.01] denotes. *)
Definition literal (n : Z) (d : positive) : Q := round64 (n # d).

(** ** Arguments

    An argument as the caller passes it: left out or [undefined], [null],
    or a value. *)
Inductive argument (A : Type) : Type :=
| Undefined
| Null
| Given (a : A).

Arguments Undefined {A}.
Arguments Null {A}.
Arguments Given {A} a.

(** The value of an argument where [undefined] and [null] are alike. *)
Definition passed {A : Type} (a : argument A) : option A :=
  match a with
  | Given v => Some v
  | Undefined | Null => None
  end.

(** [Array.prototype.sort(cmp)]: the sort is stable, and [a] goes before [b]
    when [cmp a b < 0].  An insertion sort from the right is stable. *)
Section Sort.
Variable A : Type.
Variable cmp : A -> A -> Q.

Fixpoint insert_sorted (x : A) (l : list A) : list A :=
  match l with
  | [] => [x]
  | y :: l' => if Qle_bool (cmp x y) 0%Q then x :: y :: l' else y :: insert_sorted x l'
  end.

Fixpoint sort (l : list A) : list A :=
  match l with
  | [] => []
  | x :: l' => insert_sorted x (sort l')
  end.
End Sort.

(** The comparator [(a, b) => b.key - a.key].  A sort reads the sign of
    the difference only, and the difference of two doubles rounds to a
    double of the same sign (it is zero only for equal doubles), so the
    exact difference stands for the rounded one. *)
Definition descending {A : Type} (key : A -> Q) (a b : A) : Q := (key b - key a)%Q.

End JS.

Import JS.

Notation "x <- c ;; k" := (JS.bind c (fun x => k))
  (at level 61, c at next level, right associativity).

(* ------------------------------------------------------------------ *)
(** * Regular expressions *)

Module Regex.

(** The fragment of ECMAScript patterns the sources use.  A pattern of the
    sources has at most one capture group whose text is read, so a match
    carries one capture. *)
Inductive regex : Type :=
| Empty                                   (* the empty pattern *)
| Char (p : ascii -> bool)                (* one code unit of a class *)
| Seq (r1 r2 : regex)                     (* r1 r2 *)
| Alt (r1 r2 : regex)                     (* r1|r2 *)
| Star (greedy : bool) (r : regex)        (* r* and r*? *)
| Capture (r : regex)                     (* (r) *)
| Bos                                     (* ^ without the m flag *)
| Eos                                     (* $ without the m flag *)
| NotWordBoundary                         (* \B *)
| Look (positive : bool) (r : regex).     (* (?=r) and (?!r) *)

(** The state of a match: the code unit before the current position (none
    at the start of the input) and the input left. *)
Definition capture := option (list ascii).
Definition outcome := option (list ascii * capture).
Definition cont := option ascii -> list ascii -> capture -> outcome.

Definition accept : cont := fun _ s cap => Some (s, cap).

Definition word_before (prev : option ascii) : bool :=
  match prev with
  | Some c => is_word c
  | None => false
  end.

Definition word_after (s : list ascii) : bool :=
  match s with
  | c :: _ => is_word c
  | [] => false
  end.

Definition or_else (a b : outcome) : outcome :=
  match a with
  | Some x => Some x
  | None => b
  end.

(** The loop of a quantifier [r*] or [r*?] over a matcher [m] for [r]: a
    greedy quantifier tries one more iteration before the continuation, a
    lazy one the continuation first.  An iteration that consumes nothing is
    rejected, as RepeatMatcher does, so as many iterations as code units
    left are enough. *)
Fixpoint iterate (m : option ascii -> list ascii -> capture -> cont -> outcome)
  (greedy : bool) (k : cont) (fuel : nat) (prev : option ascii) (s : list ascii)
  (cap : capture) {struct fuel} : outcome :=
  match fuel with
  | O => k prev s cap
  | S fuel' =>
      let again :=
        m prev s cap
          (fun prev' s' cap' =>
             if List.length s' <? List.length s
             then iterate m greedy k fuel' prev' s' cap'
             else None) in
      if greedy then or_else again (k prev s cap)
      else or_else (k prev s cap) again
  end.

(** The backtracking matcher, in continuation-passing style. *)
Fixpoint rmatch (r : regex) (prev : option ascii) (s : list ascii) (cap : capture)
  (k : cont) {struct r} : outcome :=
  match r with
  | Empty => k prev s cap
  | Char p =>
      match s with
      | c :: s' => if p c then k (Some c) s' cap else None
      | [] => None
      end
  | Seq r1 r2 =>
      rmatch r1 prev s cap (fun prev' s' cap' => rmatch r2 prev' s' cap' k)
  | Alt r1 r2 =>
      or_else (rmatch r1 prev s cap k) (rmatch r2 prev s cap k)
  | Star greedy r1 =>
      iterate (rmatch r1) greedy k (List.length s) prev s cap
  | Capture r1 =>
      rmatch r1 prev s cap
        (fun prev' s' _ => k prev' s' (Some (firstn (List.length s - List.length s') s)))
  | Bos =>
      match prev with
      | None => k prev s cap
      | Some _ => None
      end
  | Eos =>
      match s with
      | [] => k prev s cap
      | _ :: _ => None
      end
  | NotWordBoundary =>
      if Bool.eqb (word_before prev) (word_after s) then k prev s cap else None
  | Look positive r1 =>
      match rmatch r1 prev s cap accept, positive with
      | Some (_, cap'), true => k prev s cap'
      | None, false => k prev s cap
      | _, _ => None
      end
  end.

(** The result of [RegExp.prototype.exec]: where the match starts, the text
    before it, the matched text, the text after it and the capture. *)
Record match_result := mkMatch {
  index : nat;
  before : list ascii;
  matched : list ascii;
  after : list ascii;
  group1 : capture
}.

(** The leftmost match: the start positions are tried from left to right.
    [pre] holds the input before the current start, reversed. *)
Fixpoint exec_from (r : regex) (pre : list ascii) (s : list ascii) : option match_result :=
  match rmatch r (hd_error pre) s None accept with
  | Some (s', cap) =>
      Some (mkMatch (List.length pre) (rev pre) (firstn (List.length s - List.length s') s) s' cap)
  | None =>
      match s with
      | [] => None
      | c :: s' => exec_from r (c :: pre) s'
      end
  end.

Definition exec (r : regex) (s : string) : option match_result :=
  exec_from r [] (chars s).

(** [r.test(s)] *)
Definition test (r : regex) (s : string) : bool :=
  match exec r s with
  | Some _ => true
  | None => false
  end.

(** [m ? m[1] : null] for [m = s.match(r)] and a pattern without the g
    flag: [None] when there is no match or the group took no part in it. *)
Definition match_group1 (r : regex) (s : string) : option string :=
  match exec r s with
  | Some m => option_map str (group1 m)
  | None => None
  end.

(** [s.match(r)[0]] *)
Definition match_group0 (r : regex) (s : string) : option string :=
  match exec r s with
  | Some m => Some (str (matched m))
  | None => None
  end.

(** [s.replace(r, by)] for a pattern without the g flag and a replacement
    without [$]: the leftmost match is replaced. *)
Definition replace (r : regex) (by_ : string) (s : string) : string :=
  match exec r s with
  | Some m => str (before m ++ chars by_ ++ after m)
  | None => s
  end.

(** [s.replace(r, by)] for a pattern with the g flag.  After a match the
    search goes on where the match ended, one code unit further when the
    match was empty; [skip] counts the code units of a match still to be
    dropped. *)
Fixpoint replace_all_from (r : regex) (by_ : list ascii) (prev : option ascii)
  (s : list ascii) (skip : nat) : list ascii :=
  match skip with
  | S n =>
      match s with
      | c :: s' => replace_all_from r by_ (Some c) s' n
      | [] => []
      end
  | O =>
      match rmatch r prev s None accept with
      | Some (s', _) =>
          by_ ++
          match s with
          | [] => []
          | c :: t =>
              match List.length s - List.length s' with
              | O => c :: replace_all_from r by_ (Some c) t 0
              | S n => replace_all_from r by_ (Some c) t n
              end
          end
      | None =>
          match s with
          | [] => []
          | c :: t => c :: replace_all_from r by_ (Some c) t 0
          end
      end
  end.

Definition replace_all (r : regex) (by_ : string) (s : string) : string :=
  str (replace_all_from r (chars by_) None (chars s) 0).

(** ** Pattern syntax *)

Definition chr (c : ascii) : regex := Char (Ascii.eqb c).
Definition chr_i (c : ascii) : regex := Char (ascii_eqb_ci c).

(** A literal, and a literal under the i flag. *)
Fixpoint lit (s : string) : regex :=
  match s with
  | EmptyString => Empty
  | String c s' => Seq (chr c) (lit s')
  end.

Fixpoint lit_i (s : string) : regex :=
  match s with
  | EmptyString => Empty
  | String c s' => Seq (chr_i c) (lit_i s')
  end.

Definition ws : regex := Char is_space.                                (* \s *)
Definition digit : regex := Char is_digit.                             (* \d *)
Definition dot : regex := Char (fun c => negb (is_line_terminator c)). (* . *)
Definition star (r : regex) : regex := Star true r.                    (* r* *)
Definition plus (r : regex) : regex := Seq r (Star true r).            (* r+ *)
Definition plus_lazy (r : regex) : regex := Seq r (Star false r).      (* r+? *)
Definition opt (r : regex) : regex := Alt r Empty.                     (* r? *)

Fixpoint times (n : nat) (r : regex) : regex :=                        (* r{n} *)
  match n with
  | O => Empty
  | S n' => Seq r (times n' r)
  end.

End Regex.

Import Regex.

Declare Scope regex_scope.
Delimit Scope regex_scope with re.
Infix ">>" := Seq (at level 60, right associativity) : regex_scope.


(** A [Map] keyed by strings.  Iteration follows insertion order, and
    setting a key that is present keeps its place. *)
Module JsMap.
Section WithValue.
Variable V : Type.

Definition t := list (string * V).

Fixpoint get (k : string) (m : t) : option V :=
  match m with
  | [] => None
  | (k', v) :: m' => if String.eqb k k' then Some v else get k m'
  end.

Definition has (k : string) (m : t) : bool :=
  match get k m with
  | Some _ => true
  | None => false
  end.

Fixpoint set (k : string) (v : V) (m : t) : t :=
  match m with
  | [] => [(k, v)]
  | (k', v') :: m' => if String.eqb k k' then (k, v) :: m' else (k', v') :: set k v m'
  end.

Definition values (m : t) : list V := map snd m.
Definition keys (m : t) : list string := map fst m.

End WithValue.
End JsMap.

(* ------------------------------------------------------------------ *)
(** * The line parser (src/unnamed/part_003) *)

Module LineParser.

Local Open Scope string_scope.

(** [LINE_PATTERNS], in declaration order, which is the order
    [Object.entries] yields. *)
Definition LINE_PATTERNS : list (string * regex) :=
  [ ("BO", (Bos >> lit_i "BO" >> star ws >> chr ":")%re);        (* /^BO\s*:/i *)
    ("BO1", (lit_i "BO1" >> star ws >> chr ":")%re);             (* /BO1\s*:/i *)
    ("BO2", (lit_i "BO2" >> star ws >> chr ":")%re);             (* /BO2\s*:/i *)
    ("ORDER", (Bos >> lit_i "ORDER" >> star ws >> chr ":")%re);  (* /^ORDER\s*:/i *)
    ("BN", (Bos >> lit_i "BN" >> star ws >> chr ":")%re);        (* /^BN\s*:/i *)
    ("FR", (Bos >> lit_i "FR" >> star ws >> chr ":")%re);        (* /^FR\s*:/i *)
    ("TO", (Bos >> lit_i "TO" >> star ws >> chr ":")%re);        (* /^TO\s*:/i *)
    ("OBI", (Bos >> lit_i "OBI" >> star ws >> chr ":")%re);      (* /^OBI\s*:/i *)
    ("OB", (Bos >> lit_i "OB" >> star ws >> chr ":")%re);        (* /^OB\s*:/i *)
    ("PY", (Bos >> lit_i "PY" >> star ws >> chr ":")%re);        (* /^PY\s*:/i *)
    ("BI", (Bos >> lit_i "BI" >> star ws >> chr ":")%re);        (* /^BI\s*:/i *)
    ("CR", (Bos >> lit_i "CR" >> star ws >> chr ":")%re);        (* /^CR\s*:/i *)
    ("RF", (Bos >> lit_i "RF" >> star ws >> chr ":")%re);        (* /^RF\s*:/i *)
    ("SENDING", Alt (lit_i "SENDING PERSON") (lit_i "SENDING CO")); (* /SENDING PERSON|SENDING CO/i *)
    ("ROC", (Bos >> lit_i "ROC" >> star ws >> chr ":")%re);      (* /^ROC\s*:/i *)
    ("TRID", (Bos >> lit_i "TRID" >> star ws >> chr ":")%re);    (* /^TRID\s*:/i *)
    ("ENDT", (Bos >> lit_i "ENDT" >> star ws >> chr ":")%re) ].  (* /^ENDT\s*:/i *)

(** The loop of [identifyLineType] over the entries still to be tried. *)
Fixpoint first_matching (patterns : list (string * regex)) (lineText : string) : string :=
  match patterns with
  | [] => "OTHER"
  | (type, pattern) :: rest =>
      if test pattern lineText then type else first_matching rest lineText
  end.

Definition identifyLineType (lineText : string) : string :=
  first_matching LINE_PATTERNS lineText.

Definition extractBOText (lineText : string) : string := lineText.

(** A [case] label list: whether [x] is one of [labels]. *)
Definition is_case (x : string) (labels : list string) : bool :=
  existsb (String.eqb x) labels.

(** The [switch] of [extractSearchText], label by label as written. *)
Definition extractSearchText (lineText : string) : option string :=
  let lineType := identifyLineType lineText in
  if is_case lineType ["BO"; "BO1"; "BO2"] then Some (extractBOText lineText)
  else if is_case lineType ["ORDER"] then Some lineText
  else if is_case lineType ["SENDING PERSON"] then Some lineText
  else if is_case lineType ["DETAILS"] then Some lineText
  else if is_case lineType
            ["FR"; "TO"; "OBI"; "ROC"; "TRID"; "ENDT"; "BI"; "CR"; "RF"; "BN"; "PY"; "OB"]
       then None
  else None.

Record Metadata := mkMetadata {
  transactionId : option string;
  amount : option string;
  date : option string
}.

Definition is_digit_or_comma (c : ascii) : bool := is_digit c || Ascii.eqb c ",".

Definition extractMetadata (lineText : string) : Metadata :=
  {| (* /TRID:(\d+)/i *)
     transactionId := match_group1 (lit_i "TRID:" >> Capture (plus digit))%re lineText;
     (* /\$?([\d,]+\.\d{2})/ *)
     amount := match_group1
                 (opt (chr "$") >>
                  Capture (plus (Char is_digit_or_comma) >> chr "." >> times 2 digit))%re
                 lineText;
     (* /\d{8}/ *)
     date := match_group0 (times 8 digit) lineText |}.

Record ParsedLine := mkParsedLine {
  lineNo : nat;
  lineText : string;
  lineType : string;
  searchText : option string;
  metadata : Metadata
}.

Definition mergeWrappedLines (rawLines : list string) : list string := rawLines.

(** [lines.map((lineText, index) => ...)], [index] counted from [from]. *)
Fixpoint map_indexed (from : nat) (lines : list string) : list ParsedLine :=
  match lines with
  | [] => []
  | lineText :: rest =>
      {| lineNo := from + 1;
         lineText := lineText;
         lineType := identifyLineType lineText;
         searchText := extractSearchText lineText;
         metadata := extractMetadata lineText |} :: map_indexed (S from) rest
  end.

Definition newline : string := String LF "".

Definition parsePaymentNotes (paymentNotesRaw : option string) : list ParsedLine :=
  match paymentNotesRaw with
  | None => []
  | Some raw =>
      if (String.length raw =? 0)%nat then []
      else
        let normalized :=
          replace_all (chr CR) newline                              (* /\r/g *)
            (replace_all (chr CR >> chr LF)%re newline              (* /\r\n/g *)
               (replace_all (lit "\n") newline raw)) in             (* /\\n/g *)
        let rawLines :=
          filter (fun line => (0 <? String.length line)%nat)
            (map trim (split LF normalized)) in
        let mergedLines := mergeWrappedLines rawLines in
        map_indexed 0 mergedLines
  end.

Definition skipTypes : list string := ["TRID"; "ENDT"; "FR"; "TO"; "BI"; "CR"; "RF"].

Definition shouldMatchLine (parsedLine : ParsedLine) : bool :=
  if negb (truthy_str (searchText parsedLine)) then false
  else if existsb (String.eqb (lineType parsedLine)) skipTypes then false
  else if (String.length (or_empty (searchText parsedLine)) <? 5)%nat then false
  else true.

End LineParser.


(* ------------------------------------------------------------------ *)
(** * The hybrid line matcher (src/srv/lib/line-matcher.js) *)

Module LineMatcher.

Inductive Strategy : Type :=
| FUZZY_TEXT
| VECTOR_SEMANTIC
| OPENAI_EMBEDDING.

(** A column of a result row: the driver may name it in upper case or as
    the query wrote it, and the code reads [row.NAME || row.name]. *)
Record column (A : Type) := mkColumn {
  upper : option A;
  as_written : option A
}.

(** A row of RECONCILIATION_HISTORICAL as [db.run] returns it. *)
Record Row := mkRow {
  row_ID : string;
  row_wireText : column string;
  row_score : column Q;
  row_similarity : column Q;
  row_postingKey : column string;
  row_glAccount : column string;
  row_customerNo : column string;
  row_companyCode : column string;
  row_costCentre : column string;
  row_profitCentre : column string;
  row_usageCount : column Q;
  row_successCount : column Q;
  row_lastUsedDate : column string
}.

Definition text_of (c : column string) : option string := or_str (upper c) (as_written c).
Definition number_of (c : column Q) : Q := or_num (upper c) (as_written c).

Record Match := mkMatchCandidate {
  ID : string;
  wireText : option string;
  confidence : Q;
  matchStrategy : Strategy;
  rawScore : Q;                 (* the field [similarity] or [score] *)
  postingKey : option string;
  glAccount : option string;
  customerNo : option string;
  companyCode : option string;
  costCentre : option string;
  profitCentre : option string;
  usageCount : Q;
  successCount : Q;
  lastUsedDate : option string
}.

(** The three statements the strategies run; the text to search for is
    their one parameter. *)
Inductive Query : Type :=
| FuzzyContains
| SapVectorSimilarity
| OpenAIVectorSimilarity (remoteSourceName : string).

Record Db := mkDb {
  run : Query -> string -> completion (list Row)
}.

(** [Math.round((60 + (s * 35)) * 10) / 10] *)
Definition to_confidence (s : Q) : Q :=
  fdiv (inject_Z (Math_round (fmul (fadd 60 (fmul s 35)) 10))) 10.

Definition candidate (strategy : Strategy) (raw : Q) (record : Row) : Match :=
  {| ID := row_ID record;
     wireText := text_of (row_wireText record);
     confidence := to_confidence raw;
     matchStrategy := strategy;
     rawScore := raw;
     postingKey := text_of (row_postingKey record);
     glAccount := text_of (row_glAccount record);
     customerNo := text_of (row_customerNo record);
     companyCode := text_of (row_companyCode record);
     costCentre := text_of (row_costCentre record);
     profitCentre := text_of (row_profitCentre record);
     usageCount := number_of (row_usageCount record);
     successCount := number_of (row_successCount record);
     lastUsedDate := text_of (row_lastUsedDate record) |}.

(** The callbacks of [results.map] in the three strategies. *)
Definition vector_candidate (record : Row) : Match :=
  let similarity := number_of (row_similarity record) in
  candidate VECTOR_SEMANTIC similarity record.

Definition fuzzy_candidate (record : Row) : Match :=
  let score := number_of (row_score record) in
  candidate FUZZY_TEXT score record.

Definition openai_candidate (record : Row) : Match :=
  let similarity := number_of (row_similarity record) in
  candidate OPENAI_EMBEDDING similarity record.

Definition vectorSearch (db : Db) (lineText : string) : completion (list Match) :=
  try_catch
    (results <- run db SapVectorSimilarity lineText ;;
     Value (map vector_candidate results))
    (fun _ => Value []).

Definition fuzzySearch (db : Db) (lineText : string) : completion (list Match) :=
  try_catch
    (results <- run db FuzzyContains lineText ;;
     Value (map fuzzy_candidate results))
    (fun _ => Value []).

(** [process.env.OPENAI_REMOTE_SOURCE || 'MY_SERVICE_INSTANCE'] *)
Definition remote_source (OPENAI_REMOTE_SOURCE : option string) : string :=
  if truthy_str OPENAI_REMOTE_SOURCE then or_empty OPENAI_REMOTE_SOURCE
  else "MY_SERVICE_INSTANCE"%string.

Definition openaiEmbeddingSearch (env : option string) (db : Db) (lineText : string)
  : completion (list Match) :=
  try_catch
    (let remoteSourceName := remote_source env in
     results <- run db (OpenAIVectorSimilarity remoteSourceName) lineText ;;
     Value (map openai_candidate results))
    (fun _ => Value []).

(** One turn of the loop of [deduplicateMatches]. *)
Definition dedup_step (matchMap : JsMap.t Match) (match_ : Match) : JsMap.t Match :=
  let id := ID match_ in
  if negb (JsMap.has id matchMap) then JsMap.set id match_ matchMap
  else
    match JsMap.get id matchMap with
    | Some existing =>
        if negb (Qle_bool (confidence match_) (confidence existing))
        then JsMap.set id match_ matchMap
        else matchMap
    | None => matchMap
    end.

Definition deduplicateMatches (matches : list Match) : list Match :=
  JsMap.values (fold_left dedup_step matches []).

Definition MIN_CONFIDENCE : Q := 85%Q.

(** What [searchLine] does with the three result lists. *)
Definition merge_and_rank (fuzzyMatches vectorMatches openaiMatches : list Match)
  : list Match :=
  let allMatches := fuzzyMatches ++ vectorMatches ++ openaiMatches in
  let uniqueMatches := deduplicateMatches allMatches in
  let filteredMatches :=
    filter (fun m => Qle_bool MIN_CONFIDENCE (confidence m)) uniqueMatches in
  JS.sort (descending confidence) filteredMatches.

(** [!lineText || lineText.trim().length < 5] *)
Definition too_short (lineText : option string) : bool :=
  negb (truthy_str lineText) || (String.length (trim (or_empty lineText)) <? 5).

(** [connect] is the outcome of [cds.connect.to('db')], [env] the value of
    the environment variable OPENAI_REMOTE_SOURCE.  [Promise.all] over
    promises that each carry a [catch] handler is the sequence of the
    three handled calls. *)
Definition searchLine (connect : completion Db) (env : option string)
  (lineText : option string) : completion (list Match) :=
  if too_short lineText
  then Value []
  else
    let text := or_empty lineText in
    db <- connect ;;
    try_catch
      (fuzzyMatches <- try_catch (fuzzySearch db text) (fun _ => Value []) ;;
       vectorMatches <- try_catch (vectorSearch db text) (fun _ => Value []) ;;
       openaiMatches <- try_catch (openaiEmbeddingSearch env db text) (fun _ => Value []) ;;
       Value (merge_and_rank fuzzyMatches vectorMatches openaiMatches))
      (fun _ => Value []).

(** ** Notions the properties are stated with *)

(** What [deduplicateMatches] maintains while it walks the candidates seen
    so far: one entry per id, filed under its own id, taken from the
    candidates seen, and no candidate seen with that id has a higher
    confidence. *)
Definition well_kept (seen : list Match) (m : JsMap.t Match) : Prop :=
  NoDup (JsMap.keys m) /\
  (forall k v, In (k, v) m ->
     ID v = k /\ In v seen /\
     forall x, In x seen -> ID x = k -> (confidence x <= confidence v)%Q) /\
  (forall x, In x seen -> In (ID x) (JsMap.keys m)).

(** The ids of a list in the order in which they occur first. *)
Fixpoint first_seen (ids : list string) : list string :=
  match ids with
  | [] => []
  | id :: rest => id :: filter (fun x => negb (String.eqb x id)) (first_seen rest)
  end.

(** The candidates a handled strategy call hands to the merge. *)
Definition results_of (c : completion (list Match)) : list Match :=
  match c with
  | Value ms => ms
  | Throw _ => []
  end.

Definition query_eqb (q1 q2 : Query) : bool :=
  match q1, q2 with
  | FuzzyContains, FuzzyContains => true
  | SapVectorSimilarity, SapVectorSimilarity => true
  | OpenAIVectorSimilarity a, OpenAIVectorSimilarity b => String.eqb a b
  | _, _ => false
  end.

(** The backend [db] with the statement [q] finding no row. *)
Definition silenced (q : Query) (db : Db) : Db :=
  {| run := fun q' text => if query_eqb q' q then Value [] else run db q' text |}.

(** The candidates of the strategies other than the one that runs [q]. *)
Definition surviving (q : Query) (db : Db) (env : option string) (text : string)
  : list Match * list Match * list Match :=
  (if query_eqb FuzzyContains q then [] else results_of (fuzzySearch db text),
   if query_eqb SapVectorSimilarity q then [] else results_of (vectorSearch db text),
   if query_eqb (OpenAIVectorSimilarity (remote_source env)) q then []
   else results_of (openaiEmbeddingSearch env db text)).

(** The raw score a strategy reads off a row of its statement: [score] for
    the fuzzy statement, [similarity] for the two vector statements. *)
Definition backend_score (q : Query) (record : Row) : Q :=
  match q with
  | FuzzyContains => number_of (row_score record)
  | SapVectorSimilarity | OpenAIVectorSimilarity _ => number_of (row_similarity record)
  end.

(** The statements [searchLine] runs. *)
Definition statements (env : option string) : list Query :=
  [FuzzyContains; SapVectorSimilarity; OpenAIVectorSimilarity (remote_source env)].

End LineMatcher.

(* ------------------------------------------------------------------ *)
(** * Built-ins taken as arguments *)

Module Host.

(** The result of [JSON.parse]. *)
#[warnings="-register-all"]
Inductive json : Type :=
| JNull
| JBool (b : bool)
| JNumber (q : Q)
| JString (s : string)
| JArray (items : list json)
| JObject (fields : list (string * json)).

(** Built-ins whose results are not modelled: [JSON.parse] on a text (it
    throws a SyntaxError on malformed text), ToNumber on a string, array or
    object ([None] is NaN), [Number.prototype.toString], and the date
    window [new Date(valueDate)] moved by the two day counts and printed by
    [toISOString] (it throws a RangeError on an invalid date). *)
Record Builtins := mkBuiltins {
  JSON_parse : string -> completion json;
  coerce_to_number : json -> option Q;
  Number_toString : Q -> string;
  iso_window : string -> Q -> Q -> completion (string * string)
}.

(** ToNumber on a parsed JSON value. *)
Definition ToNumber (B : Builtins) (v : json) : option Q :=
  match v with
  | JNumber q => Some q
  | JNull => Some 0%Q
  | JBool true => Some 1%Q
  | JBool false => Some 0%Q
  | other => coerce_to_number B other
  end.

(** [`${amount}`] *)
Definition template_number (B : Builtins) (amount : argument Q) : string :=
  match amount with
  | Given q => Number_toString B q
  | Undefined => "undefined"%string
  | Null => "null"%string
  end.

Definition TypeError (what : string) : Error := mkError what.

End Host.

Import Host.

(* ------------------------------------------------------------------ *)
(** * Cached email search (src/srv/lib/email-matcher.js, first part) *)

Module EmailMatcher.

Local Open Scope string_scope.

(** A row of RECONCILIATION_EMAILCACHE with its similarity. *)
Record Email := mkEmail {
  ID : string;
  messageId : option string;
  subject : option string;
  fromAddress : option string;
  fromName : option string;
  receivedDateTime : option string;
  bodyPreview : option string;
  bodyText : option string;
  extractedAmounts : option string;
  extractedCompanies : option string;
  similarity : option Q
}.

Definition Embedding := list Q.

Record EmbeddingRow := mkEmbeddingRow { embedding : option Embedding }.

Record Db := mkDb {
  (* SELECT TO_VECTOR(VECTOR_EMBEDDING(..., ?)) FROM DUMMY *)
  run_embedding : string -> completion (list EmbeddingRow);
  (* the similarity query over the date window, 25 rows at most *)
  run_similarity : Embedding -> string -> string -> completion (list Email)
}.

(** [extractedCompanies.some(c => c.toLowerCase().includes(companyLower))]
    over the array elements: an element that is no string has no
    [toLowerCase]. *)
Fixpoint some_company (companyLower : string) (items : list json) : completion bool :=
  match items with
  | [] => Value false
  | JString c :: rest =>
      if includes (toLowerCase c) companyLower then Value true
      else some_company companyLower rest
  | _ :: _ => Throw (TypeError "c.toLowerCase is not a function")
  end.

(** [extracted - amount] is NaN when [extracted] is, and a comparison with
    NaN is false. *)
Definition amount_close (B : Builtins) (amount tolerance : Q) (extracted : json) : bool :=
  match ToNumber B extracted with
  | Some x => Qle_bool (Math_abs (fsub x amount)) tolerance
  | None => false
  end.

(** [value.some(f)] on a parsed value: only an array has [some]. *)
Definition array_items (value : json) : completion (list json) :=
  match value with
  | JArray items => Value items
  | _ => Throw (TypeError "some is not a function")
  end.

Definition or_empty_array (text : option string) : string :=
  if truthy_str text then or_empty text else "[]".

(** The first [try] block: whether the +15 bonus applies. *)
Definition companies_bonus (B : Builtins) (email : Email) (companyLower : string) : bool :=
  match
    try_catch
      (parsed <- JSON_parse B (or_empty_array (extractedCompanies email)) ;;
       items <- array_items parsed ;;
       some_company companyLower items)
      (fun _ => Value false)
  with
  | Value b => b
  | Throw _ => false
  end.

(** The second [try] block: whether the +20 bonus applies. *)
Definition amounts_bonus (B : Builtins) (email : Email) (amount : Q) : bool :=
  match
    try_catch
      (parsed <- JSON_parse B (or_empty_array (extractedAmounts email)) ;;
       let tolerance := fmul amount (literal 1 100) in           (* amount * 0.01 *)
       items <- array_items parsed ;;
       Value (existsb (amount_close B amount tolerance) items))
      (fun _ => Value false)
  with
  | Value b => b
  | Throw _ => false
  end.

Definition add_if (b : bool) (points : Q) (score : Q) : Q :=
  if b then fadd score points else score.

Definition calculateRelevanceScore (B : Builtins) (email : Email) (companyName : string)
  (amount : option Q) (searchEmbedding : Embedding) : Q :=
  let score := 0%Q in
  let similarity := or_zero (similarity email) in
  let score := fadd score (fmul similarity 50) in
  let subject := toLowerCase (or_empty (subject email)) in
  let bodyPreview := toLowerCase (or_empty (bodyPreview email)) in
  let companyLower := toLowerCase companyName in
  let score := add_if (includes subject companyLower) 20 score in
  let score := add_if (includes bodyPreview companyLower) 10 score in
  let score := add_if (companies_bonus B email companyLower) 15 score in
  let score :=
    if truthy_num amount
    then add_if (amounts_bonus B email (or_zero amount)) 20 score
    else score in
  let fromName := toLowerCase (or_empty (fromName email)) in
  let fromAddress := toLowerCase (or_empty (fromAddress email)) in
  let score :=
    add_if (includes fromName companyLower || includes fromAddress companyLower) 10 score in
  Math_min score 100.

Record ScoredEmail := mkScored {
  email : Email;
  relevanceScore : Q
}.

(** The number of days the date computation works with.  The default of
    the parameter stands in for an argument that is left out or
    [undefined]; [null] stays, and the subtraction and the addition read it
    as 0. *)
Definition or_default (days : argument Q) (default : Q) : Q :=
  match days with
  | Given d => d
  | Undefined => default
  | Null => 0%Q
  end.

(** [embeddingResult[0]?.embedding] *)
Definition first_embedding (rows : list EmbeddingRow) : option Embedding :=
  match rows with
  | row :: _ => embedding row
  | [] => None
  end.

Definition searchCachedEmails (B : Builtins) (db : Db) (companyName : option string)
  (amount : argument Q) (valueDate : string) (daysBefore daysAfter : argument Q)
  : completion (list ScoredEmail) :=
  let daysBefore := or_default daysBefore 7 in
  let daysAfter := or_default daysAfter 7 in
  if negb (truthy_str companyName)
  then Throw (mkError "Company name is required for email search")
  else
    let companyName := or_empty companyName in
    try_catch
      (window <- iso_window B valueDate daysBefore daysAfter ;;
       let searchText := companyName ++ " payment " ++ template_number B amount in
       embeddingResult <- run_embedding db searchText ;;
       match first_embedding embeddingResult with
       | None => Throw (mkError "Failed to generate search embedding")
       | Some searchEmbedding =>
           results <- run_similarity db searchEmbedding (fst window) (snd window) ;;
           let scored :=
             map (fun email =>
                    mkScored email
                      (calculateRelevanceScore B email companyName (passed amount)
                         searchEmbedding))
                 results in
           let scored :=
             JS.sort (descending relevanceScore) scored in
           Value (firstn 10 scored)
       end)
      (fun error => Throw error).

End EmailMatcher.

(* ------------------------------------------------------------------ *)
(** * Live mailbox search (src/srv/lib/email-summarizer.js, second part) *)

Module EmailSearch.

Local Open Scope string_scope.

(** A message of the Graph API. *)
Module Graph.

Record EmailAddress := mkAddress {
  name : option string;
  address : option string
}.

Record Sender := mkSender { emailAddress : option EmailAddress }.

Record Body := mkBody { content : option string }.

Record Message := mkMessage {
  subject : option string;
  from : option Sender;
  receivedDateTime : option string;
  bodyPreview : option string;
  body : option Body;
  hasAttachments : bool
}.

End Graph.

Import Graph.

(** [email.from?.emailAddress?.name] and [...?.address] *)
Definition sender_name (email : Message) : option string :=
  match from email with
  | Some f => match emailAddress f with Some a => name a | None => None end
  | None => None
  end.

Definition sender_address (email : Message) : option string :=
  match from email with
  | Some f => match emailAddress f with Some a => address a | None => None end
  | None => None
  end.

(** [/\B(?=(\d{3})+(?!\d))/g] *)
Definition thousands : regex :=
  (NotWordBoundary >> Look true (plus (Capture (times 3 digit)) >> Look false digit))%re.

Definition add_if (b : bool) (points : Q) (score : Q) : Q :=
  if b then fadd score points else score.

Definition calculateRelevance (B : Builtins) (email : Message) (companyName : string)
  (amount : option Q) : Q :=
  let score := 0%Q in
  let subject := toLowerCase (or_empty (subject email)) in
  let preview := toLowerCase (or_empty (bodyPreview email)) in
  let companyLower := toLowerCase companyName in
  let score := add_if (includes subject companyLower) 50 score in
  let score := add_if (includes preview companyLower) 30 score in
  let score :=
    if truthy_num amount then
      let amountStr := replace_all thousands "," (Number_toString B (or_zero amount)) in
      let amountPlain := Number_toString B (or_zero amount) in
      let score :=
        add_if (includes subject amountStr || includes subject amountPlain) 30 score in
      add_if (includes preview amountStr || includes preview amountPlain) 20 score
    else score in
  let score := add_if (hasAttachments email) 10 score in
  let fromName := toLowerCase (or_empty (sender_name email)) in
  let fromAddress := toLowerCase (or_empty (sender_address email)) in
  let score :=
    add_if (includes fromName companyLower || includes fromAddress companyLower) 20 score in
  score.

(** An entry of the list [searchInbox] returns. *)
Record Result := mkResult {
  subject : option string;
  from : option string;
  fromAddress : option string;
  receivedDate : option string;
  preview : option string;
  bodyText : option string;
  hasAttachments : bool;
  relevanceScore : Q
}.

(** [email.body?.content || email.bodyPreview] *)
Definition body_text (email : Message) : option string :=
  or_str (match body email with Some b => content b | None => None end)
         (bodyPreview email).

Definition to_result (B : Builtins) (companyName : string) (amount : option Q)
  (email : Message) : Result :=
  {| subject := Graph.subject email;
     from := or_str (sender_name email) (sender_address email);
     fromAddress := sender_address email;
     receivedDate := receivedDateTime email;
     preview := bodyPreview email;
     bodyText := body_text email;
     hasAttachments := Graph.hasAttachments email;
     relevanceScore := calculateRelevance B email companyName amount |}.

Definition quoted (s : string) : string :=
  String DQUOTE s ++ String DQUOTE "".

(** ["${companyName}" AND subject:"SAP HACKATHON"] *)
Definition search_query (companyName : string) : string :=
  quoted companyName ++ " AND subject:" ++ quoted "SAP HACKATHON".

(** The number of days the date computation works with.  The default of
    the parameter stands in for an argument that is left out or
    [undefined]; [null] stays, and the subtraction and the addition read it
    as 0. *)
Definition or_default (days : argument Q) (default : Q) : Q :=
  match days with
  | Given d => d
  | Undefined => default
  | Null => 0%Q
  end.

(** [graph] is [executeHttpRequest] on the MicrosoftGraphAPI destination for
    the [$search] value given; it yields [response.data?.value]. *)
Definition searchInbox (B : Builtins) (graph : string -> completion (option (list Message)))
  (companyName : option string) (amount : option Q) (valueDate : string)
  (daysBefore daysAfter : argument Q) : completion (list Result) :=
  let daysBefore := or_default daysBefore 3 in
  let daysAfter := or_default daysAfter 3 in
  if negb (truthy_str companyName)
  then Throw (mkError "Company name is required for email search")
  else
    let companyName := or_empty companyName in
    try_catch
      (window <- iso_window B valueDate daysBefore daysAfter ;;
       let searchQuery := search_query companyName in
       response <- graph searchQuery ;;
       let emails := match response with Some value => value | None => [] end in
       let results := map (to_result B companyName amount) emails in
       Value (JS.sort (descending relevanceScore) results))
      (fun error =>
         if includes (message error) "not found" || includes (message error) "destination"
         then Value []
         else Throw error).

End EmailSearch.

(* ------------------------------------------------------------------ *)
(** * Company name extraction (src/srv/lib/email-matcher.js, second part) *)

Module CompanyNameExtractor.

Local Open Scope string_scope.

Import LineParser.

Record Extraction := mkExtraction {
  companyName : string;
  source : string;
  confidence : Q;
  amount : option Q;              (* set by the pattern stage *)
  fullLine : option string;       (* set by the pattern stage *)
  rawPaymentNotes : option string (* set by the LLM stage *)
}.

Definition is_2_or_3 (c : ascii) : bool := between 50 51 c.

(** [\s*BO[23]\s*:] under the i flag *)
Definition next_marker : regex :=
  (star ws >> lit_i "BO" >> Char is_2_or_3 >> star ws >> chr ":")%re.

(** [BO1\s*:\s*] under the i flag *)
Definition bo1_marker : regex :=
  (lit_i "BO1" >> star ws >> chr ":" >> star ws)%re.

(** [/BO1\s*:\s*(.+?)(?:\s*BO[23]\s*:|$)/i] *)
Definition bo1_pattern : regex :=
  (bo1_marker >> Capture (plus_lazy dot) >> Alt next_marker Eos)%re.

(** [/\s*BO[23]\s*:.*$/i] *)
Definition remnant_pattern : regex :=
  (next_marker >> star dot >> Eos)%re.

(** [/^BO[0-9]+\s*:\s*/i] *)
Definition prefix_pattern : regex :=
  (Bos >> lit_i "BO" >> plus digit >> star ws >> chr ":" >> star ws)%re.

(** The defensive cleanup of the captured text. *)
Definition cleanup (captured : string) : string :=
  trim (replace prefix_pattern "" (replace remnant_pattern "" (trim captured))).

(** [bo1Match[1]]: the group takes part in every match of the pattern. *)
Definition or_nil (g : capture) : list ascii :=
  match g with
  | Some text => text
  | None => []
  end.

(** [parsedLines.find(line => line.lineType === 'BO')]: reading [lineType]
    of an element that is [null] throws. *)
Fixpoint find_bo (parsedLines : list (option ParsedLine)) : completion (option ParsedLine) :=
  match parsedLines with
  | [] => Value None
  | None :: _ => Throw (TypeError "Cannot read properties of null (reading 'lineType')")
  | Some line :: rest =>
      if String.eqb (lineType line) "BO" then Value (Some line) else find_bo rest
  end.

(** The body of the [try] block; [None] stands for falling out of it. *)
Definition pattern_stage (parsedLines : list (option ParsedLine)) (amount : option Q)
  : completion (option (option Extraction)) :=
  boLine <- find_bo parsedLines ;;
  match boLine with
  | Some boLine =>
      if (0 <? String.length (lineText boLine))%nat then
        match exec bo1_pattern (lineText boLine) with
        | Some bo1Match =>
            let companyName := cleanup (str (or_nil (group1 bo1Match))) in
            if (String.length companyName =? 0)%nat then Value (Some None)
            else if (String.length companyName <? 2)%nat then Value (Some None)
            else
              Value (Some (Some {| companyName := companyName;
                                   source := "BO1";
                                   confidence := 95;
                                   amount := amount;
                                   fullLine := Some (lineText boLine);
                                   rawPaymentNotes := None |}))
        | None => Value None
        end
      else Value None
  | None => Value None
  end.

Definition extractCompanyName (parsedLines : option (list (option ParsedLine)))
  (amount : option Q) : completion (option Extraction) :=
  match parsedLines with
  | None => Value None
  | Some [] => Value None
  | Some parsedLines =>
      returned <-
        try_catch (pattern_stage parsedLines amount) (fun _ => Value (Some None)) ;;
      match returned with
      | Some result => Value result
      | None => Value None        (* the other strategies are disabled *)
      end
  end.

(** The LLM of [createLLMClient().chatCompletion(...)]: the prompt goes in,
    [response.getContent()] comes out. *)
Record LLMClient := mkClient {
  chatCompletion : string -> completion (option string)
}.

Definition prompt_before : string :=
"Analyze the following bank payment notes and extract the payer/company name.

Payment Notes:
".

Definition prompt_after : string :=
"

Instructions:
- The payer name is generally in the BO1 field, but it could be in any field (BO2, BO3, OB1, BN, etc.)
- Return ONLY the clean company/payer name
- Remove business suffixes like LLC, Inc, INC, Corp, Ltd, Co, Corporation, Incorporated, Limited
- Remove any address information, city, state, zip codes
- Do not include any field labels (like " ++ String DQUOTE "BO1:" ++ String DQUOTE ", "
  ++ String DQUOTE "BO2:" ++ String DQUOTE ", etc.)
- Return just the core business name for easy email searching
- If no clear payer name is found, return the text " ++ String DQUOTE "NONE" ++ String DQUOTE "

Example:
Input: " ++ String DQUOTE "BO1:ACME CORPORATION LLC BO2:123 MAIN ST" ++ String DQUOTE "
Output: ACME CORPORATION

Extract the payer name:".

(** [createLLMClient] is the outcome of [getModelInfo()] and
    [createLLMClient()], which run inside the [try] block. *)
Definition extractCompanyNameWithChatGPT (createLLMClient : completion LLMClient)
  (paymentNotesRaw : option string) : completion (option Extraction) :=
  if negb (truthy_str paymentNotesRaw) then Value None
  else
    let notes := or_empty paymentNotesRaw in
    try_catch
      (let prompt := prompt_before ++ notes ++ prompt_after in
       client <- createLLMClient ;;
       extractedText <- chatCompletion client prompt ;;
       match extractedText with
       | None => Throw (TypeError "Cannot read properties of undefined (reading 'trim')")
       | Some extractedText =>
           let companyName := trim extractedText in
           if (String.length companyName =? 0)%nat || String.eqb companyName "NONE"
              || (String.length companyName <? 2)%nat
           then Value None
           else Value (Some {| companyName := companyName;
                               source := "CHATGPT";
                               confidence := 90;
                               amount := None;
                               fullLine := None;
                               rawPaymentNotes := Some notes |})
       end)
      (fun _ => Value None).

End CompanyNameExtractor.

(* ------------------------------------------------------------------ *)
(** * The summary parser (src/srv/lib/email-summarizer.js, first part) *)

Module EmailSummarizer.

Local Open Scope string_scope.

Record ActionItems := mkActionItems {
  costCenter : option string;
  companyCode : option string;
  glAccount : option string;
  invoice : option string;
  notes : option string
}.

(** [/\*\*Label\*\*:\s*(.+)/i] *)
Definition label_pattern (label : string) : regex :=
  (lit_i ("**" ++ label ++ "**:") >> star ws >> Capture (plus dot))%re.

Definition costCenterPattern : regex := label_pattern "Cost Center".
Definition companyCodePattern : regex := label_pattern "Company Code".
Definition glAccountPattern : regex := label_pattern "GL Account".
Definition invoicePattern : regex := label_pattern "Invoice/Reference".
Definition notesPattern : regex := label_pattern "Notes".

(** [cleanValue(m ? m[1] : null)] *)
Definition cleanValue (value : option string) : option string :=
  if negb (truthy_str value) then None
  else
    let trimmed := trim (or_empty value) in
    if String.eqb (toLowerCase trimmed) "not found" || String.eqb trimmed "-"
    then None
    else Some trimmed.

Definition nothing : ActionItems :=
  {| costCenter := None; companyCode := None; glAccount := None;
     invoice := None; notes := None |}.

Definition parseActionItems (summary : option string) : completion ActionItems :=
  if negb (truthy_str summary) then Value nothing
  else
    let summary := or_empty summary in
    try_catch
      (let costCenterMatch := match_group1 costCenterPattern summary in
       let companyCodeMatch := match_group1 companyCodePattern summary in
       let glAccountMatch := match_group1 glAccountPattern summary in
       let invoiceMatch := match_group1 invoicePattern summary in
       let notesMatch := match_group1 notesPattern summary in
       Value {| costCenter := cleanValue costCenterMatch;
                companyCode := cleanValue companyCodeMatch;
                glAccount := cleanValue glAccountMatch;
                invoice := cleanValue invoiceMatch;
                notes := cleanValue notesMatch |})
      (fun _ =>
         Value {| costCenter := None; companyCode := None; glAccount := None;
                  invoice := None; notes := Some (substring0 200 summary) |}).

End EmailSummarizer.


(* ------------------------------------------------------------------ *)
(** * What a pattern matches, declaratively *)

Module RegexSpec.

(** Patterns without [\B] and lookahead: what they match depends on the
    text to the right only through [$]. *)
Fixpoint plain (r : regex) : bool :=
  match r with
  | Empty | Char _ | Bos | Eos => true
  | Seq r1 r2 | Alt r1 r2 => plain r1 && plain r2
  | Star _ r1 | Capture r1 => plain r1
  | NotWordBoundary | Look _ _ => false
  end.

Fixpoint has_capture (r : regex) : bool :=
  match r with
  | Capture _ => true
  | Seq r1 r2 | Alt r1 r2 => has_capture r1 || has_capture r2
  | Star _ r1 | Look _ r1 => has_capture r1
  | Empty | Char _ | Bos | Eos | NotWordBoundary => false
  end.

(** The code unit before the position reached after reading [w]. *)
Fixpoint last_char (prev : option ascii) (w : list ascii) : option ascii :=
  match w with
  | [] => prev
  | c :: w' => last_char (Some c) w'
  end.

(** [derives r prev w rest]: the pattern [r] matches the text [w] when
    [prev] stands before it and [rest] follows it. *)
Inductive derives : regex -> option ascii -> list ascii -> list ascii -> Prop :=
| D_Empty prev rest :
    derives Empty prev [] rest
| D_Char p c prev rest :
    p c = true -> derives (Char p) prev [c] rest
| D_Seq r1 r2 prev w1 w2 rest :
    derives r1 prev w1 (w2 ++ rest) ->
    derives r2 (last_char prev w1) w2 rest ->
    derives (Seq r1 r2) prev (w1 ++ w2) rest
| D_AltL r1 r2 prev w rest :
    derives r1 prev w rest -> derives (Alt r1 r2) prev w rest
| D_AltR r1 r2 prev w rest :
    derives r2 prev w rest -> derives (Alt r1 r2) prev w rest
| D_StarDone g r prev rest :
    derives (Star g r) prev [] rest
| D_StarMore g r prev w1 w2 rest :
    w1 <> [] ->
    derives r prev w1 (w2 ++ rest) ->
    derives (Star g r) (last_char prev w1) w2 rest ->
    derives (Star g r) prev (w1 ++ w2) rest
| D_Capture r prev w rest :
    derives r prev w rest -> derives (Capture r) prev w rest
| D_Bos rest :
    derives Bos None [] rest
| D_Eos prev :
    derives Eos prev [] [].

(** What a successful run of a matcher [m] for [r] tells: it read a text
    that [r] matches, left the capture alone when [r] has no group, and
    the continuation succeeded from there. *)
Definition sound_for (r : regex)
  (m : option ascii -> list ascii -> capture -> cont -> outcome) : Prop :=
  forall prev s cap k x,
    m prev s cap k = Some x ->
    exists w s' cap',
      s = w ++ s' /\ derives r prev w s' /\
      (has_capture r = false -> cap' = cap) /\
      k (last_char prev w) s' cap' = Some x.

(** A text begins with a match of [r]. *)
Definition begins_with (r : regex) (prev : option ascii) (s : list ascii) : Prop :=
  exists w rest, s = w ++ rest /\ derives r prev w rest.

(** The pattern [r] matches somewhere in the text [s]. *)
Definition occurs (r : regex) (s : list ascii) : Prop :=
  exists a w b, s = a ++ w ++ b /\ derives r (last_char None a) w b.

(** Patterns without [^] and [$] either: what they match depends on the
    text matched alone. *)
Fixpoint context_free (r : regex) : bool :=
  match r with
  | Empty | Char _ => true
  | Seq r1 r2 | Alt r1 r2 => context_free r1 && context_free r2
  | Star _ r1 | Capture r1 => context_free r1
  | Bos | Eos | NotWordBoundary | Look _ _ => false
  end.

(** A text of white space only. *)
Definition blank (w : list ascii) : Prop := Forall (fun c => is_space c = true) w.

End RegexSpec.

Import RegexSpec.

(** ** Notions of the company name extractor *)

Module CompanyNameSpec.

Import LineParser CompanyNameExtractor.


(** [cleaned cap name]: what the cleanup leaves of a captured text.  The
    name is a piece of the text; it has no white space at its ends and no
    BO2 or BO3 marker in it.  What is cut before it is white space around
    at most one label [BO<digits>\s*:\s*]; what is cut after it is white
    space, or it begins with a BO2 or BO3 marker. *)
Definition cleaned (cap name : list ascii) : Prop :=
  exists lead tail,
    cap = lead ++ name ++ tail /\
    trim_chars name = name /\
    ~ occurs next_marker name /\
    (exists ws1 label ws2,
       lead = ws1 ++ label ++ ws2 /\ blank ws1 /\ blank ws2 /\
       (label = [] \/ exists rest, derives prefix_pattern None label rest)) /\
    (blank tail \/ begins_with next_marker (last_char None (lead ++ name)) tail).

(** The result of the pattern stage for the name [name] found in the
    line [boLine]. *)
Definition pattern_result (name : string) (amount : option Q) (boLine : ParsedLine)
  : Extraction :=
  {| companyName := name;
     source := "BO1"%string;
     confidence := 95%Q;
     amount := amount;
     fullLine := Some (lineText boLine);
     rawPaymentNotes := None |}.


End CompanyNameSpec.

Import CompanyNameSpec.

(* ------------------------------------------------------------------ *)
(** * Sample inputs *)

Module Samples.

Local Open Scope string_scope.

Section Matcher.
Import LineMatcher.

Definition col {A : Type} (v : A) : column A := mkColumn None (Some v).
Definition no_col {A : Type} : column A := mkColumn None None.

Definition sample_row (id wire : string) (raw : Q) : Row :=
  mkRow id (col wire) (col raw) (col raw)
        (col "40") (col "6003010") no_col (col "1400") (col "19090001") no_col
        no_col no_col no_col.

Definition acme_line : string := "BO:219062889 BO1:ACME LLC BO2:123 MAIN ST".


(** The SAP vector statement fails; the two others find three records. *)
Definition db_vector_down : Db :=
  mkDb (fun q _ =>
          match q with
          | FuzzyContains =>
              Value [sample_row "h-1" acme_line (literal 6 7); sample_row "h-2" "BO1:ACME" (literal 1 2)]
          | SapVectorSimilarity => Throw (mkError "connection reset")
          | OpenAIVectorSimilarity _ =>
              Value [sample_row "h-2" "BO1:ACME" 1; sample_row "h-3" "ACME INC" (literal 5 7)]
          end).

(** One record found by two strategies, among others. *)
Definition found_twice : list Match :=
  results_of (fuzzySearch db_vector_down acme_line) ++
  results_of (openaiEmbeddingSearch None db_vector_down acme_line).

(** One record as the three strategies report it in [db_agreeing]. *)
Definition at_90 : Match := fuzzy_candidate (sample_row "h-1" acme_line (literal 6 7)).
Definition at_70 : Match := vector_candidate (sample_row "h-1" acme_line (literal 2 7)).
Definition at_95 : Match := openai_candidate (sample_row "h-1" acme_line 1).

End Matcher.

(** Payment notes of three lines: a buyer order, a transaction id and a
    sending person marker. *)
Definition three_lines : string :=
  "BO:219062889 BO1:ACME LLC BO2:123 MAIN ST\nTRID:998877\nSENDING PERSON: JOHN SMITH".

Definition sending_line : string := "SENDING PERSON: JOHN SMITH".

(** A day of March 2025 as [toISOString] prints it at UTC. *)
Definition march_2025 (day : Z) : string :=
  "2025-03-" ++ (if (day <? 10)%Z then "0" else "")
  ++ NilZero.string_of_int (Z.to_int day) ++ "T00:00:00.000Z".

Definition whole (q : Q) : bool := Qeq_bool (inject_Z (Qfloor q)) q.

(** Built-ins that are right on the sample inputs: whole numbers are
    printed in decimal, the one JSON text parsed is the empty array, and
    the window is computed, at UTC, around the value date 2025-03-10 for
    whole day counts that stay within March; the samples use no other
    value date, and the built-in takes any other for an invalid date. *)
Definition sample_builtins : Builtins :=
  {| JSON_parse := fun text =>
       if String.eqb text "[]" then Value (JArray [])
       else Throw (mkError "Unexpected token");
     coerce_to_number := fun _ => None;
     Number_toString := fun q => NilZero.string_of_int (Z.to_int (Qfloor q));
     iso_window := fun valueDate daysBefore daysAfter =>
       let first := (10 - Qfloor daysBefore)%Z in
       let last := (10 + Qfloor daysAfter)%Z in
       if String.eqb valueDate "2025-03-10" && whole daysBefore && whole daysAfter
          && (1 <=? first)%Z && (first <=? 31)%Z && (1 <=? last)%Z && (last <=? 31)%Z
       then Value (march_2025 first, march_2025 last)
       else Throw (mkError "Invalid time value") |}.

(** A message of the mailbox to which every bonus applies for the company
    ACME and the amount 1500. *)
Definition message_with_everything : EmailSearch.Graph.Message :=
  {| EmailSearch.Graph.subject := Some "SAP HACKATHON: ACME remittance 1,500";
     EmailSearch.Graph.from :=
       Some (EmailSearch.Graph.mkSender
               (Some (EmailSearch.Graph.mkAddress (Some "Acme Billing")
                        (Some "ar@acme.example"))));
     EmailSearch.Graph.receivedDateTime := Some "2025-03-10T09:00:00Z";
     EmailSearch.Graph.bodyPreview := Some "Acme paid 1500 USD, invoice attached";
     EmailSearch.Graph.body := None;
     EmailSearch.Graph.hasAttachments := true |}.

(** A cached email that names ACME in its subject, at similarity 4/5. *)
Definition cached_email : EmailMatcher.Email :=
  {| EmailMatcher.ID := "e-1";
     EmailMatcher.messageId := Some "m-1";
     EmailMatcher.subject := Some "ACME remittance advice";
     EmailMatcher.fromAddress := Some "ar@vendor.example";
     EmailMatcher.fromName := Some "Accounts";
     EmailMatcher.receivedDateTime := Some "2025-03-10T09:00:00Z";
     EmailMatcher.bodyPreview := Some "Please find the remittance attached";
     EmailMatcher.bodyText := None;
     EmailMatcher.extractedAmounts := None;
     EmailMatcher.extractedCompanies := None;
     EmailMatcher.similarity := Some (literal 4 5) |}.

(** A cached email about something else, at similarity -1/2. *)
Definition unrelated_email : EmailMatcher.Email :=
  {| EmailMatcher.ID := "e-2";
     EmailMatcher.messageId := Some "m-2";
     EmailMatcher.subject := Some "Quarterly newsletter";
     EmailMatcher.fromAddress := Some "news@vendor.example";
     EmailMatcher.fromName := Some "Newsletter";
     EmailMatcher.receivedDateTime := Some "2025-03-11T09:00:00Z";
     EmailMatcher.bodyPreview := Some "What is new this quarter";
     EmailMatcher.bodyText := None;
     EmailMatcher.extractedAmounts := None;
     EmailMatcher.extractedCompanies := None;
     EmailMatcher.similarity := Some (- (1 # 2))%Q |}.

Definition cached_db : EmailMatcher.Db :=
  EmailMatcher.mkDb
    (fun _ => Value [EmailMatcher.mkEmbeddingRow (Some [1; 0]%Q)])
    (fun _ _ _ => Value [cached_email]).

Definition mailbox : string -> completion (option (list EmailSearch.Graph.Message)) :=
  fun _ => Value (Some [message_with_everything]).

(** A line of type BO whose name stands behind a second label and before
    white space, and one whose BO1 field holds a BO2 marker only. *)
Definition labelled_line : LineParser.ParsedLine :=
  LineParser.mkParsedLine 1 "BO:77 BO1: BO7: ACME  " "BO" None
    (LineParser.extractMetadata "BO:77 BO1: BO7: ACME  ").

Definition marker_only_line : LineParser.ParsedLine :=
  LineParser.mkParsedLine 1 "BO:77 BO1: BO2:123 MAIN ST" "BO" None
    (LineParser.extractMetadata "BO:77 BO1: BO2:123 MAIN ST").

(** The parsed lines of [three_lines], and an LLM that answers with a name. *)
Definition parsed_three_lines : option (list (option LineParser.ParsedLine)) :=
  Some (map Some (LineParser.parsePaymentNotes (Some three_lines))).

Definition answering_llm : completion CompanyNameExtractor.LLMClient :=
  Value (CompanyNameExtractor.mkClient (fun _ => Value (Some " ACME CORPORATION "))).

(** A summary without any of the five labels. *)
Definition unlabelled_summary : string := "The emails mention no accounting fields.".

End Samples.

(* ------------------------------------------------------------------ *)
(** * The comparison of the strategies (src/srv/lib/line-matcher.js) *)

Module LineComparison.

Import LineMatcher.

Record Comparison := mkComparison {
  vector : list Match;
  fuzzy : list Match;
  chatgpt : list Match;
  openaiEmbedding : list Match
}.

(** The reranker is disabled: it finds nothing. *)
Definition chatgptSearch (db : Db) (lineText : string) : completion (list Match) :=
  Value [].

Definition nothing_found : Comparison :=
  {| vector := []; fuzzy := []; chatgpt := []; openaiEmbedding := [] |}.

(** In [Promise.all] the first two calls carry no [catch] handler of their
    own; a rejection of either goes to the [catch] block of the function. *)
Definition searchLineComparison (connect : completion Db) (env : option string)
  (lineText : option string) : completion Comparison :=
  if too_short lineText
  then Value nothing_found
  else
    let text := or_empty lineText in
    db <- connect ;;
    try_catch
      (vectorMatches <- vectorSearch db text ;;
       fuzzyMatches <- fuzzySearch db text ;;
       chatgptMatches <- try_catch (chatgptSearch db text) (fun _ => Value []) ;;
       openaiEmbeddingMatches <-
         try_catch (openaiEmbeddingSearch env db text) (fun _ => Value []) ;;
       Value {| vector := vectorMatches;
                fuzzy := fuzzyMatches;
                chatgpt := chatgptMatches;
                openaiEmbedding := openaiEmbeddingMatches |})
      (fun _ => Value nothing_found).

End LineComparison.

(* ------------------------------------------------------------------ *)
(** * Cached emails for display (src/srv/lib/email-matcher.js, first part) *)

Module EmailDisplay.

Local Open Scope string_scope.

(** [safeParseJSON] *)
Definition safeParseJSON (B : Builtins) (jsonString : option string) : json :=
  match
    try_catch (JSON_parse B (EmailMatcher.or_empty_array jsonString))
              (fun _ => Value (JArray []))
  with
  | Value parsed => parsed
  | Throw _ => JArray []
  end.

(** An entry of the list [formatCachedEmailResults] returns. *)
Record Formatted := mkFormatted {
  id : string;
  messageId : option string;
  subject : option string;
  from : option string;
  fromAddress : option string;
  receivedDate : option string;
  preview : string;
  fullBody : option string;
  score : Z;
  similarity : Z;
  extractedAmounts : json;
  extractedCompanies : json
}.

(** [email.bodyPreview?.substring(0, 150) + '...']: without a preview the
    left operand is [undefined], which the concatenation prints. *)
Definition preview_of (bodyPreview : option string) : string :=
  match bodyPreview with
  | Some text => substring0 150 text ++ "..."
  | None => "undefined" ++ "..."
  end.

Definition format_one (B : Builtins) (scored : EmailMatcher.ScoredEmail) : Formatted :=
  let email := EmailMatcher.email scored in
  {| id := EmailMatcher.ID email;
     messageId := EmailMatcher.messageId email;
     subject := EmailMatcher.subject email;
     from := or_str (EmailMatcher.fromName email) (EmailMatcher.fromAddress email);
     fromAddress := EmailMatcher.fromAddress email;
     receivedDate := EmailMatcher.receivedDateTime email;
     preview := preview_of (EmailMatcher.bodyPreview email);
     fullBody := EmailMatcher.bodyText email;
     score := Math_round (EmailMatcher.relevanceScore scored);
     similarity := Math_round (fmul (or_zero (EmailMatcher.similarity email)) 100);
     extractedAmounts := safeParseJSON B (EmailMatcher.extractedAmounts email);
     extractedCompanies := safeParseJSON B (EmailMatcher.extractedCompanies email) |}.

Definition formatCachedEmailResults (B : Builtins)
  (emails : list EmailMatcher.ScoredEmail) : list Formatted :=
  map (format_one B) emails.

(** A row of RECONCILIATION_EMAILCACHE with the columns [getEmailById]
    reads. *)
Record CachedEmail := mkCachedEmail {
  row : EmailMatcher.Email;
  toAddresses : option string;
  bodyHtml : option string;
  extractedDates : option string
}.

Record Contact := mkContact {
  name : option string;
  address : option string
}.

Record FullEmail := mkFullEmail {
  full_id : string;
  full_messageId : option string;
  full_subject : option string;
  full_from : Contact;
  full_to : json;
  full_receivedDateTime : option string;
  full_bodyPreview : option string;
  full_bodyText : option string;
  full_bodyHtml : option string;
  full_extractedAmounts : json;
  full_extractedCompanies : json;
  full_extractedDates : json
}.

(** [select_by_id] is [db.run] on the SELECT with [where ({ ID: emailId })]. *)
Definition getEmailById (B : Builtins)
  (select_by_id : string -> completion (list CachedEmail)) (emailId : string)
  : completion FullEmail :=
  try_catch
    (result <- select_by_id emailId ;;
     match result with
     | [] => Throw (mkError ("Email not found: " ++ emailId))
     | cached :: _ =>
         let email := row cached in
         Value {| full_id := EmailMatcher.ID email;
                  full_messageId := EmailMatcher.messageId email;
                  full_subject := EmailMatcher.subject email;
                  full_from := {| name := EmailMatcher.fromName email;
                                  address := EmailMatcher.fromAddress email |};
                  full_to := safeParseJSON B (toAddresses cached);
                  full_receivedDateTime := EmailMatcher.receivedDateTime email;
                  full_bodyPreview := EmailMatcher.bodyPreview email;
                  full_bodyText := EmailMatcher.bodyText email;
                  full_bodyHtml := bodyHtml cached;
                  full_extractedAmounts := safeParseJSON B (EmailMatcher.extractedAmounts email);
                  full_extractedCompanies :=
                    safeParseJSON B (EmailMatcher.extractedCompanies email);
                  full_extractedDates := safeParseJSON B (extractedDates cached) |}
     end)
    (fun error => Throw error).

End EmailDisplay.

(* ------------------------------------------------------------------ *)
(** * Cleaning a company name (src/srv/lib/email-matcher.js, second part) *)

Module CompanyNameCleaner.

Local Open Scope string_scope.

(** [/\s+LLC$/i], [/\s+INC\.?$/i], [/\s+CORP\.?$/i], [/\s+LTD\.?$/i] and
    [/\s+CO\.?$/i] *)
Definition llc_suffix : regex := (plus ws >> lit_i "LLC" >> Eos)%re.
Definition inc_suffix : regex := (plus ws >> lit_i "INC" >> opt (chr ".") >> Eos)%re.
Definition corp_suffix : regex := (plus ws >> lit_i "CORP" >> opt (chr ".") >> Eos)%re.
Definition ltd_suffix : regex := (plus ws >> lit_i "LTD" >> opt (chr ".") >> Eos)%re.
Definition co_suffix : regex := (plus ws >> lit_i "CO" >> opt (chr ".") >> Eos)%re.

Definition cleanCompanyName (companyName : option string) : string :=
  if negb (truthy_str companyName) then ""
  else
    trim
      (replace co_suffix ""
         (replace ltd_suffix ""
            (replace corp_suffix ""
               (replace inc_suffix ""
                  (replace llc_suffix "" (or_empty companyName)))))).

(** Patterns that end in [$] on every path. *)
Fixpoint ends_at_eos (r : regex) : bool :=
  match r with
  | Eos => true
  | Seq _ r2 => ends_at_eos r2
  | Alt r1 r2 => ends_at_eos r1 && ends_at_eos r2
  | Capture r1 => ends_at_eos r1
  | _ => false
  end.

End CompanyNameCleaner.

(* ------------------------------------------------------------------ *)
(** * Further sample inputs *)

Module MoreSamples.

Local Open Scope string_scope.

(** A cached email of the sample mailbox. *)
Definition cached (id subject : string) (similarity : Q) : EmailMatcher.Email :=
  {| EmailMatcher.ID := id;
     EmailMatcher.messageId := Some id;
     EmailMatcher.subject := Some subject;
     EmailMatcher.fromAddress := Some "ar@vendor.example";
     EmailMatcher.fromName := Some "Accounts";
     EmailMatcher.receivedDateTime := Some "2025-03-10T09:00:00Z";
     EmailMatcher.bodyPreview := Some "Please find the remittance attached";
     EmailMatcher.bodyText := None;
     EmailMatcher.extractedAmounts := None;
     EmailMatcher.extractedCompanies := None;
     EmailMatcher.similarity := Some similarity |}.

(** Twelve cached emails, by falling similarity; three of them name ACME
    in the subject. *)
Definition twelve_emails : list EmailMatcher.Email :=
  [ cached "e-01" "Remittance advice" (literal 90 100);
    cached "e-02" "Payment notice" (literal 85 100);
    cached "e-03" "ACME remittance advice" (literal 80 100);
    cached "e-04" "Wire confirmation" (literal 75 100);
    cached "e-05" "Invoice 4711" (literal 70 100);
    cached "e-06" "Statement of account" (literal 65 100);
    cached "e-07" "Payment from Acme" (literal 60 100);
    cached "e-08" "Credit note" (literal 55 100);
    cached "e-09" "Reminder" (literal 50 100);
    cached "e-10" "Order confirmation" (literal 45 100);
    cached "e-11" "Delivery note" (literal 40 100);
    cached "e-12" "ACME newsletter" (literal 10 100) ].

Definition one_embedding : list EmailMatcher.EmbeddingRow :=
  [EmailMatcher.mkEmbeddingRow (Some [1; 0]%Q)].

(** A cache that embeds the text of the search for ACME and 1500 and
    holds the twelve emails in the seven days around 2025-03-10. *)
Definition crowded_db : EmailMatcher.Db :=
  EmailMatcher.mkDb
    (fun searchText =>
       if String.eqb searchText "ACME payment 1500" then Value one_embedding
       else Value [])
    (fun _ startDate endDate =>
       if String.eqb startDate "2025-03-03T00:00:00.000Z"
          && String.eqb endDate "2025-03-17T00:00:00.000Z"
       then Value twelve_emails else Value []).

(** A cache that embeds the text of the search for ACME and [null] only,
    and holds one email on 2025-03-10. *)
Definition null_db : EmailMatcher.Db :=
  EmailMatcher.mkDb
    (fun searchText =>
       if String.eqb searchText "ACME payment null" then Value one_embedding
       else Value [])
    (fun _ startDate endDate =>
       if String.eqb startDate "2025-03-10T00:00:00.000Z"
          && String.eqb endDate "2025-03-10T00:00:00.000Z"
       then Value [Samples.cached_email] else Value []).

(** A cache whose similarity statement fails. *)
Definition refusing_db : EmailMatcher.Db :=
  EmailMatcher.mkDb
    (fun _ => Value one_embedding)
    (fun _ _ _ => Throw (mkError "connection reset")).

(** A summary in the format asked for, one field not found. *)
Definition labelled_summary : string :=
  "**Cost Center**: 19090001 
**Company Code**: 1400
**GL Account**: 6003010
**Invoice/Reference**: Not found
**Notes**: Remittance for March.".

End MoreSamples.
(* ================================================================== *)
(** * Properties *)

(** ** Doubles *)

Module DoubleFacts.

Local Open Scope Q_scope.
Local Unset Implicit Arguments.

Lemma two_pow_pos : forall k : Z, 0 < 2 ^ k.
Proof. intro k. apply Qpower_0_lt. reflexivity. Qed.

Lemma two_pow_succ : forall k : Z, 2 ^ (k + 1) == 2 * 2 ^ k.
Proof.
  intro k. rewrite Qpower_plus by discriminate. rewrite Qpower_1_r. ring.
Qed.

Lemma two_pow_Z : forall n : Z, (0 <= n)%Z -> inject_Z (2 ^ n) == 2 ^ n.
Proof. intros n Hn. now rewrite Zpower_Qpower. Qed.

Lemma Qmake_mult : forall n d, (n # d) * inject_Z (Z.pos d) == inject_Z n.
Proof. intros n d. unfold Qeq, Qmult, inject_Z. simpl. lia. Qed.

Lemma ilog2_spec : forall x : Q,
  0 < x -> 2 ^ ilog2 x <= x /\ x < 2 ^ (ilog2 x + 1).
Proof.
  intros [n d] Hx. unfold ilog2. cbn [Qnum Qden].
  assert (Hn : (0 < n)%Z).
  { unfold Qlt in Hx. simpl in Hx. lia. }
  set (a := Z.log2 n). set (b := Z.log2 (Z.pos d)).
  assert (Ha : (2 ^ a <= n < 2 ^ (a + 1))%Z).
  { pose proof (Z.log2_spec n Hn). unfold a. now rewrite <- Z.add_1_r in H. }
  assert (Hb : (2 ^ b <= Z.pos d < 2 ^ (b + 1))%Z).
  { pose proof (Z.log2_spec (Z.pos d) eq_refl). unfold b. now rewrite <- Z.add_1_r in H. }
  assert (Ha0 : (0 <= a)%Z) by apply Z.log2_nonneg.
  assert (Hb0 : (0 <= b)%Z) by apply Z.log2_nonneg.
  assert (Hna : 2 ^ a <= inject_Z n).
  { rewrite <- two_pow_Z by lia. rewrite <- Zle_Qle. lia. }
  assert (Hna' : inject_Z n < 2 * 2 ^ a).
  { rewrite <- two_pow_succ, <- two_pow_Z by lia. rewrite <- Zlt_Qlt. lia. }
  assert (Hdb : 2 ^ b <= inject_Z (Z.pos d)).
  { rewrite <- two_pow_Z by lia. rewrite <- Zle_Qle. lia. }
  assert (Hdb' : inject_Z (Z.pos d) < 2 * 2 ^ b).
  { rewrite <- two_pow_succ, <- two_pow_Z by lia. rewrite <- Zlt_Qlt. lia. }
  pose proof (Qmake_mult n d) as Hx'.
  assert (HP : 2 ^ (a - b) * 2 ^ b == 2 ^ a).
  { rewrite <- Qpower_plus by discriminate. now replace (a - b + b)%Z with a by lia. }
  pose proof (two_pow_pos (a - b)) as HPpos.
  pose proof (two_pow_pos b) as HBpos.
  pose proof (two_pow_pos a) as HApos.
  set (P := 2 ^ (a - b)) in *. set (A := 2 ^ a) in *. set (B := 2 ^ b) in *.
  set (N := inject_Z n) in *. set (D := inject_Z (Z.pos d)) in *.
  set (x := n # d) in *.
  assert (HD : 0 < D) by reflexivity.
  assert (Hlt : x < 2 * P).
  { apply (Qmult_lt_r _ _ D HD). rewrite Hx'.
    apply Qlt_le_trans with (2 * A); [exact Hna' |].
    rewrite <- HP. rewrite <- !Qmult_assoc. apply Qmult_le_l; [reflexivity |].
    apply Qmult_le_l; assumption. }
  assert (Hgt : P < 2 * x).
  { apply (Qmult_lt_r _ _ D HD). rewrite <- Qmult_assoc, Hx'.
    apply Qlt_le_trans with (2 * A).
    - rewrite <- HP. setoid_replace (2 * (P * B)) with (P * (2 * B)) by ring.
      apply Qmult_lt_l; assumption.
    - apply Qmult_le_l; [reflexivity | exact Hna]. }
  destruct (Qle_bool P x) eqn:E.
  - apply Qle_bool_iff in E. split; [exact E |]. fold P.
    now rewrite two_pow_succ.
  - assert (Hlt' : x < P).
    { apply Qnot_le_lt. intro H. apply Qle_bool_iff in H. congruence. }
    replace (a - b - 1 + 1)%Z with (a - b)%Z by lia. fold P.
    split; [| exact Hlt'].
    assert (HP2 : P == 2 * 2 ^ (a - b - 1)).
    { unfold P. rewrite <- two_pow_succ. now replace (a - b - 1 + 1)%Z with (a - b)%Z by lia. }
    rewrite HP2 in Hgt. lra.
Qed.

Lemma ilog2_mono : forall x y : Q, 0 < x -> x <= y -> (ilog2 x <= ilog2 y)%Z.
Proof.
  intros x y Hx Hxy.
  destruct (ilog2_spec x Hx) as [Hlo _].
  destruct (ilog2_spec y) as [_ Hhi]; [lra |].
  assert (H : 2 ^ ilog2 x < 2 ^ (ilog2 y + 1)) by lra.
  apply Qpower_lt_compat_l_inv in H; [lia | reflexivity].
Qed.



Lemma round_half_even_mono : forall x y : Q,
  x <= y -> (round_half_even x <= round_half_even y)%Z.
Proof.
  intros x y Hxy.
  assert (Hf : (Qfloor x <= Qfloor y)%Z) by now apply Qfloor_resp_le.
  pose proof (Qfloor_le x) as Hlx. pose proof (Qlt_floor x) as Hux.
  pose proof (Qfloor_le y) as Hly. pose proof (Qlt_floor y) as Huy.
  rewrite inject_Z_plus in Hux, Huy. change (inject_Z 1) with 1 in Hux, Huy.
  destruct (Z.eq_dec (Qfloor x) (Qfloor y)) as [Heq | Hne].
  - unfold round_half_even. rewrite <- Heq.
    destruct (Qcompare_spec (x - inject_Z (Qfloor x)) (1 # 2)) as [E1 | E1 | E1];
      destruct (Qcompare_spec (y - inject_Z (Qfloor x)) (1 # 2)) as [E2 | E2 | E2];
      try lia; try (exfalso; lra);
      destruct (Z.even (Qfloor x)); lia.
  - assert (Hx1 : (round_half_even x <= Qfloor x + 1)%Z).
    { unfold round_half_even.
      destruct (Qcompare (x - inject_Z (Qfloor x)) (1 # 2)); try lia.
      destruct (Z.even (Qfloor x)); lia. }
    assert (Hy1 : (Qfloor y <= round_half_even y)%Z).
    { unfold round_half_even.
      destruct (Qcompare (y - inject_Z (Qfloor y)) (1 # 2)); try lia.
      destruct (Z.even (Qfloor y)); lia. }
    lia.
Qed.

Lemma round_half_even_Z : forall z : Z, round_half_even (inject_Z z) = z.
Proof.
  intro z. unfold round_half_even. rewrite Qfloor_Z.
  destruct (Qcompare_spec (inject_Z z - inject_Z z) (1 # 2)) as [E | E | E];
    [exfalso; lra | reflexivity | exfalso; lra].
Qed.

Lemma round_half_even_comp : forall x y : Q, x == y -> round_half_even x = round_half_even y.
Proof.
  intros x y Hxy. apply Z.le_antisymm; apply round_half_even_mono; lra.
Qed.

(** The double nearest to a positive rational. *)
Lemma exponent64_low : forall a : Q, (ilog2 a - 52 <= exponent64 a)%Z /\ (-1074 <= exponent64 a)%Z.
Proof. intro a. unfold exponent64. lia. Qed.



Lemma round64_pos_upper : forall a : Q,
  0 < a -> round64_pos a <= 2 ^ (exponent64 a + 53).
Proof.
  intros a Ha. unfold round64_pos. set (e := exponent64 a).
  destruct (ilog2_spec a Ha) as [_ Hup].
  destruct (exponent64_low a) as [Hlow _]. fold e in Hlow.
  pose proof (two_pow_pos e) as He.
  assert (Hle : 2 ^ (ilog2 a + 1) <= 2 ^ (e + 53)).
  { apply Qpower_le_compat_l; [lia | discriminate]. }
  assert (Hscaled : a / 2 ^ e <= 2 ^ 53).
  { apply Qle_shift_div_r; [exact He |].
    rewrite <- Qpower_plus by discriminate. rewrite Z.add_comm. lra. }
  rewrite <- (two_pow_Z 53) in Hscaled by lia.
  apply round_half_even_mono in Hscaled.
  rewrite round_half_even_Z in Hscaled. rewrite Zle_Qle in Hscaled.
  rewrite (two_pow_Z 53) in Hscaled by lia.
  rewrite (Z.add_comm e 53), Qpower_plus by discriminate.
  apply Qmult_le_compat_r; lra.
Qed.

Lemma round64_pos_lower : forall a : Q,
  0 < a -> exponent64 a = (ilog2 a - 52)%Z -> 2 ^ (exponent64 a + 52) <= round64_pos a.
Proof.
  intros a Ha Hnormal. unfold round64_pos. set (e := exponent64 a) in *.
  destruct (ilog2_spec a Ha) as [Hlo _].
  pose proof (two_pow_pos e) as He.
  assert (Hscaled : 2 ^ 52 <= a / 2 ^ e).
  { apply Qle_shift_div_l; [exact He |].
    rewrite <- Qpower_plus by discriminate.
    replace (52 + e)%Z with (ilog2 a) by lia. exact Hlo. }
  rewrite <- (two_pow_Z 52) in Hscaled by lia.
  apply round_half_even_mono in Hscaled.
  rewrite round_half_even_Z in Hscaled. rewrite Zle_Qle in Hscaled.
  rewrite (two_pow_Z 52) in Hscaled by lia.
  rewrite (Z.add_comm e 52), Qpower_plus by discriminate.
  apply Qmult_le_compat_r; lra.
Qed.

Lemma round64_pos_nonneg : forall a : Q, 0 < a -> 0 <= round64_pos a.
Proof.
  intros a Ha. unfold round64_pos. set (e := exponent64 a).
  pose proof (two_pow_pos e) as He.
  assert (Hscaled : inject_Z 0 <= a / 2 ^ e).
  { apply Qle_shift_div_l; [exact He |]. change (inject_Z 0) with 0. lra. }
  apply round_half_even_mono in Hscaled. rewrite round_half_even_Z in Hscaled.
  rewrite Zle_Qle in Hscaled. change (inject_Z 0) with 0 in Hscaled.
  apply Qmult_le_0_compat; lra.
Qed.

Lemma round64_pos_mono : forall a b : Q,
  0 < a -> a <= b -> round64_pos a <= round64_pos b.
Proof.
  intros a b Ha Hab.
  assert (Hb : 0 < b) by lra.
  assert (Hlog : (ilog2 a <= ilog2 b)%Z) by now apply ilog2_mono.
  assert (He : (exponent64 a <= exponent64 b)%Z) by (unfold exponent64; lia).
  destruct (Z.eq_dec (exponent64 a) (exponent64 b)) as [Heq | Hne].
  - unfold round64_pos. rewrite Heq. set (e := exponent64 b).
    pose proof (two_pow_pos e) as Hp.
    assert (Hscaled : a / 2 ^ e <= b / 2 ^ e).
    { unfold Qdiv. apply Qmult_le_compat_r; [exact Hab |].
      apply Qlt_le_weak. now apply Qinv_lt_0_compat. }
    apply round_half_even_mono in Hscaled. rewrite Zle_Qle in Hscaled.
    apply Qmult_le_compat_r; lra.
  - assert (Hnormal : exponent64 b = (ilog2 b - 52)%Z).
    { destruct (exponent64_low a) as [_ Hmin]. unfold exponent64 in *. lia. }
    pose proof (round64_pos_upper a Ha) as Hup.
    pose proof (round64_pos_lower b Hb Hnormal) as Hlo.
    assert (Hpow : 2 ^ (exponent64 a + 53) <= 2 ^ (exponent64 b + 52)).
    { apply Qpower_le_compat_l; [lia | discriminate]. }
    lra.
Qed.

(** The double nearest to a rational. *)
Lemma round64_cases : forall x : Q,
  (0 < x -> round64 x == round64_pos x) /\
  (x < 0 -> round64 x == - round64_pos (- x)) /\
  (x == 0 -> round64 x == 0).
Proof.
  intros [n d]. unfold round64. cbn [Qnum]. destruct n as [| p | p].
  - repeat split; intro H; try reflexivity; exfalso; revert H; apply Qlt_irrefl.
  - repeat split; intro H; try apply Qred_correct; discriminate H.
  - repeat split; intro H; try apply Qred_correct; discriminate H.
Qed.

Lemma round64_nonneg : forall x : Q, 0 <= x -> 0 <= round64 x.
Proof.
  intros x Hx. destruct (round64_cases x) as (Hpos & _ & Hzero).
  destruct (Qlt_le_dec 0 x) as [H | H].
  - rewrite (Hpos H). now apply round64_pos_nonneg.
  - rewrite Hzero; [apply Qle_refl | lra].
Qed.

Lemma round64_nonpos : forall x : Q, x <= 0 -> round64 x <= 0.
Proof.
  intros x Hx. destruct (round64_cases x) as (_ & Hneg & Hzero).
  destruct (Qlt_le_dec x 0) as [H | H].
  - rewrite (Hneg H).
    assert (0 <= round64_pos (- x)) by (apply round64_pos_nonneg; lra). lra.
  - rewrite Hzero; [apply Qle_refl | lra].
Qed.

Lemma round64_monotone : forall x y : Q, x <= y -> round64 x <= round64 y.
Proof.
  intros x y Hxy.
  destruct (round64_cases x) as (Hxpos & Hxneg & _).
  destruct (round64_cases y) as (Hypos & Hyneg & _).
  destruct (Qlt_le_dec 0 x) as [Hx | Hx].
  - rewrite (Hxpos Hx), Hypos by lra. now apply round64_pos_mono.
  - destruct (Qlt_le_dec y 0) as [Hy | Hy].
    + rewrite (Hyneg Hy), Hxneg by lra.
      assert (round64_pos (- y) <= round64_pos (- x)) by (apply round64_pos_mono; lra).
      lra.
    + apply Qle_trans with 0; [now apply round64_nonpos | now apply round64_nonneg].
Qed.

Lemma round64_comp : forall x y : Q, x == y -> round64 x == round64 y.
Proof.
  intros x y Hxy. apply Qle_antisym; apply round64_monotone; lra.
Qed.


End DoubleFacts.

(** ** Stable sort by a numeric key, highest first *)

Section SortFacts.
Variable A : Type.
Variable key : A -> Q.

Lemma descending_le_0 : forall a b : A,
  Qle_bool (descending key a b) 0 = true <-> (key b <= key a)%Q.
Proof.
  intros a b. unfold descending. rewrite Qle_bool_iff. split; intro H; lra.
Qed.

Lemma insert_sorted_perm : forall (cmp : A -> A -> Q) x l,
  Permutation (x :: l) (JS.insert_sorted cmp x l).
Proof.
  intros cmp x l. induction l as [| y l IH]; simpl.
  - apply Permutation_refl.
  - destruct (Qle_bool (cmp x y) 0).
    + apply Permutation_refl.
    + eapply Permutation_trans; [apply perm_swap |].
      now apply perm_skip.
Qed.

Lemma sort_perm : forall (cmp : A -> A -> Q) l, Permutation l (JS.sort cmp l).
Proof.
  intros cmp. induction l as [| x l IH]; simpl.
  - apply perm_nil.
  - eapply Permutation_trans; [| apply insert_sorted_perm].
    now apply perm_skip.
Qed.

Lemma insert_sorted_sorted : forall x l,
  StronglySorted (fun a b => (key b <= key a)%Q) l ->
  StronglySorted (fun a b => (key b <= key a)%Q) (JS.insert_sorted (descending key) x l).
Proof.
  intros x l. induction l as [| y l IH]; intro Hs; simpl.
  - repeat constructor.
  - inversion Hs as [| y' l' Hl Hy]; subst.
    destruct (Qle_bool (descending key x y) 0) eqn:E.
    + apply descending_le_0 in E. constructor; [exact Hs |].
      constructor; [exact E |].
      eapply Forall_impl; [| exact Hy].
      intros z Hz. simpl in *. eapply Qle_trans; eassumption.
    + assert (Hlt : (key x <= key y)%Q).
      { destruct (Qlt_le_dec (key x) (key y)) as [Hlt | Hge].
        - now apply Qlt_le_weak.
        - apply descending_le_0 in Hge. congruence. }
      constructor; [now apply IH |].
      eapply Permutation_Forall; [apply insert_sorted_perm |].
      constructor; assumption.
Qed.

Lemma sort_sorted : forall l,
  StronglySorted (fun a b => (key b <= key a)%Q) (JS.sort (descending key) l).
Proof.
  induction l as [| x l IH]; simpl.
  - constructor.
  - now apply insert_sorted_sorted.
Qed.

(** The sort is stable: the elements of one key keep their order. *)
Lemma insert_sorted_stable : forall (q : Q) x l,
  filter (fun a => Qeq_bool (key a) q) (JS.insert_sorted (descending key) x l) =
  filter (fun a => Qeq_bool (key a) q) (x :: l).
Proof.
  intros q x l. induction l as [| y l IH]; [reflexivity |].
  cbn [JS.insert_sorted].
  destruct (Qle_bool (descending key x y) 0) eqn:E; [reflexivity |].
  cbn [filter] in *. rewrite IH.
  destruct (Qeq_bool (key x) q) eqn:Ex; destruct (Qeq_bool (key y) q) eqn:Ey;
    try reflexivity.
  apply Qeq_bool_iff in Ex, Ey. exfalso.
  assert (Hle : Qle_bool (descending key x y) 0 = true)
    by (apply descending_le_0; lra).
  congruence.
Qed.

Lemma sort_stable : forall (q : Q) l,
  filter (fun a => Qeq_bool (key a) q) (JS.sort (descending key) l) =
  filter (fun a => Qeq_bool (key a) q) l.
Proof.
  intros q. induction l as [| x l IH]; [reflexivity |].
  cbn [JS.sort]. rewrite insert_sorted_stable. cbn [filter]. now rewrite IH.
Qed.

End SortFacts.

(** ** Insertion-ordered maps *)

Section MapFacts.
Variable V : Type.
Implicit Types (m : JsMap.t V) (k : string) (v : V).

Lemma get_none_not_key : forall k m, JsMap.get k m = None -> ~ In k (JsMap.keys m).
Proof.
  intros k m. induction m as [| [k' v'] m IH]; simpl; intros Hg Hin.
  - exact Hin.
  - destruct (String.eqb_spec k k') as [-> | Hne]; [discriminate |].
    destruct Hin as [Heq | Hin]; [now symmetry in Heq | now apply IH].
Qed.

Lemma key_get_some : forall k m, In k (JsMap.keys m) -> exists v, JsMap.get k m = Some v.
Proof.
  intros k m Hin. destruct (JsMap.get k m) as [v |] eqn:E.
  - now exists v.
  - now apply get_none_not_key in E.
Qed.

Lemma set_absent : forall k v m, JsMap.get k m = None -> JsMap.set k v m = m ++ [(k, v)].
Proof.
  intros k v m. induction m as [| [k' v'] m IH]; simpl; intro Hg.
  - reflexivity.
  - destruct (String.eqb k k'); [discriminate |]. now rewrite IH.
Qed.

(** Setting a key that is present replaces its entry in place. *)
Lemma set_present : forall k v v0 m,
  JsMap.get k m = Some v0 ->
  exists m1 m2, m = m1 ++ (k, v0) :: m2 /\ JsMap.set k v m = m1 ++ (k, v) :: m2.
Proof.
  intros k v v0 m. induction m as [| [k' v'] m IH]; simpl; intro Hg.
  - discriminate.
  - destruct (String.eqb_spec k k') as [-> | Hne].
    + injection Hg as ->. now exists [], m.
    + destruct (IH Hg) as (m1 & m2 & -> & ->). now exists ((k', v') :: m1), m2.
Qed.

End MapFacts.

(** ** The line matcher *)

Module LineMatcherFacts.

Import LineMatcher.

Lemma well_kept_empty : well_kept [] [].
Proof.
  repeat split; simpl; try contradiction. constructor.
Qed.

Lemma keys_app : forall (m1 m2 : JsMap.t Match),
  JsMap.keys (m1 ++ m2) = JsMap.keys m1 ++ JsMap.keys m2.
Proof. intros. unfold JsMap.keys. apply map_app. Qed.

Lemma dedup_step_kept : forall seen m x,
  well_kept seen m -> well_kept (seen ++ [x]) (dedup_step m x).
Proof.
  intros seen m x (Hnd & Hent & Hall). unfold dedup_step, JsMap.has.
  destruct (JsMap.get (ID x) m) as [existing |] eqn:Hget; simpl.
  - (* the id is present *)
    destruct (@set_present _ (ID x) x existing m Hget) as (m1 & m2 & Hm & Hset).
    assert (Hex : In (ID x, existing) m) by (rewrite Hm; apply in_elt).
    destruct (Hent _ _ Hex) as (_ & Hseen & Hmax).
    assert (Huniq : forall v, In (ID x, v) m -> v = existing).
    { intros v Hv. rewrite Hm in Hnd, Hv. rewrite keys_app in Hnd. simpl in Hnd.
      apply NoDup_remove_2 in Hnd.
      apply in_app_or in Hv as [Hv | [Hv | Hv]].
      - exfalso. apply Hnd, in_or_app. left. now apply (in_map fst) in Hv.
      - now injection Hv.
      - exfalso. apply Hnd, in_or_app. right. now apply (in_map fst) in Hv. }
    destruct (Qle_bool (confidence x) (confidence existing)) eqn:Hle; simpl.
    + (* kept as it is *)
      apply Qle_bool_iff in Hle. split; [exact Hnd | split].
      * intros k v Hkv. destruct (Hent k v Hkv) as (Hid & Hin & Hmx).
        split; [exact Hid | split; [apply in_or_app; now left |]].
        intros y Hy Hyk. apply in_app_or in Hy as [Hy | [<- | []]].
        -- now apply Hmx.
        -- rewrite <- Hyk in Hkv. now rewrite (Huniq v Hkv).
      * intros y Hy. apply in_app_or in Hy as [Hy | [<- | []]].
        -- now apply Hall.
        -- rewrite Hm, keys_app. apply in_or_app. right. now left.
    + (* replaced by the new candidate *)
      assert (Hlt : (confidence existing < confidence x)%Q).
      { apply Qnot_le_lt. intro Hc. apply Qle_bool_iff in Hc. congruence. }
      assert (Hold : forall k v, In (k, v) (m1 ++ (ID x, x) :: m2) ->
                (k = ID x /\ v = x) \/ (k <> ID x /\ In (k, v) m)).
      { intros k v Hkv. rewrite Hm. rewrite Hm, keys_app in Hnd. simpl in Hnd.
        apply NoDup_remove_2 in Hnd.
        apply in_app_or in Hkv as [Hkv | [Hkv | Hkv]].
        - right. split; [| apply in_or_app; now left].
          intros ->. apply Hnd, in_or_app. left. now apply (in_map fst) in Hkv.
        - left. now injection Hkv as <- <-.
        - right. split; [| apply in_or_app; right; now right].
          intros ->. apply Hnd, in_or_app. right. now apply (in_map fst) in Hkv. }
      rewrite Hset. split; [| split].
      * rewrite Hm in Hnd. rewrite keys_app in *. exact Hnd.
      * intros k v Hkv. destruct (Hold k v Hkv) as [[-> ->] | [Hk Hkv']].
        -- split; [reflexivity | split; [apply in_or_app; right; now left |]].
           intros y Hy Hyk. apply in_app_or in Hy as [Hy | [<- | []]]; [| apply Qle_refl].
           apply Qle_trans with (confidence existing); [| now apply Qlt_le_weak].
           now apply Hmax.
        -- destruct (Hent k v Hkv') as (Hid & Hin & Hmx).
           split; [exact Hid | split; [apply in_or_app; now left |]].
           intros y Hy Hyk. apply in_app_or in Hy as [Hy | [<- | []]]; [| congruence].
           now apply Hmx.
      * intros y Hy. rewrite keys_app. simpl.
        apply in_app_or in Hy as [Hy | [<- | []]].
        -- specialize (Hall y Hy). rewrite Hm, keys_app in Hall. exact Hall.
        -- apply in_or_app. right. now left.
  - (* a new id *)
    pose proof (@get_none_not_key _ (ID x) m Hget) as Hnew.
    rewrite set_absent by exact Hget. split; [| split].
    + rewrite keys_app. simpl. apply NoDup_app; [exact Hnd | repeat constructor; auto |].
      intros k Hk [<- | []]. contradiction.
    + intros k v Hkv. apply in_app_or in Hkv as [Hkv | [Hkv | []]].
      * destruct (Hent k v Hkv) as (Hid & Hin & Hmx).
        split; [exact Hid | split; [apply in_or_app; now left |]].
        intros y Hy Hyk. apply in_app_or in Hy as [Hy | [<- | []]].
        -- now apply Hmx.
        -- exfalso. apply Hnew. rewrite Hyk. now apply (in_map fst) in Hkv.
      * injection Hkv as <- <-.
        split; [reflexivity | split; [apply in_or_app; right; now left |]].
        intros y Hy Hyk. apply in_app_or in Hy as [Hy | [<- | []]]; [| apply Qle_refl].
        exfalso. apply Hnew. rewrite <- Hyk. now apply Hall.
    + intros y Hy. rewrite keys_app. simpl. apply in_or_app.
      apply in_app_or in Hy as [Hy | [<- | []]].
      * left. now apply Hall.
      * right. now left.
Qed.

Lemma dedup_fold_kept : forall rest seen m,
  well_kept seen m -> well_kept (seen ++ rest) (fold_left dedup_step rest m).
Proof.
  induction rest as [| x rest IH]; intros seen m Hk; simpl.
  - now rewrite app_nil_r.
  - replace (seen ++ x :: rest) with ((seen ++ [x]) ++ rest)
      by (now rewrite <- app_assoc).
    apply IH. now apply dedup_step_kept.
Qed.

Lemma dedup_kept : forall matches,
  well_kept matches (fold_left dedup_step matches []).
Proof.
  intro matches. apply (dedup_fold_kept matches well_kept_empty).
Qed.

End LineMatcherFacts.

Module LineMatcherProperties.

Import LineMatcher LineMatcherFacts.

Lemma dedup_ids_unique : forall matches, NoDup (map ID (deduplicateMatches matches)).
Proof.
  intro matches. destruct (dedup_kept matches) as (Hnd & Hent & _).
  unfold deduplicateMatches, JsMap.values.
  replace (map ID (map snd (fold_left dedup_step matches [])))
    with (JsMap.keys (fold_left dedup_step matches [])); [exact Hnd |].
  unfold JsMap.keys. rewrite map_map. apply map_ext_in.
  intros [k v] Hin. simpl. symmetry. now apply (Hent k v).
Qed.

Lemma NoDup_map_filter : forall (A B : Type) (f : A -> B) (p : A -> bool) (l : list A),
  NoDup (map f l) -> NoDup (map f (filter p l)).
Proof.
  intros A B f p l. induction l as [| x l IH]; simpl; intro Hnd.
  - constructor.
  - inversion Hnd as [| y l' Hnot Hrest]; subst.
    destruct (p x); simpl; [constructor |]; auto.
    intro Hin. apply Hnot. apply in_map_iff in Hin as (z & Hz & Hzin).
    apply in_map_iff. exists z. split; [exact Hz |].
    now apply filter_In in Hzin.
Qed.

Lemma merge_and_rank_invariants : forall fuzzy vector openai,
  let ms := merge_and_rank fuzzy vector openai in
  Forall (fun m => (85 <= confidence m)%Q) ms /\
  NoDup (map ID ms) /\
  StronglySorted (fun a b => (confidence b <= confidence a)%Q) ms.
Proof.
  intros fuzzy vector openai ms. unfold ms, merge_and_rank.
  set (unique := deduplicateMatches (fuzzy ++ vector ++ openai)).
  set (kept := filter (fun m => Qle_bool MIN_CONFIDENCE (confidence m)) unique).
  pose proof (sort_perm (descending confidence) kept) as Hperm.
  split; [| split].
  - eapply Permutation_Forall; [exact Hperm |].
    apply Forall_forall. intros m Hm. apply filter_In in Hm as [_ Hm].
    now apply Qle_bool_iff in Hm.
  - eapply Permutation_NoDup; [apply Permutation_map; exact Hperm |].
    apply NoDup_map_filter. apply dedup_ids_unique.
  - apply (sort_sorted confidence).
Qed.

(** The merge keeps the keys of its map in the order in which it saw the
    ids first: a candidate that replaces another takes its place. *)
Lemma dedup_step_keys : forall (m : JsMap.t Match) x,
  JsMap.keys (dedup_step m x) =
  if JsMap.has (ID x) m then JsMap.keys m else JsMap.keys m ++ [ID x].
Proof.
  intros m x. unfold dedup_step, JsMap.has.
  destruct (JsMap.get (ID x) m) as [existing |] eqn:Hget; cbn [negb].
  - destruct (Qle_bool (confidence x) (confidence existing)); cbn [negb];
      [reflexivity |].
    destruct (@set_present _ (ID x) x existing m Hget) as (m1 & m2 & Hm & ->).
    rewrite Hm, !keys_app. reflexivity.
  - rewrite set_absent by exact Hget. rewrite keys_app. reflexivity.
Qed.

Lemma has_mem : forall (m : JsMap.t Match) k,
  JsMap.has k m = existsb (String.eqb k) (JsMap.keys m).
Proof.
  intros m k. unfold JsMap.has. induction m as [| [k' v] m IH]; simpl; [reflexivity |].
  destruct (String.eqb k k'); [reflexivity | exact IH].
Qed.

Lemma filter_twice : forall (A : Type) (p q : A -> bool) (l : list A),
  filter p (filter q l) = filter (fun x => q x && p x) l.
Proof.
  intros A p q l. induction l as [| x l IH]; simpl; [reflexivity |].
  destruct (q x); simpl; [destruct (p x) |]; now rewrite IH.
Qed.

Lemma filter_of_map : forall (A B : Type) (f : A -> B) (p : B -> bool) (l : list A),
  filter p (map f l) = map f (filter (fun x => p (f x)) l).
Proof.
  intros A B f p l. induction l as [| x l IH]; simpl; [reflexivity |].
  destruct (p (f x)); simpl; now rewrite IH.
Qed.

Lemma NoDup_map_same : forall (A B : Type) (f : A -> B) (l : list A) a b,
  NoDup (map f l) -> In a l -> In b l -> f a = f b -> a = b.
Proof.
  intros A B f l a b. induction l as [| x l IH]; simpl; intros Hnd Ha Hb Hf.
  - contradiction.
  - inversion Hnd as [| y l' Hnot Hrest]; subst.
    destruct Ha as [-> | Ha], Hb as [-> | Hb]; auto.
    + exfalso. apply Hnot. rewrite Hf. now apply in_map.
    + exfalso. apply Hnot. rewrite <- Hf. now apply in_map.
Qed.

Lemma dedup_fold_keys : forall (l : list Match) (acc : JsMap.t Match),
  JsMap.keys (fold_left dedup_step l acc) =
  JsMap.keys acc ++
  filter (fun id => negb (existsb (String.eqb id) (JsMap.keys acc)))
    (first_seen (map ID l)).
Proof.
  induction l as [| x l IH]; intro acc; simpl.
  - now rewrite app_nil_r.
  - rewrite IH, dedup_step_keys, has_mem.
    destruct (existsb (String.eqb (ID x)) (JsMap.keys acc)) eqn:Hmem; cbn [negb].
    + f_equal. rewrite filter_twice. apply filter_ext. intro id.
      destruct (String.eqb_spec id (ID x)) as [-> | _]; [| reflexivity].
      now rewrite Hmem.
    + rewrite <- app_assoc. cbn [app]. f_equal. f_equal.
      rewrite filter_twice. apply filter_ext. intro id.
      rewrite existsb_app. cbn [existsb].
      destruct (String.eqb id (ID x)), (existsb (String.eqb id) (JsMap.keys acc));
        reflexivity.
Qed.

Lemma dedup_ids_first_seen : forall matches,
  map ID (deduplicateMatches matches) = first_seen (map ID matches).
Proof.
  intro matches. destruct (dedup_kept matches) as (_ & Hent & _).
  unfold deduplicateMatches, JsMap.values.
  transitivity (JsMap.keys (fold_left dedup_step matches [])).
  - unfold JsMap.keys. rewrite map_map. apply map_ext_in.
    intros [k v] Hin. simpl. now apply (Hent k v).
  - rewrite dedup_fold_keys. cbn [JsMap.keys map app existsb negb].
    clear. induction (first_seen (map ID matches)) as [| x l IH]; simpl; congruence.
Qed.

(** X2. The ranking is stable on first-seen order.  The merge lists the
    ids in the order in which the candidates (fuzzy, then vector, then
    OpenAI) show them first, a candidate that replaces another of its id
    keeping the place; the sort keeps the candidates of one confidence in
    that order; so the ids of the ranked candidates of one confidence are
    those ids in the order in which the candidates show them first. *)
Theorem merge_and_rank_stable : forall fuzzy vector openai,
  let candidates := fuzzy ++ vector ++ openai in
  let ranked := merge_and_rank fuzzy vector openai in
  map ID (deduplicateMatches candidates) = first_seen (map ID candidates) /\
  forall q : Q,
    filter (fun m => Qeq_bool (confidence m) q) ranked =
    filter (fun m => Qeq_bool (confidence m) q)
      (filter (fun m => Qle_bool MIN_CONFIDENCE (confidence m))
         (deduplicateMatches candidates)) /\
    map ID (filter (fun m => Qeq_bool (confidence m) q) ranked) =
    filter (fun id =>
              existsb (fun m => String.eqb (ID m) id && Qeq_bool (confidence m) q) ranked)
      (first_seen (map ID candidates)).
Proof.
  intros fuzzy vector openai candidates ranked.
  pose proof (dedup_ids_first_seen candidates) as Hfirst.
  split; [exact Hfirst |]. intro q.
  assert (Hstable :
            filter (fun m => Qeq_bool (confidence m) q) ranked =
            filter (fun m => Qeq_bool (confidence m) q)
              (filter (fun m => Qle_bool MIN_CONFIDENCE (confidence m))
                 (deduplicateMatches candidates)))
    by (unfold ranked, merge_and_rank; apply sort_stable).
  split; [exact Hstable |].
  rewrite Hstable, <- Hfirst, filter_of_map, filter_twice. f_equal.
  apply filter_ext_in. intros m Hm.
  assert (Hperm : Permutation
            (filter (fun m => Qle_bool MIN_CONFIDENCE (confidence m))
               (deduplicateMatches candidates)) ranked)
    by apply sort_perm.
  destruct (existsb _ ranked) eqn:Hex.
  - apply existsb_exists in Hex as (m' & Hin & Hm').
    apply andb_true_iff in Hm' as [Hid Hq]. apply String.eqb_eq in Hid.
    apply (Permutation_in _ (Permutation_sym Hperm)) in Hin.
    apply filter_In in Hin as [Hin Hge].
    assert (m' = m)
      by (apply (@NoDup_map_same _ _ ID _ m' m (dedup_ids_unique candidates) Hin Hm Hid)).
    subst m'. now rewrite Hge, Hq.
  - destruct (Qle_bool MIN_CONFIDENCE (confidence m)) eqn:Hge; [| reflexivity].
    destruct (Qeq_bool (confidence m) q) eqn:Hq; [| reflexivity].
    exfalso. assert (Hin : In m ranked).
    { apply (Permutation_in _ Hperm). apply filter_In. now split. }
    assert (Htrue : existsb
              (fun m0 => String.eqb (ID m0) (ID m) && Qeq_bool (confidence m0) q)
              ranked = true).
    { apply existsb_exists. exists m. split; [exact Hin |].
      now rewrite String.eqb_refl, Hq. }
    congruence.
Qed.

(** The record h-1 is found at 85 by the fuzzy strategy, before h-2 at
    90, and at 90 by the OpenAI strategy: its better candidate, seen last,
    is ranked before h-2, in the place of the first. *)
Example replaced_candidate_keeps_its_place :
  let fuzzy := map fuzzy_candidate
                 [Samples.sample_row "h-1" Samples.acme_line (literal 5 7);
                  Samples.sample_row "h-2" Samples.acme_line (literal 6 7)] in
  let openai := map openai_candidate
                  [Samples.sample_row "h-1" Samples.acme_line (literal 6 7)] in
  map (fun m => (ID m, matchStrategy m, confidence m)) (fuzzy ++ openai)
  = [("h-1"%string, FUZZY_TEXT, 85%Q); ("h-2"%string, FUZZY_TEXT, 90%Q);
     ("h-1"%string, OPENAI_EMBEDDING, 90%Q)] /\
  map (fun m => (ID m, matchStrategy m, confidence m)) (merge_and_rank fuzzy [] openai)
  = [("h-1"%string, OPENAI_EMBEDDING, 90%Q); ("h-2"%string, FUZZY_TEXT, 90%Q)] /\
  first_seen (map ID (fuzzy ++ openai)) = ["h-1"; "h-2"]%string.
Proof. repeat split; vm_compute; reflexivity. Qed.

Lemma handled : forall c : completion (list Match),
  try_catch c (fun _ => Value []) = Value (results_of c).
Proof. now intros [ms | e]. Qed.

(** What [searchLine] returns once the connection is there. *)
Lemma searchLine_connected : forall db env lineText,
  searchLine (Value db) env lineText =
  Value (if too_short lineText then []
         else merge_and_rank
                (results_of (fuzzySearch db (or_empty lineText)))
                (results_of (vectorSearch db (or_empty lineText)))
                (results_of (openaiEmbeddingSearch env db (or_empty lineText)))).
Proof.
  intros db env lineText. unfold searchLine.
  destruct (too_short lineText); [reflexivity |].
  simpl. now rewrite !handled.
Qed.

(** C1. Whatever the line and the backends, the list [searchLine] returns
    holds no candidate with a confidence below 85 and no two candidates
    with the same ID, and it is sorted by confidence, highest first. *)
Theorem searchLine_output_invariants : forall connect env lineText ms,
  searchLine connect env lineText = Value ms ->
  Forall (fun m => (85 <= confidence m)%Q) ms /\
  NoDup (map ID ms) /\
  StronglySorted (fun a b => (confidence b <= confidence a)%Q) ms.
Proof.
  intros [db | e] env lineText ms Hrun.
  - rewrite searchLine_connected in Hrun. injection Hrun as <-.
    destruct (too_short lineText).
    + repeat constructor.
    + apply merge_and_rank_invariants.
  - unfold searchLine in Hrun. destruct (too_short lineText).
    + injection Hrun as <-. repeat constructor.
    + discriminate.
Qed.

Lemma searchLine_output_invariants_witness :
  exists ms,
    searchLine (Value Samples.db_vector_down) None (Some Samples.acme_line) = Value ms /\
    List.length ms = 3 /\
    Forall (fun m => (85 <= confidence m)%Q) ms /\
    NoDup (map ID ms) /\
    StronglySorted (fun a b => (confidence b <= confidence a)%Q) ms.
Proof.
  eexists. split; [vm_compute; reflexivity |]. split; [reflexivity |].
  apply (@searchLine_output_invariants (Value Samples.db_vector_down) None
           (Some Samples.acme_line)).
  vm_compute. reflexivity.
Defined.

Lemma filter_other_id : forall (l : list Match) id,
  ~ In id (map ID l) -> filter (fun m => String.eqb (ID m) id) l = [].
Proof.
  induction l as [| a l IH]; simpl; intros id Hnot; [reflexivity |].
  destruct (String.eqb_spec (ID a) id) as [Heq | _].
  - exfalso. apply Hnot. now left.
  - apply IH. intro Hin. apply Hnot. now right.
Qed.

Lemma filter_own_id : forall (l : list Match) b,
  NoDup (map ID l) -> In b l -> filter (fun m => String.eqb (ID m) (ID b)) l = [b].
Proof.
  induction l as [| a l IH]; simpl; intros b Hnd Hin; [contradiction |].
  inversion Hnd as [| i l' Hnot Hrest]; subst.
  destruct Hin as [-> | Hin].
  - rewrite String.eqb_refl. now rewrite filter_other_id.
  - destruct (String.eqb_spec (ID a) (ID b)) as [Heq | _].
    + exfalso. apply Hnot. rewrite Heq. now apply in_map.
    + now apply IH.
Qed.

(** C5. The merge keeps, for an id that several candidates carry, exactly
    one entry: a candidate with that id whose confidence no other candidate
    with that id exceeds.  For one id reported at 90, 70 and 95, the output
    of the merge and of the whole ranking is the one entry at 95. *)
Theorem dedup_keeps_highest_confidence :
  (forall matches x, In x matches ->
     exists best,
       filter (fun m => String.eqb (ID m) (ID x)) (deduplicateMatches matches) = [best] /\
       In best matches /\ ID best = ID x /\
       forall y, In y matches -> ID y = ID x -> (confidence y <= confidence best)%Q)
  /\
  (forall a b c, ID b = ID a -> ID c = ID a ->
     (confidence a == 90)%Q -> (confidence b == 70)%Q -> (confidence c == 95)%Q ->
     deduplicateMatches [a; b; c] = [c] /\ merge_and_rank [a] [b] [c] = [c]).
Proof.
  split.
  - intros matches x Hx.
    destruct (dedup_kept matches) as (Hnd & Hent & Hall).
    destruct (@key_get_some _ (ID x) _ (Hall x Hx)) as (best & Hget).
    assert (Hin : In (ID x, best) (fold_left dedup_step matches [])).
    { clear - Hget. induction (fold_left dedup_step matches []) as [| [k v] m IH];
        simpl in *; [discriminate |].
      destruct (String.eqb_spec (ID x) k) as [<- | _].
      - injection Hget as ->. now left.
      - right. now apply IH. }
    destruct (Hent _ _ Hin) as (Hid & Hseen & Hmax).
    exists best. split; [| split; [exact Hseen | split; [exact Hid | exact Hmax]]].
    rewrite <- Hid. apply filter_own_id; [apply dedup_ids_unique |].
    unfold deduplicateMatches, JsMap.values. now apply (in_map snd) in Hin.
  - intros a b c Hb Hc Ha90 Hb70 Hc95.
    assert (Hdedup : deduplicateMatches [a; b; c] = [c]).
    { unfold deduplicateMatches. simpl. unfold dedup_step at 3. simpl.
      unfold dedup_step at 2. unfold JsMap.has. simpl.
      rewrite Hb, String.eqb_refl. simpl.
      assert (Hba : Qle_bool (confidence b) (confidence a) = true)
        by (apply Qle_bool_iff; lra).
      rewrite Hba. simpl.
      unfold dedup_step, JsMap.has. simpl.
      rewrite Hc, String.eqb_refl. simpl.
      destruct (Qle_bool (confidence c) (confidence a)) eqn:Hca.
      - apply Qle_bool_iff in Hca. lra.
      - reflexivity. }
    split; [exact Hdedup |].
    unfold merge_and_rank. simpl app. rewrite Hdedup. simpl.
    assert (Hkeep : Qle_bool MIN_CONFIDENCE (confidence c) = true)
      by (apply Qle_bool_iff; unfold MIN_CONFIDENCE; lra).
    now rewrite Hkeep.
Qed.

Lemma dedup_keeps_highest_confidence_witness :
  (exists best,
     filter (fun m => String.eqb (ID m) "h-2") (deduplicateMatches Samples.found_twice)
     = [best] /\
     In best Samples.found_twice /\ ID best = "h-2"%string /\
     forall y, In y Samples.found_twice -> ID y = "h-2"%string ->
               (confidence y <= confidence best)%Q)
  /\
  deduplicateMatches [Samples.at_90; Samples.at_70; Samples.at_95] = [Samples.at_95] /\
  merge_and_rank [Samples.at_90] [Samples.at_70] [Samples.at_95] = [Samples.at_95].
Proof.
  split.
  - apply (proj1 dedup_keeps_highest_confidence Samples.found_twice
             (openai_candidate (Samples.sample_row "h-2" "BO1:ACME" 1))).
    vm_compute. right. right. left. reflexivity.
  - apply (proj2 dedup_keeps_highest_confidence
             Samples.at_90 Samples.at_70 Samples.at_95);
      vm_compute; reflexivity.
Defined.

(** A strategy whose statement fails hands nothing to the merge. *)
(** The best candidate of an id is kept by the merge. *)
Lemma dedup_best_kept : forall matches x,
  In x matches ->
  exists best,
    In best (deduplicateMatches matches) /\ ID best = ID x /\
    (confidence x <= confidence best)%Q.
Proof.
  intros matches x Hx.
  destruct (dedup_kept matches) as (Hnd & Hent & Hall).
  destruct (@key_get_some _ (ID x) _ (Hall x Hx)) as (best & Hget).
  assert (Hin : In (ID x, best) (fold_left dedup_step matches [])).
  { clear - Hget. induction (fold_left dedup_step matches []) as [| [k v] m IH];
      simpl in *; [discriminate |].
    destruct (String.eqb_spec (ID x) k) as [<- | _].
    - injection Hget as ->. now left.
    - right. now apply IH. }
  destruct (Hent _ _ Hin) as (Hid & _ & Hmax).
  exists best. split; [| split; [exact Hid | now apply Hmax]].
  unfold deduplicateMatches, JsMap.values. now apply (in_map snd) in Hin.
Qed.

Lemma dedup_subset : forall matches m,
  In m (deduplicateMatches matches) -> In m matches.
Proof.
  intros matches m Hin. destruct (dedup_kept matches) as (_ & Hent & _).
  unfold deduplicateMatches, JsMap.values in Hin.
  apply in_map_iff in Hin as ([k v] & <- & Hkv). now apply (Hent k v).
Qed.

(** What the ranking keeps of the candidates. *)
Lemma merge_and_rank_candidates : forall fuzzy vector openai,
  (forall m, In m (merge_and_rank fuzzy vector openai) ->
     In m (fuzzy ++ vector ++ openai)) /\
  (forall x, In x (fuzzy ++ vector ++ openai) -> (85 <= confidence x)%Q ->
     exists m, In m (merge_and_rank fuzzy vector openai) /\ ID m = ID x /\
               (confidence x <= confidence m)%Q).
Proof.
  intros fuzzy vector openai.
  assert (Hperm : Permutation
            (filter (fun m => Qle_bool MIN_CONFIDENCE (confidence m))
               (deduplicateMatches (fuzzy ++ vector ++ openai)))
            (merge_and_rank fuzzy vector openai))
    by apply sort_perm.
  split.
  - intros m Hm. apply (Permutation_in _ (Permutation_sym Hperm)) in Hm.
    apply filter_In in Hm as [Hm _]. now apply dedup_subset.
  - intros x Hx Hconf.
    destruct (dedup_best_kept _ _ Hx) as (best & Hbest & Hid & Hle).
    exists best. split; [| split; [exact Hid | exact Hle]].
    apply (Permutation_in _ Hperm). apply filter_In. split; [exact Hbest |].
    apply Qle_bool_iff. unfold MIN_CONFIDENCE. lra.
Qed.

Lemma fuzzy_failed : forall db text e,
  run db FuzzyContains text = Throw e -> fuzzySearch db text = Value [].
Proof. intros db text e H. unfold fuzzySearch. now rewrite H. Qed.

Lemma vector_failed : forall db text e,
  run db SapVectorSimilarity text = Throw e -> vectorSearch db text = Value [].
Proof. intros db text e H. unfold vectorSearch. now rewrite H. Qed.

Lemma openai_failed : forall db env text e,
  run db (OpenAIVectorSimilarity (remote_source env)) text = Throw e ->
  openaiEmbeddingSearch env db text = Value [].
Proof. intros db env text e H. unfold openaiEmbeddingSearch. simpl. now rewrite H. Qed.

Lemma query_eqb_eq : forall q1 q2, query_eqb q1 q2 = true <-> q1 = q2.
Proof.
  intros [| | a] [| | b]; simpl; split; intro H; try reflexivity; try discriminate.
  - apply String.eqb_eq in H. now subst.
  - injection H as ->. apply String.eqb_refl.
Qed.

Lemma fuzzy_silenced : forall q db text,
  fuzzySearch (silenced q db) text =
  if query_eqb FuzzyContains q then Value [] else fuzzySearch db text.
Proof.
  intros q db text. unfold fuzzySearch, silenced. simpl.
  destruct q; reflexivity.
Qed.

Lemma vector_silenced : forall q db text,
  vectorSearch (silenced q db) text =
  if query_eqb SapVectorSimilarity q then Value [] else vectorSearch db text.
Proof.
  intros q db text. unfold vectorSearch, silenced. simpl.
  destruct q; reflexivity.
Qed.

Lemma openai_silenced : forall q db env text,
  openaiEmbeddingSearch env (silenced q db) text =
  if query_eqb (OpenAIVectorSimilarity (remote_source env)) q then Value []
  else openaiEmbeddingSearch env db text.
Proof.
  intros q db env text. unfold openaiEmbeddingSearch, silenced. simpl.
  destruct q as [| | name]; try reflexivity.
  now destruct (String.eqb (remote_source env) name).
Qed.

Lemma surviving_when_failed : forall db env text q e,
  run db q text = Throw e ->
  surviving q db env text =
  (results_of (fuzzySearch db text), results_of (vectorSearch db text),
   results_of (openaiEmbeddingSearch env db text)).
Proof.
  intros db env text q e Hfail. unfold surviving.
  destruct (query_eqb FuzzyContains q) eqn:E1.
  { apply query_eqb_eq in E1. subst q. rewrite (fuzzy_failed _ _ Hfail). reflexivity. }
  destruct (query_eqb SapVectorSimilarity q) eqn:E2.
  { apply query_eqb_eq in E2. subst q. rewrite (vector_failed _ _ Hfail). reflexivity. }
  destruct (query_eqb (OpenAIVectorSimilarity (remote_source env)) q) eqn:E3.
  { apply query_eqb_eq in E3. subst q. rewrite (openai_failed _ _ _ Hfail). reflexivity. }
  reflexivity.
Qed.

(** A strategy always returns: a failure of its statement is caught. *)
Lemma strategies_value : forall db env text,
  fuzzySearch db text = Value (results_of (fuzzySearch db text)) /\
  vectorSearch db text = Value (results_of (vectorSearch db text)) /\
  openaiEmbeddingSearch env db text =
  Value (results_of (openaiEmbeddingSearch env db text)).
Proof.
  intros db env text. unfold fuzzySearch, vectorSearch, openaiEmbeddingSearch.
  cbv zeta.
  destruct (run db FuzzyContains text), (run db SapVectorSimilarity text),
    (run db (OpenAIVectorSimilarity (remote_source env)) text); simpl; auto.
Qed.

(** The candidates of the three strategies are the rows their statements
    found, each with the confidence of its raw score. *)
Lemma candidate_of_row : forall db env text m,
  In m (results_of (fuzzySearch db text) ++ results_of (vectorSearch db text) ++
        results_of (openaiEmbeddingSearch env db text)) ->
  exists q rows record,
    In q (statements env) /\ run db q text = Value rows /\ In record rows /\
    ID m = row_ID record /\ confidence m = to_confidence (backend_score q record).
Proof.
  intros db env text m Hin. unfold fuzzySearch, vectorSearch, openaiEmbeddingSearch in Hin.
  cbv zeta in Hin.
  apply in_app_or in Hin as [Hin | Hin]; [| apply in_app_or in Hin as [Hin | Hin]].
  - destruct (run db FuzzyContains text) as [rows | e] eqn:Hrows; simpl in Hin;
      [| contradiction].
    apply in_map_iff in Hin as (record & <- & Hrec).
    exists FuzzyContains, rows, record. repeat split; auto. now left.
  - destruct (run db SapVectorSimilarity text) as [rows | e] eqn:Hrows; simpl in Hin;
      [| contradiction].
    apply in_map_iff in Hin as (record & <- & Hrec).
    exists SapVectorSimilarity, rows, record. repeat split; auto. right. now left.
  - destruct (run db (OpenAIVectorSimilarity (remote_source env)) text)
      as [rows | e] eqn:Hrows; simpl in Hin; [| contradiction].
    apply in_map_iff in Hin as (record & <- & Hrec).
    exists (OpenAIVectorSimilarity (remote_source env)), rows, record.
    repeat split; auto. right. right. now left.
Qed.

Lemma row_has_candidate : forall db env text q rows record,
  In q (statements env) -> run db q text = Value rows -> In record rows ->
  exists x,
    In x (results_of (fuzzySearch db text) ++ results_of (vectorSearch db text) ++
          results_of (openaiEmbeddingSearch env db text)) /\
    ID x = row_ID record /\ confidence x = to_confidence (backend_score q record).
Proof.
  intros db env text q rows record Hq Hrows Hrec.
  unfold fuzzySearch, vectorSearch, openaiEmbeddingSearch. cbv zeta.
  destruct Hq as [<- | [<- | [<- | []]]]; rewrite Hrows; cbn [bind try_catch results_of].
  - exists (fuzzy_candidate record). split; [| split; reflexivity].
    apply in_or_app. left. now apply in_map.
  - exists (vector_candidate record). split; [| split; reflexivity].
    apply in_or_app. right. apply in_or_app. left. now apply in_map.
  - exists (openai_candidate record). split; [| split; reflexivity].
    apply in_or_app. right. apply in_or_app. right. now apply in_map.
Qed.

(** C4. When the statement of one strategy fails, [searchLine] does not
    fail: it returns what it returns when that statement finds no row.
    For a line long enough to be searched this is the ranking of the
    candidates of the other strategies alone, and their results are
    returned: every match is the candidate of a row that a statement
    other than the failing one found, with a confidence of 85 at least;
    every such row whose confidence reaches 85 is in the result under its
    ID, with that confidence or a higher one of the same record; no ID
    comes twice, and the list is sorted by confidence, highest first. *)
Theorem failing_strategy_contributes_nothing : forall db env lineText q e,
  In q (statements env) ->
  run db q (or_empty lineText) = Throw e ->
  let text := or_empty lineText in
  (exists ms, searchLine (Value db) env lineText = Value ms) /\
  searchLine (Value db) env lineText = searchLine (Value (silenced q db)) env lineText /\
  (too_short lineText = false ->
   exists ms,
     searchLine (Value db) env lineText = Value ms /\
     ms = (let '(fuzzy, vector, openai) := surviving q db env text in
           merge_and_rank fuzzy vector openai) /\
     (forall m, In m ms ->
        (85 <= confidence m)%Q /\
        exists q' rows record,
          In q' (statements env) /\ q' <> q /\ run db q' text = Value rows /\
          In record rows /\ ID m = row_ID record /\
          confidence m = to_confidence (backend_score q' record)) /\
     (forall q' rows record,
        In q' (statements env) -> run db q' text = Value rows -> In record rows ->
        (85 <= to_confidence (backend_score q' record))%Q ->
        exists m, In m ms /\ ID m = row_ID record /\
                  (to_confidence (backend_score q' record) <= confidence m)%Q) /\
     NoDup (map ID ms) /\
     StronglySorted (fun a b => (confidence b <= confidence a)%Q) ms).
Proof.
  intros db env lineText q e Hq Hfail text.
  pose proof (surviving_when_failed db env _ _ Hfail) as Hsurv.
  rewrite !searchLine_connected. split; [eauto | split].
  - destruct (too_short lineText); [reflexivity |].
    rewrite fuzzy_silenced, vector_silenced, openai_silenced.
    pose proof (f_equal (fun t => fst (fst t)) Hsurv) as H1.
    pose proof (f_equal (fun t => snd (fst t)) Hsurv) as H2.
    pose proof (f_equal snd Hsurv) as H3.
    unfold surviving in H1, H2, H3. cbn [fst snd] in H1, H2, H3.
    f_equal. f_equal.
    + rewrite <- H1. now destruct (query_eqb FuzzyContains q).
    + rewrite <- H2. now destruct (query_eqb SapVectorSimilarity q).
    + rewrite <- H3.
      now destruct (query_eqb (OpenAIVectorSimilarity (remote_source env)) q).
  - intros ->. eexists. split; [reflexivity |]. fold text.
    split; [unfold text; now rewrite Hsurv |].
    destruct (merge_and_rank_candidates
                (results_of (fuzzySearch db text)) (results_of (vectorSearch db text))
                (results_of (openaiEmbeddingSearch env db text))) as (Hsound & Hcomplete).
    destruct (merge_and_rank_invariants
                (results_of (fuzzySearch db text)) (results_of (vectorSearch db text))
                (results_of (openaiEmbeddingSearch env db text)))
      as (Hmin & Hnodup & Hsorted).
    split; [| split; [| split; [exact Hnodup | exact Hsorted]]].
    + intros m Hm. split; [exact (proj1 (Forall_forall _ _) Hmin m Hm) |].
      destruct (@candidate_of_row db env text m (Hsound m Hm))
        as (q' & rows & record & Hq' & Hrows & Hrec & Hid & Hconf).
      exists q', rows, record. repeat split; auto.
      intros ->. unfold text in Hrows. congruence.
    + intros q' rows record Hq' Hrows Hrec Hconf.
      destruct (@row_has_candidate db env text q' rows record Hq' Hrows Hrec)
        as (x & Hx & Hid & Hcx).
      rewrite <- Hcx in Hconf. destruct (Hcomplete x Hx Hconf) as (m & Hm & Hmid & Hle).
      exists m. split; [exact Hm |]. split; [congruence |]. now rewrite <- Hcx.
Qed.

(** The vector statement of the sample fails: the three records the fuzzy
    and the OpenAI statements found are returned, h-2 with the higher of
    its two confidences. *)
Lemma failing_strategy_contributes_nothing_witness :
  exists ms,
    searchLine (Value Samples.db_vector_down) None (Some Samples.acme_line) = Value ms /\
    map (fun m => (ID m, matchStrategy m, confidence m)) ms
    = [("h-2"%string, OPENAI_EMBEDDING, 95%Q); ("h-1"%string, FUZZY_TEXT, 90%Q);
       ("h-3"%string, OPENAI_EMBEDDING, 85%Q)] /\
    ms = merge_and_rank
           (results_of (fuzzySearch Samples.db_vector_down Samples.acme_line)) []
           (results_of (openaiEmbeddingSearch None Samples.db_vector_down
                          Samples.acme_line)) /\
    (forall m, In m ms ->
       (85 <= confidence m)%Q /\
       exists q' rows record,
         In q' (statements None) /\ q' <> SapVectorSimilarity /\
         run Samples.db_vector_down q' Samples.acme_line = Value rows /\
         In record rows /\ ID m = row_ID record /\
         confidence m = to_confidence (backend_score q' record)) /\
    (forall q' rows record,
       In q' (statements None) ->
       run Samples.db_vector_down q' Samples.acme_line = Value rows ->
       In record rows ->
       (85 <= to_confidence (backend_score q' record))%Q ->
       exists m, In m ms /\ ID m = row_ID record /\
                 (to_confidence (backend_score q' record) <= confidence m)%Q).
Proof.
  destruct (@failing_strategy_contributes_nothing Samples.db_vector_down None
              (Some Samples.acme_line) SapVectorSimilarity (mkError "connection reset"))
    as (_ & _ & Hrank).
  - right. left. reflexivity.
  - reflexivity.
  - destruct (Hrank eq_refl) as (ms & Hrun & Hms & Hsound & Hcomplete & _).
    exists ms. split; [exact Hrun |].
    split; [rewrite Hms; vm_compute; reflexivity |].
    split; [exact Hms |]. split; [exact Hsound | exact Hcomplete].
Defined.


Lemma Math_round_monotone : forall x y : Q,
  (x <= y)%Q -> (Math_round x <= Math_round y)%Z.
Proof.
  intros x y Hxy. unfold Math_round. apply Qfloor_resp_le. lra.
Qed.



Lemma to_confidence_steps_monotone : forall s1 s2 : Q,
  (s1 <= s2)%Q ->
  (Math_round (fmul (fadd 60 (fmul s1 35)) 10)
   <= Math_round (fmul (fadd 60 (fmul s2 35)) 10))%Z.
Proof.
  intros s1 s2 Hle. apply Math_round_monotone. unfold fmul, fadd.
  apply DoubleFacts.round64_monotone.
  assert (H1 : (round64 (s1 * 35) <= round64 (s2 * 35))%Q)
    by (apply DoubleFacts.round64_monotone; lra).
  assert (H2 : (round64 (60 + round64 (s1 * 35)) <= round64 (60 + round64 (s2 * 35)))%Q)
    by (apply DoubleFacts.round64_monotone; lra).
  lra.
Qed.






(** The confidence is not always the affine image rounded to one decimal
    place: for the similarity 0.7128571428571429 the affine image is below
    84.95, whose nearest number with one decimal is 84.9, and the
    confidence is 85, more than 0.05 away. *)
Lemma confidence_not_rounded_affine :
  let s := literal 7128571428571429 10000000000000000 in
  let m := vector_candidate (Samples.sample_row "h-1" Samples.acme_line s) in
  (0 <= s <= 1)%Q /\ rawScore m = s /\
  (60 + 35 * s < 8495 # 100)%Q /\
  (confidence m == 85)%Q /\
  ((1 # 20) < Qabs (confidence m - (60 + 35 * s)))%Q.
Proof. vm_compute. repeat split; discriminate || reflexivity. Qed.

End LineMatcherProperties.

(** ** The line parser *)

Module LineParserProperties.

Import LineParser.
Local Open Scope string_scope.

Lemma first_matching_range : forall patterns text,
  In (first_matching patterns text) (map fst patterns ++ ["OTHER"]).
Proof.
  induction patterns as [| [type pattern] rest IH]; intro text; simpl.
  - now left.
  - destruct (test pattern text); [now left | right; apply IH].
Qed.

(** The types [identifyLineType] can return. *)
Lemma identifyLineType_range : forall text,
  In (identifyLineType text)
     ["BO"; "BO1"; "BO2"; "ORDER"; "BN"; "FR"; "TO"; "OBI"; "OB"; "PY"; "BI"; "CR";
      "RF"; "SENDING"; "ROC"; "TRID"; "ENDT"; "OTHER"].
Proof.
  intro text. apply (first_matching_range LINE_PATTERNS text).
Qed.

(** The [switch] of [extractSearchText] reaches a [return lineText] for
    four types only: the labels 'SENDING PERSON' and 'DETAILS' are no type
    that [identifyLineType] returns. *)
Lemma extractSearchText_by_type : forall text,
  extractSearchText text =
  if is_case (identifyLineType text) ["BO"; "BO1"; "BO2"; "ORDER"] then Some text else None.
Proof.
  intro text. unfold extractSearchText, extractBOText.
  pose proof (identifyLineType_range text) as Hrange. simpl in Hrange.
  repeat (destruct Hrange as [<- | Hrange]; [reflexivity |]). contradiction.
Qed.

Lemma map_indexed_shape : forall lines from pl,
  In pl (map_indexed from lines) ->
  In (lineText pl) lines /\
  lineType pl = identifyLineType (lineText pl) /\
  searchText pl = extractSearchText (lineText pl).
Proof.
  induction lines as [| text rest IH]; simpl; intros from pl Hin; [contradiction |].
  destruct Hin as [<- | Hin]; simpl.
  - repeat split. now left.
  - destruct (IH _ _ Hin) as (H1 & H2 & H3). repeat split; auto.
Qed.

(** A line of [parsePaymentNotes] carries the type and the search text of
    its own text. *)
Lemma parsed_line_shape : forall raw pl,
  In pl (parsePaymentNotes raw) ->
  lineType pl = identifyLineType (lineText pl) /\
  searchText pl = extractSearchText (lineText pl).
Proof.
  intros [raw |] pl Hin; simpl in Hin; [| contradiction].
  destruct (String.length raw =? 0)%nat; [contradiction |].
  now apply map_indexed_shape in Hin.
Qed.

Lemma searchText_of_parsed : forall raw pl,
  In pl (parsePaymentNotes raw) ->
  searchText pl =
  if is_case (lineType pl) ["BO"; "BO1"; "BO2"; "ORDER"] then Some (lineText pl) else None.
Proof.
  intros raw pl Hin. destruct (@parsed_line_shape raw pl Hin) as (Htype & Htext).
  now rewrite Htext, Htype, extractSearchText_by_type.
Qed.

(** No type of the skip list is a type with a search text. *)
Lemma skipped_type_not_searched : forall type,
  In type skipTypes -> is_case type ["BO"; "BO1"; "BO2"; "ORDER"] = false.
Proof.
  intros type Hin. simpl in Hin.
  repeat (destruct Hin as [<- | Hin]; [reflexivity |]). contradiction.
Qed.

Lemma skip_check : forall type,
  existsb (String.eqb type) skipTypes = true -> In type skipTypes.
Proof.
  intros type H. apply existsb_exists in H as (k & Hk & Heq).
  apply String.eqb_eq in Heq. now subst.
Qed.

(** C10. For a line of [parsePaymentNotes], [shouldMatchLine] holds exactly
    when the search text is there and has five code units at least; a line
    of a type of the skip list has no search text, so the skip list decides
    nothing. *)
Theorem shouldMatchLine_iff_long_searchText : forall raw pl,
  In pl (parsePaymentNotes raw) ->
  (shouldMatchLine pl = true <->
   exists s, searchText pl = Some s /\ 5 <= String.length s) /\
  (In (lineType pl) skipTypes -> searchText pl = None).
Proof.
  intros raw pl Hin. pose proof (@searchText_of_parsed raw pl Hin) as Htext.
  split.
  - unfold shouldMatchLine. rewrite Htext.
    destruct (is_case (lineType pl) ["BO"; "BO1"; "BO2"; "ORDER"]) eqn:Hcase.
    + assert (Hskip : existsb (String.eqb (lineType pl)) skipTypes = false).
      { destruct (existsb (String.eqb (lineType pl)) skipTypes) eqn:Hskip; [| reflexivity].
        apply skip_check, skipped_type_not_searched in Hskip. congruence. }
      rewrite Hskip. unfold truthy_str, or_empty.
      destruct (String.length (lineText pl) =? 0)%nat eqn:Hempty; cbn [negb].
      * apply Nat.eqb_eq in Hempty. split; [discriminate |].
        intros (s & Hs & Hlen). injection Hs as <-. lia.
      * destruct (String.length (lineText pl) <? 5)%nat eqn:Hshort.
        -- apply Nat.ltb_lt in Hshort. split; [discriminate |].
           intros (s & Hs & Hlen). injection Hs as <-. lia.
        -- apply Nat.ltb_ge in Hshort. split; [| reflexivity].
           intros _. now exists (lineText pl).
    + cbn. split; [discriminate |]. now intros (s & Hs & _).
  - intro Hskip. rewrite Htext. now rewrite skipped_type_not_searched.
Qed.

Lemma shouldMatchLine_iff_long_searchText_witness :
  exists pl,
    hd_error (parsePaymentNotes (Some Samples.three_lines)) = Some pl /\
    (shouldMatchLine pl = true <->
     exists s, searchText pl = Some s /\ 5 <= String.length s) /\
    (In (lineType pl) skipTypes -> searchText pl = None).
Proof.
  eexists. split; [vm_compute; reflexivity |].
  apply (@shouldMatchLine_iff_long_searchText (Some Samples.three_lines)).
  vm_compute. left. reflexivity.
Defined.

(** The first scenario of the specification: two lines, a buyer order with
    its whole text as search text and a transaction id without one. *)
Example scenario_two_lines :
  map (fun pl => (lineNo pl, lineType pl, searchText pl))
      (parsePaymentNotes
         (Some ("BO:219062889 BO1:ACME LLC BO2:123 MAIN ST" ++ String LF "TRID:998877"
                ++ String LF "")))
  = [(1, "BO", Some "BO:219062889 BO1:ACME LLC BO2:123 MAIN ST"); (2, "TRID", None)].
Proof. vm_compute. reflexivity. Qed.

(** C2, as the code has it.  A sending person line is typed SENDING and
    gets no search text: the [switch] of [extractSearchText] has the label
    'SENDING PERSON', which is no key of [LINE_PATTERNS]. *)
Theorem sending_line_gets_no_searchText :
  map (fun pl => (lineText pl, lineType pl, searchText pl))
      (parsePaymentNotes (Some Samples.sending_line))
  = [(Samples.sending_line, "SENDING", None)].
Proof. vm_compute. reflexivity. Qed.

(** The search text of a line of [parsePaymentNotes] is there exactly for
    the types BO, BO1, BO2 and ORDER, and then it is the whole line. *)
Lemma searchText_by_type : forall raw pl,
  In pl (parsePaymentNotes raw) ->
  (searchText pl <> None <-> In (lineType pl) ["BO"; "BO1"; "BO2"; "ORDER"]) /\
  (forall s, searchText pl = Some s -> s = lineText pl).
Proof.
  intros raw pl Hin. rewrite (@searchText_of_parsed raw pl Hin).
  unfold is_case.
  destruct (existsb (String.eqb (lineType pl)) ["BO"; "BO1"; "BO2"; "ORDER"]) eqn:Hcase.
  - split; [split; [| discriminate] | now intros s [= <-]].
    intros _. apply existsb_exists in Hcase as (k & Hk & Heq).
    apply String.eqb_eq in Heq. now subst.
  - split; [split; [now intros [] | ] | discriminate].
    intro Hin4. exfalso.
    assert (Htrue : existsb (String.eqb (lineType pl)) ["BO"; "BO1"; "BO2"; "ORDER"] = true).
    { apply existsb_exists. exists (lineType pl). split; [exact Hin4 | apply String.eqb_refl]. }
    congruence.
Qed.

Lemma searchText_by_type_witness :
  exists pl,
    hd_error (parsePaymentNotes (Some Samples.three_lines)) = Some pl /\
    (searchText pl <> None <-> In (lineType pl) ["BO"; "BO1"; "BO2"; "ORDER"]) /\
    (forall s, searchText pl = Some s -> s = lineText pl).
Proof.
  eexists. split; [vm_compute; reflexivity |].
  apply (@searchText_by_type (Some Samples.three_lines)).
  vm_compute. left. reflexivity.
Defined.

End LineParserProperties.

(** ** The email scorers *)

Module EmailProperties.

Local Open Scope string_scope.

Lemma Math_min_le_r : forall x y : Q, (Math_min x y <= y)%Q.
Proof.
  intros x y. unfold Math_min. destruct (Qle_bool x y) eqn:E.
  - now apply Qle_bool_iff.
  - apply Qle_refl.
Qed.

Lemma Math_min_ge : forall x y lo : Q, (lo <= x)%Q -> (lo <= y)%Q -> (lo <= Math_min x y)%Q.
Proof.
  intros x y lo Hx Hy. unfold Math_min. now destruct (Qle_bool x y).
Qed.

Lemma cached_add_if_ge : forall b points score,
  (0 <= points)%Q -> (0 <= score)%Q -> (0 <= EmailMatcher.add_if b points score)%Q.
Proof.
  intros [|] points score Hp Hs; simpl; [| exact Hs].
  unfold fadd. apply DoubleFacts.round64_nonneg. lra.
Qed.

(** The sum of the live scorer: every bonus adds to it, none is taken back. *)
Lemma live_score_range : forall B email companyName amount,
  (0 <= EmailSearch.calculateRelevance B email companyName amount <= 160)%Q.
Proof.
  intros B email companyName amount.
  unfold EmailSearch.calculateRelevance, EmailSearch.add_if.
  repeat match goal with
         | |- context [if ?b then _ else _] => destruct b
         end; vm_compute; split; discriminate.
Qed.

(** C3, as the code has it.  The score of the cached-corpus scorer is at
    most 100, and it is at least 0 when the similarity of the record is not
    negative.  The score of the live-mailbox scorer is not capped: it lies
    between 0 and 160. *)
Theorem relevance_score_ranges : forall B email message companyName amount searchEmbedding,
  (EmailMatcher.calculateRelevanceScore B email companyName amount searchEmbedding
     <= 100)%Q /\
  ((0 <= or_zero (EmailMatcher.similarity email))%Q ->
   (0 <= EmailMatcher.calculateRelevanceScore B email companyName amount
           searchEmbedding)%Q) /\
  (0 <= EmailSearch.calculateRelevance B message companyName amount <= 160)%Q.
Proof.
  intros B email message companyName amount searchEmbedding.
  split; [| split; [| apply live_score_range]].
  - unfold EmailMatcher.calculateRelevanceScore. apply Math_min_le_r.
  - intro Hsim. unfold EmailMatcher.calculateRelevanceScore.
    apply Math_min_ge; [| lra].
    apply cached_add_if_ge; [lra |].
    assert (Hrest : forall score b,
              (0 <= score)%Q ->
              (0 <= (if truthy_num amount
                     then EmailMatcher.add_if b 20 score else score))%Q).
    { intros score b Hs. destruct (truthy_num amount); [| exact Hs].
      apply cached_add_if_ge; [lra | exact Hs]. }
    apply Hrest.
    repeat (apply cached_add_if_ge; [lra |]).
    unfold fadd, fmul. apply DoubleFacts.round64_nonneg.
    assert (0 <= round64 (or_zero (EmailMatcher.similarity email) * 50))%Q
      by (apply DoubleFacts.round64_nonneg; lra).
    lra.
Qed.

Lemma relevance_score_ranges_witness :
  (0 <= EmailMatcher.calculateRelevanceScore Samples.sample_builtins Samples.cached_email
          "ACME" (Some 1500%Q) [1; 0]%Q <= 100)%Q /\
  (0 <= EmailSearch.calculateRelevance Samples.sample_builtins
          Samples.message_with_everything "ACME" (Some 1500%Q) <= 160)%Q.
Proof.
  destruct (@relevance_score_ranges Samples.sample_builtins Samples.cached_email
              Samples.message_with_everything "ACME" (Some 1500%Q) [1; 0]%Q)
    as (Hcap & Hfloor & Hlive).
  split; [split; [apply Hfloor; vm_compute; discriminate | exact Hcap] | exact Hlive].
Defined.

(** The live-mailbox scorer returns 160 for a message to which every bonus
    applies: its score does not lie in [0,100]. *)
Lemma live_score_exceeds_100 :
  ~ (0 <= EmailSearch.calculateRelevance Samples.sample_builtins
            Samples.message_with_everything "ACME" (Some 1500%Q) <= 100)%Q.
Proof.
  intros [_ Hle]. vm_compute in Hle. apply Hle. reflexivity.
Qed.

(** The cached-corpus scorer has no lower clamp: a record of negative
    similarity to which no bonus applies gets a negative score. *)
Example cached_score_below_0 :
  (EmailMatcher.calculateRelevanceScore Samples.sample_builtins Samples.unrelated_email
     "ACME" None [1; 0]%Q == - (25))%Q.
Proof. vm_compute. reflexivity. Qed.

(** C8. Both searches throw when the company name is absent or empty,
    whatever the other arguments and the backends: nothing is returned. *)
Theorem search_requires_company_name :
  forall B db graph companyName amount valueDate daysBefore daysAfter,
  companyName = None \/ companyName = Some "" ->
  EmailMatcher.searchCachedEmails B db companyName amount valueDate daysBefore daysAfter
  = Throw (mkError "Company name is required for email search") /\
  EmailSearch.searchInbox B graph companyName (passed amount) valueDate daysBefore
    daysAfter
  = Throw (mkError "Company name is required for email search").
Proof.
  intros B db graph companyName amount valueDate daysBefore daysAfter [-> | ->];
    split; reflexivity.
Qed.

Lemma search_requires_company_name_witness :
  EmailMatcher.searchCachedEmails Samples.sample_builtins Samples.cached_db
    None (Given 1500%Q) "2025-03-10" Undefined Undefined
  = Throw (mkError "Company name is required for email search") /\
  EmailSearch.searchInbox Samples.sample_builtins Samples.mailbox
    None (Some 1500%Q) "2025-03-10" Undefined Undefined
  = Throw (mkError "Company name is required for email search").
Proof.
  apply (@search_requires_company_name Samples.sample_builtins Samples.cached_db
           Samples.mailbox None (Given 1500%Q) "2025-03-10" Undefined Undefined).
  left. reflexivity.
Defined.

End EmailProperties.

(** ** The matcher against the declarative reading of a pattern *)

Module RegexFacts.

Lemma last_char_app : forall w1 w2 prev,
  last_char prev (w1 ++ w2) = last_char (last_char prev w1) w2.
Proof.
  induction w1 as [| c w1 IH]; intros w2 prev; simpl; [reflexivity | apply IH].
Qed.

Lemma last_char_rev : forall pre, last_char None (rev pre) = hd_error pre.
Proof.
  intros [| c pre]; simpl; [reflexivity |].
  rewrite last_char_app. reflexivity.
Qed.

Lemma or_else_some : forall a b x,
  or_else a b = Some x -> a = Some x \/ b = Some x.
Proof.
  intros [y |] b x H; simpl in H; [left | right]; exact H.
Qed.

Lemma iterate_derives : forall r m greedy k,
  sound_for r m ->
  forall fuel prev s cap x,
    iterate m greedy k fuel prev s cap = Some x ->
    exists w s' cap',
      s = w ++ s' /\ derives (Star greedy r) prev w s' /\
      (has_capture r = false -> cap' = cap) /\
      k (last_char prev w) s' cap' = Some x.
Proof.
  intros r m greedy k Hm. induction fuel as [| fuel IH]; intros prev s cap x Hrun.
  - simpl in Hrun. exists [], s, cap. repeat split; auto. constructor.
  - simpl in Hrun.
    assert (Hcases :
      k prev s cap = Some x \/
      m prev s cap
        (fun prev' s' cap' =>
           if List.length s' <? List.length s
           then iterate m greedy k fuel prev' s' cap' else None) = Some x).
    { destruct greedy; apply or_else_some in Hrun; tauto. }
    destruct Hcases as [Hk | Hagain].
    + exists [], s, cap. repeat split; auto. constructor.
    + apply Hm in Hagain as (w1 & s1 & cap1 & -> & Hd1 & Hcap1 & Hnext).
      destruct (List.length s1 <? List.length (w1 ++ s1)) eqn:Hprogress; [| discriminate].
      apply Nat.ltb_lt in Hprogress. rewrite length_app in Hprogress.
      apply IH in Hnext as (w2 & s2 & cap2 & -> & Hd2 & Hcap2 & Hk).
      exists (w1 ++ w2), s2, cap2. repeat split.
      * now rewrite app_assoc.
      * apply D_StarMore; [| exact Hd1 | exact Hd2].
        intros ->. simpl in Hprogress. lia.
      * intro Hnc. rewrite Hcap2, Hcap1; auto.
      * now rewrite last_char_app.
Qed.

(** Soundness of the matcher for patterns without lookaround. *)
Lemma rmatch_sound : forall r, plain r = true -> sound_for r (rmatch r).
Proof.
  induction r as [| p | r1 IH1 r2 IH2 | r1 IH1 r2 IH2 | greedy r1 IH1 | r1 IH1 | | | |];
    simpl; intros Hplain prev s cap k x Hrun.
  - exists [], s, cap. repeat split; auto. constructor.
  - destruct s as [| c s']; [discriminate |].
    destruct (p c) eqn:Hp; [| discriminate].
    exists [c], s', cap. repeat split; auto. now constructor.
  - apply andb_prop in Hplain as [Hp1 Hp2].
    apply (IH1 Hp1) in Hrun as (w1 & s1 & cap1 & -> & Hd1 & Hcap1 & Hrun).
    apply (IH2 Hp2) in Hrun as (w2 & s2 & cap2 & -> & Hd2 & Hcap2 & Hk).
    exists (w1 ++ w2), s2, cap2. repeat split.
    + now rewrite app_assoc.
    + now constructor.
    + intro Hnc. apply orb_false_elim in Hnc as [Hn1 Hn2].
      rewrite Hcap2, Hcap1; auto.
    + now rewrite last_char_app.
  - apply andb_prop in Hplain as [Hp1 Hp2].
    apply or_else_some in Hrun as [Hrun | Hrun].
    + apply (IH1 Hp1) in Hrun as (w & s' & cap' & -> & Hd & Hcap & Hk).
      exists w, s', cap'. repeat split; auto.
      * now apply D_AltL.
      * intro Hnc. apply orb_false_elim in Hnc as [Hn1 Hn2]. auto.
    + apply (IH2 Hp2) in Hrun as (w & s' & cap' & -> & Hd & Hcap & Hk).
      exists w, s', cap'. repeat split; auto.
      * now apply D_AltR.
      * intro Hnc. apply orb_false_elim in Hnc as [Hn1 Hn2]. auto.
  - exact (@iterate_derives r1 (rmatch r1) greedy k (IH1 Hplain) _ _ _ _ _ Hrun).
  - apply (IH1 Hplain) in Hrun as (w & s' & cap' & -> & Hd & _ & Hk).
    exists w, s', (Some (firstn (List.length (w ++ s') - List.length s') (w ++ s'))).
    repeat split; auto.
    + now constructor.
    + discriminate.
  - destruct prev; [discriminate |].
    exists [], s, cap. repeat split; auto. constructor.
  - destruct s; [| discriminate].
    exists [], [], cap. repeat split; auto. constructor.
  - discriminate.
  - discriminate.
Qed.

Lemma or_else_not_none_l : forall a b, a <> None -> or_else a b <> None.
Proof. intros [x |] b H; simpl; [discriminate | contradiction]. Qed.

Lemma or_else_not_none_r : forall a b, b <> None -> or_else a b <> None.
Proof. intros [x |] b H; simpl; [discriminate | exact H]. Qed.

(** Completeness of the matcher: when [r] matches a prefix after which the
    continuation cannot fail, the matcher does not fail.  The second part
    is the same for the loop of a quantifier with fuel to spare. *)
Lemma rmatch_complete : forall r prev w s',
  derives r prev w s' ->
  (forall cap k,
     (forall cap', k (last_char prev w) s' cap' <> None) ->
     rmatch r prev (w ++ s') cap k <> None) /\
  (forall greedy r1, r = Star greedy r1 ->
     forall fuel cap k,
       List.length (w ++ s') <= fuel ->
       (forall cap', k (last_char prev w) s' cap' <> None) ->
       iterate (rmatch r1) greedy k fuel prev (w ++ s') cap <> None).
Proof.
  intros r prev w s' Hd.
  induction Hd as
    [ prev rest
    | p c prev rest Hp
    | r1 r2 prev w1 w2 rest Hd1 [IH1 _] Hd2 [IH2 _]
    | r1 r2 prev w rest Hd [IH _]
    | r1 r2 prev w rest Hd [IH _]
    | g r prev rest
    | g r prev w1 w2 rest Hne Hd1 [IH1 _] Hd2 [_ IH2]
    | r prev w rest Hd [IH _]
    | rest
    | prev ].
  - split; [| discriminate]. intros cap k Hk. apply Hk.
  - split; [| discriminate]. intros cap k Hk. simpl. rewrite Hp. apply Hk.
  - split; [| discriminate]. intros cap k Hk. simpl. rewrite <- app_assoc.
    apply IH1. intro cap1. apply IH2. intro cap2. rewrite <- last_char_app. apply Hk.
  - split; [| discriminate]. intros cap k Hk. simpl.
    apply or_else_not_none_l. now apply IH.
  - split; [| discriminate]. intros cap k Hk. simpl.
    apply or_else_not_none_r. now apply IH.
  - assert (Hloop : forall fuel cap k,
              (forall cap', k prev rest cap' <> None) ->
              iterate (rmatch r) g k fuel prev rest cap <> None).
    { intros [| fuel] cap k Hk; simpl; [apply Hk |].
      destruct g; [apply or_else_not_none_r | apply or_else_not_none_l]; apply Hk. }
    split.
    + intros cap k Hk. simpl. now apply Hloop.
    + intros greedy r1 [= -> ->] fuel cap k _ Hk. now apply Hloop.
  - assert (Hloop : forall fuel cap k,
              List.length ((w1 ++ w2) ++ rest) <= fuel ->
              (forall cap', k (last_char prev (w1 ++ w2)) rest cap' <> None) ->
              iterate (rmatch r) g k fuel prev ((w1 ++ w2) ++ rest) cap <> None).
    { intros fuel cap k Hfuel Hk.
      assert (Hlen : List.length (w2 ++ rest) < List.length ((w1 ++ w2) ++ rest)).
      { rewrite <- app_assoc, (length_app w1). destruct w1; [contradiction | simpl; lia]. }
      destruct fuel as [| fuel]; [lia |]. simpl.
      assert (Hagain :
        rmatch r prev ((w1 ++ w2) ++ rest) cap
          (fun prev' s1 cap1 =>
             if List.length s1 <? List.length ((w1 ++ w2) ++ rest)
             then iterate (rmatch r) g k fuel prev' s1 cap1 else None) <> None).
      { rewrite <- app_assoc at 1. apply IH1. intro cap1.
        rewrite (proj2 (Nat.ltb_lt _ _) Hlen).
        apply (IH2 g r eq_refl); [lia |].
        intro cap2. rewrite <- last_char_app. apply Hk. }
      destruct g; [now apply or_else_not_none_l | now apply or_else_not_none_r]. }
    split.
    + intros cap k Hk. simpl. now apply Hloop.
    + intros greedy r1 [= -> ->] fuel cap k Hfuel Hk. now apply Hloop.
  - split; [| discriminate]. intros cap k Hk. simpl. apply IH. intros _. apply Hk.
  - split; [| discriminate]. intros cap k Hk. apply Hk.
  - split; [| discriminate]. intros cap k Hk. apply Hk.
Qed.

(** When the text begins with a match of [r], the matcher run with the
    accepting continuation finds a match. *)
Lemma begins_with_found : forall r prev s cap,
  begins_with r prev s -> rmatch r prev s cap accept <> None.
Proof.
  intros r prev s cap (w & rest & -> & Hd).
  apply (proj1 (rmatch_complete Hd)). intro cap'. discriminate.
Qed.



(** What [exec] finds: the match starts after the text skipped, and the
    matcher succeeded there. *)
Lemma exec_from_found : forall r s pre m,
  exec_from r pre s = Some m ->
  exists s0,
    rev pre ++ s = before m ++ s0 /\
    rmatch r (last_char None (before m)) s0 None accept = Some (after m, group1 m).
Proof.
  intros r. induction s as [| c s IH]; intros pre m Hrun; simpl in Hrun.
  - destruct (rmatch r (hd_error pre) [] None accept) as [[s' cap] |] eqn:Hm;
      [| discriminate].
    injection Hrun as <-. simpl. exists []. split; [reflexivity |].
    now rewrite last_char_rev.
  - destruct (rmatch r (hd_error pre) (c :: s) None accept) as [[s' cap] |] eqn:Hm.
    + injection Hrun as <-. simpl. exists (c :: s). split; [reflexivity |].
      now rewrite last_char_rev.
    + apply IH in Hrun as (s0 & Heq & Hfound). exists s0. split; [| exact Hfound].
      rewrite <- Heq. simpl. now rewrite <- app_assoc.
Qed.

Lemma exec_found : forall r line m,
  exec r line = Some m ->
  exists s0,
    chars line = before m ++ s0 /\
    rmatch r (last_char None (before m)) s0 None accept = Some (after m, group1 m).
Proof.
  intros r line m Hrun. now apply exec_from_found in Hrun.
Qed.

Lemma rmatch_seq : forall r1 r2 prev s cap k,
  rmatch (Seq r1 r2) prev s cap k =
  rmatch r1 prev s cap (fun prev' s' cap' => rmatch r2 prev' s' cap' k).
Proof. reflexivity. Qed.

Lemma rmatch_capture : forall r prev s cap k,
  rmatch (Capture r) prev s cap k =
  rmatch r prev s cap
    (fun prev' s' _ => k prev' s' (Some (firstn (List.length s - List.length s') s))).
Proof. reflexivity. Qed.

Lemma firstn_read : forall (w s : list ascii),
  firstn (List.length (w ++ s) - List.length s) (w ++ s) = w.
Proof.
  intros w s. rewrite length_app.
  replace (List.length w + List.length s - List.length s) with (List.length w + 0) by lia.
  rewrite firstn_app_2. simpl. apply app_nil_r.
Qed.

End RegexFacts.

(** ** Strings and patterns *)

Module TextFacts.

Lemma chars_str : forall l, chars (str l) = l.
Proof. intro l. apply list_ascii_of_string_of_list_ascii. Qed.

Lemma str_chars : forall s, str (chars s) = s.
Proof. intro s. apply string_of_list_ascii_of_string. Qed.

Lemma length_chars : forall s, List.length (chars s) = String.length s.
Proof. induction s as [| c s IH]; simpl; [reflexivity | now rewrite IH]. Qed.

Lemma length_str : forall l, String.length (str l) = List.length l.
Proof. intro l. now rewrite <- length_chars, chars_str. Qed.

(** [trim_start] drops a prefix of white space. *)
Lemma trim_start_split : forall l,
  exists p, l = p ++ trim_start l /\ Forall (fun c => is_space c = true) p.
Proof.
  induction l as [| c l (p & Hp & Hall)]; simpl.
  - exists []. split; [reflexivity | constructor].
  - destruct (is_space c) eqn:E.
    + exists (c :: p). split; [simpl; now rewrite <- Hp | now constructor].
    + exists []. split; [reflexivity | constructor].
Qed.

Lemma trim_start_head : forall l c t, trim_start l = c :: t -> is_space c = false.
Proof.
  induction l as [| a l IH]; simpl; intros c t H; [discriminate |].
  destruct (is_space a) eqn:E; [now apply (IH c t) |].
  now injection H as <- _.
Qed.

Lemma trim_start_fixed : forall l,
  (forall c t, l = c :: t -> is_space c = false) -> trim_start l = l.
Proof.
  intros [| c t] H; simpl; [reflexivity |].
  now rewrite (H c t eq_refl).
Qed.

Lemma trim_start_idem : forall l, trim_start (trim_start l) = trim_start l.
Proof.
  intro l. apply trim_start_fixed. intros c t. apply trim_start_head.
Qed.

Lemma trim_chars_idem : forall l, trim_chars (trim_chars l) = trim_chars l.
Proof.
  intro l. unfold trim_chars.
  set (a := trim_start l). set (b := trim_start (rev a)).
  assert (Hrev : trim_start (rev b) = rev b).
  { apply trim_start_fixed. intros c t Hc.
    destruct (trim_start_split (rev a)) as (p & Hp & _). fold b in Hp.
    assert (Ha : a = c :: t ++ rev p).
    { rewrite <- (rev_involutive a), Hp, rev_app_distr, Hc. reflexivity. }
    now apply (@trim_start_head l c (t ++ rev p)). }
  rewrite Hrev, rev_involutive. unfold b. now rewrite trim_start_idem.
Qed.

Lemma trim_idem : forall s, trim (trim s) = trim s.
Proof.
  intro s. unfold trim. now rewrite chars_str, trim_chars_idem.
Qed.

Lemma trim_start_incl : forall l c, In c (trim_start l) -> In c l.
Proof.
  intros l c Hin. destruct (trim_start_split l) as (p & Hp & _).
  rewrite Hp. apply in_or_app. now right.
Qed.

Lemma trim_chars_incl : forall l c, In c (trim_chars l) -> In c l.
Proof.
  intros l c Hin. unfold trim_chars in Hin.
  apply in_rev in Hin. apply trim_start_incl in Hin.
  apply in_rev in Hin. now apply trim_start_incl.
Qed.

Lemma trim_incl : forall s c, In c (chars (trim s)) -> In c (chars s).
Proof.
  intros s c. unfold trim. rewrite chars_str. apply trim_chars_incl.
Qed.

Lemma trim_chars_length : forall l, List.length (trim_chars l) <= List.length l.
Proof.
  assert (Hstart : forall l, List.length (trim_start l) <= List.length l).
  { intro l. destruct (trim_start_split l) as (p & Hp & _).
    rewrite Hp at 2. rewrite length_app. lia. }
  intro l. unfold trim_chars. rewrite length_rev.
  etransitivity; [apply Hstart |]. rewrite length_rev. apply Hstart.
Qed.

Lemma trim_length : forall s, String.length (trim s) <= String.length s.
Proof.
  intro s. unfold trim. rewrite length_str, <- length_chars. apply trim_chars_length.
Qed.

Lemma split_chars_not_nil : forall sep l, split_chars sep l <> [].
Proof.
  intros sep [| c l]; simpl; [discriminate |].
  destruct (Ascii.eqb c sep); [discriminate |].
  destruct (split_chars sep l); discriminate.
Qed.

(** A piece of [split] is made of code units of the text, the separator
    not among them. *)
Lemma split_chars_pieces : forall sep l piece c,
  In piece (split_chars sep l) -> In c piece -> In c l /\ c <> sep.
Proof.
  intros sep l. induction l as [| a l IH]; simpl; intros piece c Hpiece Hc.
  - destruct Hpiece as [<- | []]. destruct Hc.
  - destruct (Ascii.eqb_spec a sep) as [-> | Hne].
    + destruct Hpiece as [<- | Hpiece]; [destruct Hc |].
      destruct (IH piece c Hpiece Hc). auto.
    + destruct (split_chars sep l) as [| cur more] eqn:E.
      * now destruct (split_chars_not_nil sep l).
      * destruct Hpiece as [<- | Hpiece].
        -- destruct Hc as [<- | Hc]; [auto |].
           destruct (IH cur c (or_introl eq_refl) Hc). auto.
        -- destruct (IH piece c (or_intror Hpiece) Hc). auto.
Qed.

(** Replacing every occurrence of one code unit. *)
Lemma replace_all_from_chr : forall a by_ s prev,
  replace_all_from (chr a) by_ prev s 0 =
  flat_map (fun c => if Ascii.eqb a c then by_ else [c]) s.
Proof.
  intros a by_. induction s as [| c t IH]; intro prev; [reflexivity |].
  cbn [replace_all_from rmatch chr flat_map].
  destruct (Ascii.eqb a c).
  - unfold accept.
    replace (List.length (c :: t) - List.length t) with 1 by (cbn [List.length]; lia).
    now rewrite IH.
  - now rewrite IH.
Qed.

Lemma replace_all_chr_gone : forall a by_ s,
  ~ In a (chars by_) -> ~ In a (chars (replace_all (chr a) by_ s)).
Proof.
  intros a by_ s Hby Hin. unfold replace_all in Hin.
  rewrite chars_str, replace_all_from_chr in Hin.
  apply in_flat_map in Hin as (c & _ & Hc).
  destruct (Ascii.eqb_spec a c) as [-> | Hne].
  - now apply Hby.
  - destruct Hc as [-> | []]. now apply Hne.
Qed.

Lemma not_line_terminator : forall c,
  c <> LF -> c <> CR -> is_line_terminator c = false.
Proof.
  intros c Hlf Hcr. unfold is_line_terminator, code.
  apply orb_false_iff. split; apply N.eqb_neq; intro H.
  - apply Hlf. rewrite <- (ascii_N_embedding c), H. reflexivity.
  - apply Hcr. rewrite <- (ascii_N_embedding c), H. reflexivity.
Qed.

(** What the patterns over one class match. *)
Lemma derives_star_class : forall g p prev w rest,
  derives (Star g (Char p)) prev w rest -> Forall (fun c => p c = true) w.
Proof.
  intros g p prev w rest H.
  remember (Star g (Char p)) as r eqn:Hr.
  induction H; try discriminate.
  - constructor.
  - injection Hr as -> ->. apply Forall_app. split.
    + inversion H0; subst. now repeat constructor.
    + now apply IHderives2.
Qed.

Lemma derives_plus_class : forall p prev w rest,
  derives (plus (Char p)) prev w rest ->
  w <> [] /\ Forall (fun c => p c = true) w.
Proof.
  intros p prev w rest H. unfold plus in H.
  inversion H as [| | r1 r2 pr w1 w2 rs H1 H2 | | | | | | |]; subst.
  inversion H1; subst. split; [discriminate |].
  constructor; [assumption |]. now apply derives_star_class in H2.
Qed.

Lemma derives_times_class : forall p n prev w rest,
  derives (times n (Char p)) prev w rest ->
  List.length w = n /\ Forall (fun c => p c = true) w.
Proof.
  intros p. induction n as [| n IH]; simpl; intros prev w rest H.
  - inversion H; subst. split; [reflexivity | constructor].
  - inversion H as [| | r1 r2 pr w1 w2 rs H1 H2 | | | | | | |]; subst.
    inversion H1; subst. destruct (IH _ _ _ H2) as [Hlen Hall].
    split; [simpl; now rewrite Hlen | now constructor].
Qed.

(** A pattern that ends in its group: the group holds the text the body of
    the group matched, at the end of the match. *)
Lemma rmatch_then_capture : forall a b prev s x,
  plain a = true -> has_capture a = false -> plain b = true ->
  rmatch (Seq a (Capture b)) prev s None accept = Some x ->
  exists pre w,
    s = pre ++ w ++ fst x /\ snd x = Some w /\
    derives a prev pre (w ++ fst x) /\
    derives b (last_char prev pre) w (fst x).
Proof.
  intros a b prev s x Ha Hcap Hb Hrun.
  rewrite RegexFacts.rmatch_seq in Hrun.
  destruct (RegexFacts.rmatch_sound a Ha _ _ _ _ Hrun)
    as (pre & s1 & cap1 & -> & Hda & _ & Hk).
  rewrite RegexFacts.rmatch_capture in Hk.
  destruct (RegexFacts.rmatch_sound b Hb _ _ _ _ Hk)
    as (w & s2 & cap2 & -> & Hdb & _ & Hacc).
  unfold accept in Hacc. rewrite RegexFacts.firstn_read in Hacc.
  injection Hacc as <-. exists pre, w. simpl. auto.
Qed.

(** The same for [exec]: the text of group 1 of the leftmost match. *)
Lemma exec_then_capture : forall a b line m,
  plain a = true -> has_capture a = false -> plain b = true ->
  exec (Seq a (Capture b)) line = Some m ->
  exists pre w,
    chars line = before m ++ pre ++ w ++ after m /\ group1 m = Some w /\
    derives b (last_char (last_char None (before m)) pre) w (after m).
Proof.
  intros a b line m Ha Hcap Hb Hexec.
  destruct (RegexFacts.exec_found _ _ Hexec) as (s0 & Hline & Hrun).
  destruct (rmatch_then_capture _ _ _ _ Ha Hcap Hb Hrun)
    as (pre & w & Hs0 & Hg & _ & Hd).
  simpl in Hs0, Hg, Hd. exists pre, w. rewrite Hline, Hs0. auto.
Qed.

(** The text of the leftmost match. *)
Lemma exec_from_matched : forall r s pre m,
  exec_from r pre s = Some m ->
  exists s0,
    rev pre ++ s = before m ++ s0 /\
    matched m = firstn (List.length s0 - List.length (after m)) s0 /\
    rmatch r (last_char None (before m)) s0 None accept = Some (after m, group1 m).
Proof.
  intros r. induction s as [| c s IH]; intros pre m Hrun; simpl in Hrun.
  - destruct (rmatch r (hd_error pre) [] None accept) as [[s' cap] |] eqn:Hm;
      [| discriminate].
    injection Hrun as <-. simpl. exists []. split; [reflexivity |].
    split; [reflexivity |]. now rewrite RegexFacts.last_char_rev.
  - destruct (rmatch r (hd_error pre) (c :: s) None accept) as [[s' cap] |] eqn:Hm.
    + injection Hrun as <-. cbn [before matched after group1].
      exists (c :: s). split; [reflexivity |]. split; [reflexivity |].
      now rewrite RegexFacts.last_char_rev.
    + apply IH in Hrun as (s0 & Heq & Hmatched & Hfound). exists s0.
      split; [| split; [exact Hmatched | exact Hfound]].
      rewrite <- Heq. simpl. now rewrite <- app_assoc.
Qed.

(** A match of a pattern without [\B] and lookahead: the text splits into
    what stands before the match, the match and what follows it, and the
    pattern matches the text of the match there. *)
Lemma exec_plain : forall r line m,
  plain r = true ->
  exec r line = Some m ->
  chars line = before m ++ matched m ++ after m /\
  derives r (last_char None (before m)) (matched m) (after m).
Proof.
  intros r line m Hplain Hexec. unfold exec in Hexec.
  apply exec_from_matched in Hexec as (s0 & Hline & Hmatched & Hrun).
  destruct (RegexFacts.rmatch_sound r Hplain _ _ _ _ Hrun)
    as (w & s' & cap' & -> & Hder & _ & Hacc).
  injection Hacc as Hafter _. rewrite <- Hafter in Hmatched |- *.
  rewrite RegexFacts.firstn_read in Hmatched. rewrite Hmatched.
  simpl in Hline. now rewrite Hline.
Qed.

(** [trim] cuts white space at the two ends. *)
Lemma trim_chars_split : forall l,
  exists p q, l = p ++ trim_chars l ++ q /\ blank p /\ blank q.
Proof.
  intro l. unfold trim_chars.
  destruct (trim_start_split l) as (p & Hp & Hbp).
  destruct (trim_start_split (rev (trim_start l))) as (q & Hq & Hbq).
  exists p, (rev q). split; [| split; [exact Hbp | now apply Forall_rev]].
  rewrite <- rev_app_distr, <- Hq, rev_involutive. exact Hp.
Qed.

Lemma last_char_some : forall w c, last_char (Some c) w <> None.
Proof. induction w as [| a w IH]; intro c; simpl; [discriminate | apply IH]. Qed.

Lemma last_char_none : forall w, last_char None w = None -> w = [].
Proof.
  intros [| c w] H; [reflexivity |]. simpl in H. now apply last_char_some in H.
Qed.

(** A pattern without [^] and [$] matches a text wherever it stands. *)
Lemma derives_context_free : forall r prev w rest,
  derives r prev w rest -> context_free r = true ->
  forall prev' rest', derives r prev' w rest'.
Proof.
  intros r prev w rest Hd.
  induction Hd; simpl; intros Hcf prev' rest'; try discriminate.
  - constructor.
  - now constructor.
  - apply andb_true_iff in Hcf as [H1 H2]. constructor; auto.
  - apply andb_true_iff in Hcf as [H1 _]. apply D_AltL. auto.
  - apply andb_true_iff in Hcf as [_ H2]. apply D_AltR. auto.
  - constructor.
  - apply D_StarMore; auto.
  - constructor. auto.
Qed.

Lemma occurs_inside : forall r x s y,
  context_free r = true -> occurs r s -> occurs r (x ++ s ++ y).
Proof.
  intros r x s y Hcf (a & w & b & -> & Hd).
  exists (x ++ a), w, (b ++ y). split; [now rewrite <- !app_assoc |].
  now apply (derives_context_free Hd).
Qed.

(** Code units of a class are matched by the star of the class. *)
Lemma class_derives_star : forall g p w prev rest,
  Forall (fun c => p c = true) w -> derives (Star g (Char p)) prev w rest.
Proof.
  intros g p. induction w as [| c w IH]; intros prev rest Hall.
  - constructor.
  - inversion Hall as [| c' w' Hc Hw]; subst.
    change (c :: w) with ([c] ++ w). apply D_StarMore; [discriminate | |].
    + now constructor.
    + now apply IH.
Qed.

(** [exec] finds no match before the one it returns, and none at all when
    it returns none. *)
Lemma exec_from_no_earlier : forall r a s pre b,
  s = a ++ b ->
  match exec_from r pre s with
  | Some m => List.length pre + List.length a < List.length (before m)
  | None => True
  end ->
  rmatch r (last_char None (rev pre ++ a)) b None accept = None.
Proof.
  intros r. induction a as [| c a IH]; intros s pre b -> Hearlier.
  - rewrite app_nil_r, RegexFacts.last_char_rev. simpl in Hearlier.
    destruct b as [| c b]; simpl in Hearlier;
      destruct (rmatch r (hd_error pre) _ None accept) as [[s' cap] |];
      try reflexivity; simpl in Hearlier; rewrite ?length_rev in Hearlier; lia.
  - cbn [app exec_from] in Hearlier.
    destruct (rmatch r (hd_error pre) (c :: a ++ b) None accept) as [[s' cap] |].
    + simpl in Hearlier. rewrite length_rev in Hearlier. lia.
    + specialize (IH (a ++ b) (c :: pre) b eq_refl).
      replace (rev pre ++ c :: a) with (rev (c :: pre) ++ a)
        by (simpl; now rewrite <- app_assoc).
      apply IH. destruct (exec_from r (c :: pre) (a ++ b)); [| exact I].
      simpl in Hearlier |- *. lia.
Qed.

Lemma exec_no_earlier : forall r line a b,
  chars line = a ++ b ->
  match exec r line with
  | Some m => List.length a < List.length (before m)
  | None => True
  end ->
  rmatch r (last_char None a) b None accept = None.
Proof.
  intros r line a b Hline Hearlier.
  apply (@exec_from_no_earlier r a (chars line) [] b Hline). exact Hearlier.
Qed.

(** Replacing the leftmost match by nothing. *)
Lemma replace_by_nothing : forall r s,
  plain r = true ->
  (exec r s = None /\ replace r "" s = s) \/
  (exists m,
     exec r s = Some m /\
     chars s = before m ++ matched m ++ after m /\
     derives r (last_char None (before m)) (matched m) (after m) /\
     replace r "" s = str (before m ++ after m)).
Proof.
  intros r s Hplain. unfold replace. destruct (exec r s) as [m |] eqn:Hexec.
  - right. exists m. destruct (exec_plain _ _ Hplain Hexec) as [Hline Hd].
    repeat split; auto.
  - left. auto.
Qed.

End TextFacts.

(** ** The company name extractor *)

Module CompanyNameProperties.

Import LineParser CompanyNameExtractor RegexFacts.
Local Open Scope string_scope.








(** On the sample notes both stages return a name. *)
Example extractCompanyName_sample :
  option_map companyName
    (match extractCompanyName Samples.parsed_three_lines (Some 1500%Q) with
     | Value result => result
     | Throw _ => None
     end) = Some "ACME LLC" /\
  option_map companyName
    (match extractCompanyNameWithChatGPT Samples.answering_llm (Some Samples.three_lines) with
     | Value result => result
     | Throw _ => None
     end) = Some "ACME CORPORATION".
Proof. split; vm_compute; reflexivity. Qed.

End CompanyNameProperties.

(** ** The summary parser *)

Module EmailSummarizerProperties.

Import EmailSummarizer.
Local Open Scope string_scope.

Lemma no_match_no_group : forall pattern summary,
  test pattern summary = false -> match_group1 pattern summary = None.
Proof.
  intros pattern summary Htest. unfold test in Htest. unfold match_group1.
  now destruct (exec pattern summary).
Qed.

(** C7, as the code has it.  For a summary that is not empty and in which
    none of the five label patterns matches, [parseActionItems] does not
    throw and returns all five fields absent, the notes included. *)
Theorem parseActionItems_without_labels : forall summary,
  summary <> "" ->
  test costCenterPattern summary = false ->
  test companyCodePattern summary = false ->
  test glAccountPattern summary = false ->
  test invoicePattern summary = false ->
  test notesPattern summary = false ->
  parseActionItems (Some summary) =
  Value {| costCenter := None; companyCode := None; glAccount := None;
           invoice := None; notes := None |}.
Proof.
  intros summary Hne H1 H2 H3 H4 H5. unfold parseActionItems.
  assert (Htruthy : truthy_str (Some summary) = true).
  { destruct summary; [contradiction | reflexivity]. }
  rewrite Htruthy. cbn [negb or_empty try_catch].
  now rewrite !no_match_no_group.
Qed.

Lemma parseActionItems_without_labels_witness :
  parseActionItems (Some Samples.unlabelled_summary) =
  Value {| costCenter := None; companyCode := None; glAccount := None;
           invoice := None; notes := None |}.
Proof.
  apply (@parseActionItems_without_labels Samples.unlabelled_summary);
    [discriminate | vm_compute; reflexivity ..].
Defined.

(** For a summary without labels the notes are not the raw text. *)
Lemma unlabelled_summary_not_kept_as_notes :
  parseActionItems (Some Samples.unlabelled_summary) <>
  Value {| costCenter := None; companyCode := None; glAccount := None;
           invoice := None; notes := Some Samples.unlabelled_summary |}.
Proof. vm_compute. discriminate. Qed.

(** The [catch] block is never entered for a text: the result is always
    the record of the five cleaned matches. *)
Lemma parseActionItems_of_text : forall summary,
  summary <> "" ->
  parseActionItems (Some summary) =
  Value {| costCenter := cleanValue (match_group1 costCenterPattern summary);
           companyCode := cleanValue (match_group1 companyCodePattern summary);
           glAccount := cleanValue (match_group1 glAccountPattern summary);
           invoice := cleanValue (match_group1 invoicePattern summary);
           notes := cleanValue (match_group1 notesPattern summary) |}.
Proof.
  intros summary Hne. unfold parseActionItems.
  destruct summary; [contradiction | reflexivity].
Qed.

End EmailSummarizerProperties.

(* ================================================================== *)
(** * Further properties of the code *)

(** ** The line matcher, further *)

Module LineMatcherMore.

Import LineMatcher LineMatcherFacts LineMatcherProperties.

(** X3. A higher raw score never gives a lower confidence: the map from
    the raw score to the confidence is monotone, so the ranking by
    confidence never reverses the order of the backend. *)
Theorem to_confidence_monotone : forall s1 s2 : Q,
  (s1 <= s2)%Q -> (to_confidence s1 <= to_confidence s2)%Q.
Proof.
  intros s1 s2 Hle. unfold to_confidence, fdiv.
  pose proof (to_confidence_steps_monotone Hle) as Hround.
  rewrite Zle_Qle in Hround.
  apply DoubleFacts.round64_monotone.
  unfold Qdiv. apply Qmult_le_compat_r; [exact Hround | discriminate].
Qed.

Lemma to_confidence_monotone_witness :
  (literal 1 2 <= literal 6 7)%Q /\ (to_confidence (literal 1 2) <= to_confidence (literal 6 7))%Q.
Proof.
  assert (H : (literal 1 2 <= literal 6 7)%Q) by (vm_compute; discriminate).
  split; [exact H | exact (@to_confidence_monotone (literal 1 2) (literal 6 7) H)].
Defined.

(** X4. [searchLine] fails in one case only: the line is long enough to be
    searched and the connection to the database fails; the error is then
    the error of the connection.  A line that is absent, or shorter than
    five characters once trimmed, gives the empty list whatever the
    connection, a failing one too; and with a connection no failure of a
    statement makes [searchLine] fail. *)
Theorem searchLine_fails_only_unconnected : forall connect env lineText,
  (forall e,
     searchLine connect env lineText = Throw e <->
     too_short lineText = false /\ connect = Throw e) /\
  (lineText = None \/
   (exists text, lineText = Some text /\ String.length (trim text) < 5) ->
   searchLine connect env lineText = Value []) /\
  (forall db, connect = Value db ->
     exists ms, searchLine connect env lineText = Value ms).
Proof.
  intros connect env lineText. split; [| split].
  - intro e. destruct connect as [db | e'].
    + rewrite searchLine_connected. split; [discriminate | intros [_ H]; discriminate].
    + unfold searchLine. destruct (too_short lineText); simpl.
      * split; [discriminate | intros [H _]; discriminate].
      * split; [intros [= ->]; auto | intros [_ [= ->]]; reflexivity].
  - intro Hshort. unfold searchLine.
    replace (too_short lineText) with true; [reflexivity |].
    symmetry. unfold too_short.
    destruct Hshort as [-> | (text & -> & Hlen)]; [reflexivity |].
    apply orb_true_iff. right. cbn [or_empty]. now apply Nat.ltb_lt.
  - intros db ->. rewrite searchLine_connected. eauto.
Qed.

(** Without a connection, the line "BO1" gives the empty list and the
    sample line gives the error of the connection. *)
Lemma searchLine_fails_only_unconnected_witness :
  let connect : completion Db := Throw (mkError "no connection") in
  searchLine connect None (Some " BO1  "%string) = Value [] /\
  searchLine connect None None = Value [] /\
  searchLine connect None (Some Samples.acme_line) = Throw (mkError "no connection").
Proof.
  intro connect. split; [| split].
  - apply (proj1 (proj2 (@searchLine_fails_only_unconnected connect None (Some " BO1  "%string)))).
    right. exists " BO1  "%string. split; [reflexivity | vm_compute; lia].
  - apply (proj1 (proj2 (@searchLine_fails_only_unconnected connect None None))).
    now left.
  - apply (proj1 (@searchLine_fails_only_unconnected connect None
                    (Some Samples.acme_line)) (mkError "no connection")).
    split; reflexivity.
Defined.

Lemma not_key_get_none : forall (V : Type) k (m : JsMap.t V),
  ~ In k (JsMap.keys m) -> JsMap.get k m = None.
Proof.
  intros V k m Hnot. destruct (JsMap.get k m) as [v |] eqn:E; [| reflexivity].
  exfalso. apply Hnot. clear Hnot. induction m as [| [k' v'] m IH]; simpl in *.
  - discriminate.
  - destruct (String.eqb_spec k k') as [-> | _]; [now left | right; now apply IH].
Qed.

Lemma dedup_fold_distinct : forall (l : list Match) (acc : JsMap.t Match),
  NoDup (map ID l) ->
  (forall x, In x l -> ~ In (ID x) (JsMap.keys acc)) ->
  fold_left dedup_step l acc = acc ++ map (fun m => (ID m, m)) l.
Proof.
  induction l as [| x l IH]; intros acc Hnd Hfresh; simpl.
  - now rewrite app_nil_r.
  - inversion Hnd as [| i ids Hnot Hrest]; subst.
    assert (Hget : JsMap.get (ID x) acc = None).
    { apply not_key_get_none. apply Hfresh. now left. }
    unfold dedup_step at 2. unfold JsMap.has. rewrite Hget. cbn [negb].
    rewrite (@set_absent _ (ID x) x acc Hget).
    rewrite IH; [now rewrite <- app_assoc | exact Hrest |].
    intros y Hy Hin. rewrite keys_app in Hin. apply in_app_or in Hin as [Hin | Hin].
    + apply (Hfresh y); [now right | exact Hin].
    + simpl in Hin. destruct Hin as [Heq | []].
      apply Hnot. rewrite Heq. now apply in_map.
Qed.

(** X5. Merging changes nothing when the ids are distinct, and merging
    twice is merging once: [deduplicateMatches] is the identity on a list
    without repeated ID, and it is idempotent. *)
Theorem deduplicateMatches_idempotent :
  (forall matches, NoDup (map ID matches) -> deduplicateMatches matches = matches) /\
  (forall matches,
     deduplicateMatches (deduplicateMatches matches) = deduplicateMatches matches).
Proof.
  assert (Hid : forall matches,
            NoDup (map ID matches) -> deduplicateMatches matches = matches).
  { intros matches Hnd. unfold deduplicateMatches.
    rewrite dedup_fold_distinct; [| exact Hnd | intros x _ []].
    unfold JsMap.values. simpl. rewrite map_map. simpl. apply map_id. }
  split; [exact Hid |].
  intro matches. apply Hid. apply dedup_ids_unique.
Qed.

Lemma deduplicateMatches_idempotent_witness :
  deduplicateMatches [Samples.at_90] = [Samples.at_90] /\
  deduplicateMatches (deduplicateMatches Samples.found_twice) =
  deduplicateMatches Samples.found_twice.
Proof.
  split.
  - apply (proj1 deduplicateMatches_idempotent [Samples.at_90]).
    repeat constructor. intros [].
  - apply (proj2 deduplicateMatches_idempotent Samples.found_twice).
Defined.

(** X6. [searchLine] invents nothing and loses nothing.  For a line long
    enough to be searched, every match returned is a candidate of one of
    the three strategies, and every candidate with a confidence of 85 at
    least is represented in the result by a match of the same ID and of no
    lower confidence. *)
Theorem searchLine_sound_complete : forall db env lineText ms,
  too_short lineText = false ->
  searchLine (Value db) env lineText = Value ms ->
  let text := or_empty lineText in
  let candidates :=
    results_of (fuzzySearch db text) ++ results_of (vectorSearch db text) ++
    results_of (openaiEmbeddingSearch env db text) in
  (forall m, In m ms -> In m candidates) /\
  (forall x, In x candidates -> (85 <= confidence x)%Q ->
     exists m, In m ms /\ ID m = ID x /\ (confidence x <= confidence m)%Q).
Proof.
  intros db env lineText ms Hlong Hrun text candidates.
  rewrite searchLine_connected, Hlong in Hrun. injection Hrun as <-.
  apply merge_and_rank_candidates.
Qed.

Lemma searchLine_sound_complete_witness :
  let ms := results_of (searchLine (Value Samples.db_vector_down) None
                          (Some Samples.acme_line)) in
  (forall m, In m ms -> In m Samples.found_twice) /\
  (forall x, In x Samples.found_twice -> (85 <= confidence x)%Q ->
     exists m, In m ms /\ ID m = ID x /\ (confidence x <= confidence m)%Q).
Proof.
  apply (@searchLine_sound_complete Samples.db_vector_down None
           (Some Samples.acme_line)); vm_compute; reflexivity.
Defined.

End LineMatcherMore.

(** ** The line parser, further *)

Module LineParserMore.

Import LineParser TextFacts.
Local Open Scope string_scope.

Lemma map_indexed_lineNo : forall lines from,
  map lineNo (map_indexed from lines) = seq (from + 1) (List.length lines).
Proof.
  induction lines as [| l lines IH]; intro from; simpl; [reflexivity |].
  rewrite IH. now replace (S from + 1) with (S (from + 1)) by lia.
Qed.

Lemma map_indexed_lineText : forall lines from,
  map lineText (map_indexed from lines) = lines.
Proof.
  induction lines as [| l lines IH]; intro from; simpl; [reflexivity |].
  now rewrite IH.
Qed.

Lemma map_indexed_length : forall lines from,
  List.length (map_indexed from lines) = List.length lines.
Proof.
  induction lines as [| l lines IH]; intro from; simpl; [reflexivity |].
  now rewrite IH.
Qed.

(** X7. The lines of [parsePaymentNotes] are numbered 1, 2, 3, ... in the
    order of the result: the numbers count the lines kept, not the lines
    of the raw text, so a blank line leaves no gap. *)
Theorem parsePaymentNotes_numbering : forall paymentNotesRaw,
  map lineNo (parsePaymentNotes paymentNotesRaw) =
  seq 1 (List.length (parsePaymentNotes paymentNotesRaw)).
Proof.
  intros [raw |]; [| reflexivity]. unfold parsePaymentNotes.
  destruct (String.length raw =? 0)%nat; [reflexivity |].
  cbv zeta. now rewrite map_indexed_lineNo, map_indexed_length.
Qed.

(** The texts of the lines: the pieces between line feeds of the
    normalized text, trimmed, the empty ones dropped. *)
Lemma parsed_line_text : forall paymentNotesRaw pl,
  In pl (parsePaymentNotes paymentNotesRaw) ->
  exists raw piece,
    paymentNotesRaw = Some raw /\
    In piece (split LF
                (replace_all (chr CR) newline
                   (replace_all (chr CR >> chr LF)%re newline
                      (replace_all (lit "\n") newline raw)))) /\
    lineText pl = trim piece /\ lineText pl <> "".
Proof.
  intros [raw |] pl Hin; [| destruct Hin]. unfold parsePaymentNotes in Hin.
  destruct (String.length raw =? 0)%nat; [destruct Hin |].
  cbv zeta in Hin. unfold mergeWrappedLines in Hin.
  apply (in_map lineText) in Hin. rewrite map_indexed_lineText in Hin.
  apply filter_In in Hin as [Hin Hlen].
  apply in_map_iff in Hin as (piece & Htrim & Hpiece).
  exists raw, piece. repeat split; auto.
  intro Hempty. rewrite Hempty in Hlen. discriminate.
Qed.

(** X8. Every line [parsePaymentNotes] returns has a text that is not
    empty, carries no white space at either end, and holds no line feed
    and no carriage return. *)
Theorem parsed_lines_clean : forall paymentNotesRaw pl,
  In pl (parsePaymentNotes paymentNotesRaw) ->
  lineText pl <> "" /\
  trim (lineText pl) = lineText pl /\
  Forall (fun c => is_line_terminator c = false) (chars (lineText pl)).
Proof.
  intros paymentNotesRaw pl Hin.
  destruct (parsed_line_text _ _ Hin) as (raw & piece & _ & Hpiece & Htext & Hne).
  split; [exact Hne |]. rewrite Htext. split; [apply trim_idem |].
  apply Forall_forall. intros c Hc. apply trim_incl in Hc.
  unfold split in Hpiece. apply in_map_iff in Hpiece as (cs & <- & Hcs).
  rewrite chars_str in Hc.
  destruct (split_chars_pieces _ _ _ _ Hcs Hc) as [Hnorm Hlf].
  apply not_line_terminator; [exact Hlf |].
  intros ->. revert Hnorm. apply replace_all_chr_gone.
  simpl. intros [H | []]. discriminate.
Qed.

Lemma parsed_lines_clean_witness :
  exists pl,
    In pl (parsePaymentNotes (Some Samples.three_lines)) /\
    lineText pl = Samples.sending_line /\
    trim (lineText pl) = lineText pl /\
    Forall (fun c => is_line_terminator c = false) (chars (lineText pl)).
Proof.
  exists (nth 2 (parsePaymentNotes (Some Samples.three_lines))
            (mkParsedLine 0 "" "" None (mkMetadata None None None))).
  assert (Hin : In (nth 2 (parsePaymentNotes (Some Samples.three_lines))
                      (mkParsedLine 0 "" "" None (mkMetadata None None None)))
                   (parsePaymentNotes (Some Samples.three_lines))).
  { vm_compute. right. right. left. reflexivity. }
  split; [exact Hin |]. split; [vm_compute; reflexivity |].
  exact (proj2 (@parsed_lines_clean (Some Samples.three_lines) _ Hin)).
Defined.

Lemma group1_of_match : forall r line t,
  match_group1 r line = Some t ->
  exists m w, exec r line = Some m /\ group1 m = Some w /\ t = str w.
Proof.
  intros r line t H. unfold match_group1 in H.
  destruct (exec r line) as [m |]; [| discriminate].
  destruct (group1 m) as [w |] eqn:E; [| discriminate].
  injection H as <-. now exists m, w.
Qed.

(** X9. The metadata read off a line is well formed: a transaction id is
    a run of digits that is not empty; an amount is a run of digits and
    commas that is not empty, a point and two digits; a date is eight
    digits. *)
Theorem extractMetadata_well_formed : forall line,
  let md := extractMetadata line in
  (forall t, transactionId md = Some t ->
     t <> "" /\ Forall (fun c => is_digit c = true) (chars t)) /\
  (forall a, amount md = Some a ->
     exists whole cents,
       chars a = (whole ++ "."%char :: cents)%list /\
       whole <> [] /\ Forall (fun c => is_digit_or_comma c = true) whole /\
       List.length cents = 2 /\ Forall (fun c => is_digit c = true) cents) /\
  (forall d, date md = Some d ->
     String.length d = 8 /\ Forall (fun c => is_digit c = true) (chars d)).
Proof.
  intros line md. unfold md, extractMetadata. cbn [transactionId amount date].
  split; [| split].
  - intros t Ht. destruct (group1_of_match _ _ Ht) as (m & w & Hexec & Hg & ->).
    destruct (@exec_then_capture (lit_i "TRID:") (plus digit) line m
                eq_refl eq_refl eq_refl Hexec) as (pre & w' & _ & Hg' & Hd).
    rewrite Hg in Hg'. injection Hg' as <-.
    apply derives_plus_class in Hd as [Hne Hall].
    rewrite chars_str. split; [| exact Hall].
    intro Hempty. apply Hne. apply (f_equal chars) in Hempty.
    now rewrite chars_str in Hempty.
  - intros a Ha. destruct (group1_of_match _ _ Ha) as (m & w & Hexec & Hg & ->).
    destruct (@exec_then_capture (opt (chr "$"))
                (plus (Char is_digit_or_comma) >> chr "." >> times 2 digit)%re
                line m eq_refl eq_refl eq_refl Hexec) as (pre & w' & _ & Hg' & Hd).
    rewrite Hg in Hg'. injection Hg' as <-.
    inversion Hd as [| | r1 r2 pr w1 w2 rs H1 H2 | | | | | | |]; subst.
    inversion H2 as [| | r1 r2 pr w3 w4 rs H3 H4 | | | | | | |]; subst.
    inversion H3; subst.
    apply derives_plus_class in H1 as [Hne Hall].
    destruct (@derives_times_class is_digit 2 _ _ _ H4) as [Hlen Hdigits].
    exists w1, w4. rewrite chars_str. simpl. repeat split; auto.
    unfold chr in *.
    match goal with
    | H : Ascii.eqb "." ?c = true |- _ => apply Ascii.eqb_eq in H; now rewrite <- H
    end.
  - intros d Hd. unfold match_group0 in Hd.
    destruct (exec (times 8 digit) line) as [m |] eqn:Hexec; [| discriminate].
    injection Hd as <-.
    destruct (@exec_plain (times 8 digit) line m eq_refl Hexec) as [_ Hder].
    apply derives_times_class in Hder as [Hlen Hall].
    now rewrite length_str, chars_str.
Qed.

End LineParserMore.

(** ** The two email searches, further *)

Module EmailSearchMore.

Local Open Scope string_scope.

Section Ranked.
Variable A : Type.
Variable R : A -> A -> Prop.

Lemma sorted_firstn : forall n (l : list A),
  StronglySorted R l -> StronglySorted R (firstn n l).
Proof.
  induction n as [| n IH]; intros l Hs; [constructor |].
  destruct l as [| x l]; [constructor |]. simpl.
  apply StronglySorted_inv in Hs as [Hs Hall]. constructor; [now apply IH |].
  apply Forall_forall. intros y Hy. apply (proj1 (Forall_forall _ _) Hall).
  apply (In_nth_error) in Hy as [i Hy]. clear - Hy.
  revert l i Hy. induction n as [| n IH]; intros l i Hy.
  - now destruct i.
  - destruct l as [| z l]; [now destruct i |]. destruct i as [| i]; simpl in Hy.
    + injection Hy as <-. now left.
    + right. now apply (IH l i).
Qed.

Lemma sorted_cut : forall n (l : list A) x y,
  StronglySorted R l -> In x (firstn n l) -> In y (skipn n l) -> R x y.
Proof.
  induction n as [| n IH]; intros l x y Hs Hx Hy; [destruct Hx |].
  destruct l as [| z l]; [destruct Hx |]. simpl in Hx, Hy.
  apply StronglySorted_inv in Hs as [Hs Hall]. destruct Hx as [<- | Hx].
  - apply (proj1 (Forall_forall _ _) Hall).
    rewrite <- (firstn_skipn n l). apply in_or_app. now right.
  - now apply (IH l).
Qed.
End Ranked.

Import EmailMatcher.

(** A cached search that succeeds ran its three steps, and returns the
    first ten of the scored rows, sorted. *)
Lemma searchCachedEmails_value :
  forall B db companyName amount valueDate daysBefore daysAfter results,
  searchCachedEmails B db companyName amount valueDate daysBefore daysAfter
  = Value results ->
  exists name window rows searchEmbedding found,
    companyName = Some name /\
    iso_window B valueDate (or_default daysBefore 7) (or_default daysAfter 7)
    = Value window /\
    run_embedding db (name ++ " payment " ++ template_number B amount) = Value rows /\
    first_embedding rows = Some searchEmbedding /\
    run_similarity db searchEmbedding (fst window) (snd window) = Value found /\
    results =
    firstn 10
      (JS.sort (descending relevanceScore)
         (map (fun row =>
                 mkScored row
                   (calculateRelevanceScore B row name (passed amount) searchEmbedding))
            found)).
Proof.
  intros B db companyName amount valueDate daysBefore daysAfter results Hrun.
  unfold searchCachedEmails in Hrun.
  destruct (truthy_str companyName) eqn:Hname; [| discriminate].
  destruct companyName as [name |]; [| discriminate]. cbn [negb or_empty] in Hrun.
  unfold bind, try_catch in Hrun.
  destruct (iso_window B valueDate (or_default daysBefore 7) (or_default daysAfter 7))
    as [window | e] eqn:Hwindow; [| discriminate].
  cbv beta iota in Hrun.
  destruct (run_embedding db (name ++ " payment " ++ template_number B amount))
    as [rows | e] eqn:Hrows; [| discriminate].
  cbv beta iota in Hrun.
  destruct (first_embedding rows) as [searchEmbedding |] eqn:Hfirst; [| discriminate].
  destruct (run_similarity db searchEmbedding (fst window) (snd window))
    as [found | e] eqn:Hfound; [| discriminate].
  cbv beta iota in Hrun.
  exists name, window, rows, searchEmbedding, found.
  repeat (split; [reflexivity || assumption |]).
  symmetry. injection Hrun as H. exact H.
Qed.

(** X10. What a successful cached search returns: the ten best of the
    rows the similarity statement found in the date window, best first.
    The window is the one of the day counts the code works with (the
    default 7 for a count left out, 0 for [null]), and the text embedded
    prints the amount as the template literal does.  There are as many
    results as rows, ten at most; each is a row with its relevance score,
    which is at most 100; and a row that is left out scores no more than
    any result. *)
Theorem searchCachedEmails_top_ten :
  forall B db companyName amount valueDate daysBefore daysAfter results,
  searchCachedEmails B db companyName amount valueDate daysBefore daysAfter
  = Value results ->
  exists name window rows searchEmbedding found,
    companyName = Some name /\
    iso_window B valueDate (or_default daysBefore 7) (or_default daysAfter 7)
    = Value window /\
    run_embedding db (name ++ " payment " ++ template_number B amount) = Value rows /\
    first_embedding rows = Some searchEmbedding /\
    run_similarity db searchEmbedding (fst window) (snd window) = Value found /\
    let score := fun row =>
      calculateRelevanceScore B row name (passed amount) searchEmbedding in
    List.length results = Nat.min 10 (List.length found) /\
    StronglySorted (fun a b => (relevanceScore b <= relevanceScore a)%Q) results /\
    Forall (fun r => In (email r) found /\ relevanceScore r = score (email r) /\
                     (relevanceScore r <= 100)%Q) results /\
    forall row, In row found ->
      In (mkScored row (score row)) results \/
      Forall (fun r => (score row <= relevanceScore r)%Q) results.
Proof.
  intros B db companyName amount valueDate daysBefore daysAfter results Hrun.
  destruct (searchCachedEmails_value _ _ _ _ _ _ _ Hrun)
    as (name & window & rows & searchEmbedding & found & Hn & Hw & Hrows & Hf & Hs & Hres).
  exists name, window, rows, searchEmbedding, found.
  repeat (split; [assumption |]).
  intro score. rewrite Hres. clear Hres Hrun results.
  set (scored := map _ found).
  set (sorted := JS.sort _ scored).
  assert (Hperm : Permutation scored sorted) by apply sort_perm.
  assert (Hsorted : StronglySorted
            (fun a b => (relevanceScore b <= relevanceScore a)%Q) sorted)
    by apply sort_sorted.
  split; [| split; [| split]].
  - rewrite length_firstn, <- (Permutation_length Hperm). unfold scored.
    now rewrite length_map.
  - now apply sorted_firstn.
  - apply Forall_forall. intros r Hr.
    assert (Hin : In r sorted).
    { rewrite <- (firstn_skipn 10 sorted). apply in_or_app. now left. }
    apply (Permutation_in _ (Permutation_sym Hperm)) in Hin.
    apply in_map_iff in Hin as (row & <- & Hrow). simpl.
    split; [exact Hrow |]. split; [reflexivity |].
    apply EmailProperties.Math_min_le_r.
  - intros row Hrow.
    assert (Hin : In (mkScored row (score row)) sorted).
    { apply (Permutation_in _ Hperm). unfold scored.
      apply (in_map (fun row => mkScored row (score row))). exact Hrow. }
    rewrite <- (firstn_skipn 10 sorted) in Hin.
    apply in_app_or in Hin as [Hin | Hin]; [now left | right].
    apply Forall_forall. intros r Hr.
    apply (@sorted_cut _ _ 10 sorted r (mkScored row (score row)) Hsorted Hr Hin).
Qed.

(** Twelve rows in the window of seven days around the value date: the
    two of the lowest score are cut, the email e-03 of the third highest
    similarity comes first, and e-09 stays before e-12 of the same
    score. *)
Lemma searchCachedEmails_top_ten_witness :
  exists results,
    searchCachedEmails Samples.sample_builtins MoreSamples.crowded_db (Some "ACME")
      (Given 1500%Q) "2025-03-10" Undefined Undefined = Value results /\
    map (fun r => ID (email r)) results =
    ["e-03"; "e-07"; "e-01"; "e-02"; "e-04"; "e-05"; "e-06"; "e-08"; "e-09"; "e-12"] /\
    exists name window rows searchEmbedding found,
      Some "ACME" = Some name /\
      iso_window Samples.sample_builtins "2025-03-10" (or_default Undefined 7)
        (or_default Undefined 7) = Value window /\
      run_embedding MoreSamples.crowded_db
        (name ++ " payment " ++ template_number Samples.sample_builtins (Given 1500%Q))
      = Value rows /\
      first_embedding rows = Some searchEmbedding /\
      run_similarity MoreSamples.crowded_db searchEmbedding (fst window) (snd window)
      = Value found /\
      let score := fun row =>
        calculateRelevanceScore Samples.sample_builtins row name (passed (Given 1500%Q))
          searchEmbedding in
      List.length results = Nat.min 10 (List.length found) /\
      StronglySorted (fun a b => (relevanceScore b <= relevanceScore a)%Q) results /\
      Forall (fun r => In (email r) found /\ relevanceScore r = score (email r) /\
                       (relevanceScore r <= 100)%Q) results /\
      forall row, In row found ->
        In (mkScored row (score row)) results \/
        Forall (fun r => (score row <= relevanceScore r)%Q) results.
Proof.
  eexists. split; [vm_compute; reflexivity |]. split; [reflexivity |].
  apply (@searchCachedEmails_top_ten Samples.sample_builtins MoreSamples.crowded_db
           (Some "ACME") (Given 1500%Q) "2025-03-10" Undefined Undefined).
  vm_compute. reflexivity.
Defined.

(** Day counts and an amount that are [null]: the window has no day
    before and none after the value date, and the text embedded ends in
    "null". *)
Example searchCachedEmails_null_arguments :
  searchCachedEmails Samples.sample_builtins MoreSamples.null_db (Some "ACME")
    Null "2025-03-10" Null Null
  = Value [mkScored Samples.cached_email 60] /\
  searchCachedEmails Samples.sample_builtins MoreSamples.null_db (Some "ACME")
    Undefined "2025-03-10" Undefined Undefined
  = Throw (mkError "Failed to generate search embedding").
Proof. split; vm_compute; reflexivity. Qed.

(** Case analysis on a disjunction of conjunctions of equations. *)
Ltac cases_of H :=
  cbv zeta in H;
  repeat match goal with
         | H : _ \/ _ |- _ => destruct H
         | H : _ /\ _ |- _ => destruct H
         | H : exists _, _ |- _ => destruct H
         | H : Value _ = Value _ |- _ => injection H as H; subst
         end;
  congruence.

(** X11. A cached search fails in these cases only, and it passes the
    error on as it is: the company name is missing; the date computation
    on the day counts the code works with fails; the embedding statement
    fails on the text that prints the amount as the template literal
    does, or it yields no embedding; the similarity statement fails on
    the embedding and the window computed. *)
Theorem searchCachedEmails_errors :
  forall B db companyName amount valueDate daysBefore daysAfter e,
  searchCachedEmails B db companyName amount valueDate daysBefore daysAfter = Throw e <->
  (truthy_str companyName = false /\
   e = mkError "Company name is required for email search") \/
  (truthy_str companyName = true /\
   (iso_window B valueDate (or_default daysBefore 7) (or_default daysAfter 7) = Throw e \/
    exists window,
      iso_window B valueDate (or_default daysBefore 7) (or_default daysAfter 7)
      = Value window /\
      let searchText :=
        or_empty companyName ++ " payment " ++ template_number B amount in
      (run_embedding db searchText = Throw e \/
       exists rows,
         run_embedding db searchText = Value rows /\
         ((first_embedding rows = None /\
           e = mkError "Failed to generate search embedding") \/
          exists searchEmbedding,
            first_embedding rows = Some searchEmbedding /\
            run_similarity db searchEmbedding (fst window) (snd window) = Throw e)))).
Proof.
  intros B db companyName amount valueDate daysBefore daysAfter e.
  unfold searchCachedEmails. destruct (truthy_str companyName); cbn [negb].
  - unfold bind, try_catch.
    destruct (iso_window B valueDate (or_default daysBefore 7) (or_default daysAfter 7))
      as [window | e1].
    + destruct (run_embedding db
                  (or_empty companyName ++ " payment " ++ template_number B amount))
        as [rows | e1] eqn:Hrows.
      * destruct (first_embedding rows) as [searchEmbedding |] eqn:Hfirst.
        -- destruct (run_similarity db searchEmbedding (fst window) (snd window))
             as [found | e1] eqn:Hfound.
           ++ split; [discriminate | intro H; cases_of H].
           ++ split; [| intro H; cases_of H].
              intros [= ->]. right. split; [reflexivity |]. right.
              exists window. split; [reflexivity |]. right.
              exists rows. split; [reflexivity |]. right.
              exists searchEmbedding. auto.
        -- split; [| intro H; cases_of H].
           intros [= <-]. right. split; [reflexivity |]. right.
           exists window. split; [reflexivity |]. right.
           exists rows. split; [reflexivity |]. left. auto.
      * split; [| intro H; cases_of H].
        intros [= ->]. right. split; [reflexivity |]. right.
        exists window. split; [reflexivity |]. left. reflexivity.
    + split; [| intro H; cases_of H].
      intros [= ->]. right. split; [reflexivity |]. now left.
  - split; [| intro H; cases_of H].
    intros [= <-]. now left.
Qed.

(** The similarity statement refuses the search of the sample: the search
    fails with the error of the statement. *)
Lemma searchCachedEmails_errors_witness :
  searchCachedEmails Samples.sample_builtins MoreSamples.refusing_db (Some "ACME")
    (Given 1500%Q) "2025-03-10" Undefined Undefined
  = Throw (mkError "connection reset").
Proof.
  apply (proj2 (@searchCachedEmails_errors Samples.sample_builtins
                  MoreSamples.refusing_db (Some "ACME") (Given 1500%Q) "2025-03-10"
                  Undefined Undefined (mkError "connection reset"))).
  right. split; [reflexivity |]. right.
  exists ("2025-03-03T00:00:00.000Z", "2025-03-17T00:00:00.000Z").
  split; [reflexivity |]. right.
  exists [mkEmbeddingRow (Some [1; 0]%Q)]. split; [reflexivity |]. right.
  exists [1; 0]%Q. split; reflexivity.
Defined.

Module InboxMore.

Import EmailSearch.

(** The [catch] block of [searchInbox]. *)
Lemma searchInbox_named : forall B graph name amount valueDate daysBefore daysAfter,
  name <> "" ->
  searchInbox B graph (Some name) amount valueDate daysBefore daysAfter =
  try_catch
    (window <- iso_window B valueDate (or_default daysBefore 3) (or_default daysAfter 3) ;;
     response <- graph (search_query name) ;;
     Value (JS.sort (descending relevanceScore)
              (map (to_result B name amount)
                 (match response with Some value => value | None => [] end))))
    (fun error =>
       if includes (message error) "not found" || includes (message error) "destination"
       then Value []
       else Throw error).
Proof.
  intros B graph name amount valueDate daysBefore daysAfter Hname.
  unfold searchInbox. destruct name; [contradiction | reflexivity].
Qed.

(** X12. The date window does not narrow the live search: the value date
    and the two day counts are used to compute a window that is not sent
    to the mailbox, so two searches that differ in them only, and whose
    windows can both be computed, have the same outcome. *)
Theorem searchInbox_ignores_window :
  forall B graph companyName amount valueDate1 daysBefore1 daysAfter1
         valueDate2 daysBefore2 daysAfter2 window1 window2,
  iso_window B valueDate1 (or_default daysBefore1 3) (or_default daysAfter1 3)
  = Value window1 ->
  iso_window B valueDate2 (or_default daysBefore2 3) (or_default daysAfter2 3)
  = Value window2 ->
  searchInbox B graph companyName amount valueDate1 daysBefore1 daysAfter1 =
  searchInbox B graph companyName amount valueDate2 daysBefore2 daysAfter2.
Proof.
  intros B graph companyName amount valueDate1 daysBefore1 daysAfter1
         valueDate2 daysBefore2 daysAfter2 window1 window2 H1 H2.
  unfold searchInbox. destruct (negb (truthy_str companyName)); [reflexivity |].
  now rewrite H1, H2.
Qed.

Lemma searchInbox_ignores_window_witness :
  searchInbox Samples.sample_builtins Samples.mailbox (Some "ACME") (Some 1500%Q)
    "2025-03-10" Undefined Undefined =
  searchInbox Samples.sample_builtins Samples.mailbox (Some "ACME") (Some 1500%Q)
    "2025-03-10" Null (Given 14%Q).
Proof.
  apply (@searchInbox_ignores_window Samples.sample_builtins Samples.mailbox
           (Some "ACME") (Some 1500%Q) "2025-03-10" Undefined Undefined
           "2025-03-10" Null (Given 14%Q)
           ("2025-03-07T00:00:00.000Z", "2025-03-13T00:00:00.000Z")
           ("2025-03-10T00:00:00.000Z", "2025-03-24T00:00:00.000Z"));
    reflexivity.
Defined.

(** X13. What a successful live search returns: either every message the
    mailbox found, each with its relevance score, best first and none
    left out, or nothing because an error whose message holds the text
    "not found" or "destination" was swallowed. *)
Theorem searchInbox_results :
  forall B graph companyName amount valueDate daysBefore daysAfter results,
  searchInbox B graph companyName amount valueDate daysBefore daysAfter
  = Value results ->
  exists name,
    companyName = Some name /\ name <> "" /\
    ((exists response,
        graph (search_query name) = Value response /\
        Permutation
          (map (to_result B name amount)
             (match response with Some value => value | None => [] end))
          results /\
        StronglySorted (fun a b => (relevanceScore b <= relevanceScore a)%Q) results) \/
     (results = [] /\
      exists e,
        (iso_window B valueDate (or_default daysBefore 3) (or_default daysAfter 3)
         = Throw e \/ graph (search_query name) = Throw e) /\
        includes (message e) "not found" || includes (message e) "destination" = true)).
Proof.
  intros B graph companyName amount valueDate daysBefore daysAfter results Hrun.
  destruct companyName as [name |]; [| discriminate].
  destruct (String.eqb_spec name "") as [-> | Hname]; [discriminate |].
  exists name. split; [reflexivity |]. split; [exact Hname |].
  rewrite searchInbox_named in Hrun by exact Hname.
  unfold bind, try_catch in Hrun.
  destruct (iso_window B valueDate (or_default daysBefore 3) (or_default daysAfter 3))
    as [window | e].
  - destruct (graph (search_query name)) as [response | e].
    + left. exists response. split; [reflexivity |].
      assert (Hres : JS.sort (descending relevanceScore)
                       (map (to_result B name amount)
                          (match response with Some value => value | None => [] end))
                     = results) by (injection Hrun as H; exact H).
      rewrite <- Hres. split; [apply sort_perm | apply sort_sorted].
    + right. destruct (includes (message e) "not found" || includes (message e) "destination")
        eqn:Hmsg; [| discriminate].
      injection Hrun as <-. split; [reflexivity |]. exists e. auto.
  - right. destruct (includes (message e) "not found" || includes (message e) "destination")
      eqn:Hmsg; [| discriminate].
    injection Hrun as <-. split; [reflexivity |]. exists e. auto.
Qed.

Lemma searchInbox_results_witness :
  exists results,
    searchInbox Samples.sample_builtins Samples.mailbox (Some "ACME") (Some 1500%Q)
      "2025-03-10" Undefined Undefined = Value results /\
    StronglySorted (fun a b => (relevanceScore b <= relevanceScore a)%Q) results.
Proof.
  eexists. split; [vm_compute; reflexivity |].
  destruct (@searchInbox_results Samples.sample_builtins Samples.mailbox (Some "ACME")
              (Some 1500%Q) "2025-03-10" Undefined Undefined _ eq_refl)
    as (name & _ & _ & [(response & _ & _ & Hsorted) | (Hnone & _)]).
  - exact Hsorted.
  - discriminate Hnone.
Defined.

(** X14. A live search fails in two cases only: the company name is
    missing, or the date computation or the mailbox threw an error whose
    message holds neither "not found" nor "destination"; that error is
    passed on as it is. *)
Theorem searchInbox_errors :
  forall B graph companyName amount valueDate daysBefore daysAfter e,
  searchInbox B graph companyName amount valueDate daysBefore daysAfter = Throw e <->
  (truthy_str companyName = false /\
   e = mkError "Company name is required for email search") \/
  (truthy_str companyName = true /\
   includes (message e) "not found" || includes (message e) "destination" = false /\
   (iso_window B valueDate (or_default daysBefore 3) (or_default daysAfter 3) = Throw e \/
    (exists window,
       iso_window B valueDate (or_default daysBefore 3) (or_default daysAfter 3)
       = Value window) /\
    graph (search_query (or_empty companyName)) = Throw e)).
Proof.
  intros B graph companyName amount valueDate daysBefore daysAfter e.
  unfold searchInbox. destruct (truthy_str companyName); cbn [negb].
  - unfold bind, try_catch.
    destruct (iso_window B valueDate (or_default daysBefore 3) (or_default daysAfter 3))
      as [window | e1].
    + destruct (graph (search_query (or_empty companyName))) as [response | e1].
      * split; [discriminate |].
        intros [[H _] | (_ & _ & [H | [_ H]])]; discriminate.
      * destruct (includes (message e1) "not found" || includes (message e1) "destination")
          eqn:Hmsg.
        -- split; [discriminate |].
           intros [[H _] | (_ & Hno & [H | [_ H]])]; try discriminate.
           injection H as ->. rewrite Hmsg in Hno. discriminate.
        -- split.
           ++ intros [= ->]. right. repeat split; eauto.
           ++ intros [[H _] | (_ & _ & [H | [_ H]])]; try discriminate.
              now injection H as ->.
    + destruct (includes (message e1) "not found" || includes (message e1) "destination")
        eqn:Hmsg.
      * split; [discriminate |].
        intros [[H _] | (_ & Hno & [H | [[w Hw] _]])]; try discriminate.
        injection H as ->. rewrite Hmsg in Hno. discriminate.
      * split.
        -- intros [= ->]. right. repeat split; auto.
        -- intros [[H _] | (_ & _ & [H | [[w Hw] _]])]; try discriminate.
           now injection H as ->.
  - split.
    + intros [= <-]. now left.
    + intros [[_ ->] | [H _]]; [reflexivity | discriminate].
Qed.

End InboxMore.

End EmailSearchMore.

(** ** The two LLM helpers, further *)

Module LlmMore.

Import TextFacts.
Local Open Scope string_scope.

Section Summary.
Import EmailSummarizer.

(** What [cleanValue] keeps of the group of a label pattern. *)
Lemma cleanValue_label : forall label summary v,
  cleanValue (match_group1 (label_pattern label) summary) = Some v ->
  trim v = v /\ toLowerCase v <> "not found" /\ v <> "-" /\
  Forall (fun c => is_line_terminator c = false) (chars v).
Proof.
  intros label summary v Hclean. unfold cleanValue in Hclean.
  destruct (match_group1 (label_pattern label) summary) as [t |] eqn:Hgroup;
    [| discriminate].
  destruct (truthy_str (Some t)); [| discriminate]. cbn [negb or_empty] in Hclean.
  destruct (String.eqb_spec (toLowerCase (trim t)) "not found") as [| Hnf];
    [discriminate |].
  destruct (String.eqb_spec (trim t) "-") as [| Hdash]; [discriminate |].
  injection Hclean as <-.
  split; [apply trim_idem |]. split; [exact Hnf |]. split; [exact Hdash |].
  apply LineParserMore.group1_of_match in Hgroup as (m & w & Hexec & Hg & ->).
  unfold label_pattern in Hexec.
  pose proof (RegexFacts.exec_found _ _ Hexec) as (s0 & _ & Hrun).
  change (rmatch (Seq (Seq (lit_i ("**" ++ label ++ "**:")) (star ws))
                    (Capture (plus dot)))
            (last_char None (before m)) s0 None accept = Some (after m, group1 m))
    in Hrun.
  assert (Hplain : forall s, plain (lit_i s) = true /\ has_capture (lit_i s) = false).
  { induction s as [| c s [IH1 IH2]]; simpl; [auto |]. now rewrite IH1, IH2. }
  destruct (Hplain ("**" ++ label ++ "**:")) as [Hp Hc].
  assert (Hp' : plain (Seq (lit_i ("**" ++ label ++ "**:")) (star ws)) = true)
    by (change (plain (lit_i ("**" ++ label ++ "**:")) && true = true); now rewrite Hp).
  assert (Hc' : has_capture (Seq (lit_i ("**" ++ label ++ "**:")) (star ws)) = false)
    by (change (has_capture (lit_i ("**" ++ label ++ "**:")) || false = false);
        now rewrite Hc).
  destruct (@rmatch_then_capture _ (plus dot) _ _ _ Hp' Hc' eq_refl Hrun)
    as (pre & w' & _ & Hg' & _ & Hd).
  simpl in Hg'. rewrite Hg in Hg'. injection Hg' as <-.
  apply derives_plus_class in Hd as [_ Hall].
  apply Forall_forall. intros c Hc0. apply trim_incl in Hc0.
  rewrite chars_str in Hc0.
  apply negb_true_iff. exact (proj1 (Forall_forall _ _) Hall c Hc0).
Qed.

(** X15. A field [parseActionItems] returns is clean: it carries no white
    space at either end, it is neither "-" nor, in any letter case, "Not
    found", and it lies on one line of the summary. *)
Theorem parseActionItems_fields_clean : forall summary items v,
  parseActionItems summary = Value items ->
  In (Some v) [costCenter items; companyCode items; glAccount items;
               invoice items; notes items] ->
  trim v = v /\ toLowerCase v <> "not found" /\ v <> "-" /\
  Forall (fun c => is_line_terminator c = false) (chars v).
Proof.
  intros summary items v Hrun Hin.
  destruct summary as [summary |];
    [| injection Hrun as <-; simpl in Hin; intuition discriminate].
  destruct (String.eqb_spec summary "") as [-> | Hne];
    [injection Hrun as <-; simpl in Hin; intuition discriminate |].
  rewrite (EmailSummarizerProperties.parseActionItems_of_text Hne) in Hrun.
  injection Hrun as <-. cbn [costCenter companyCode glAccount invoice notes] in Hin.
  destruct Hin as [H | [H | [H | [H | [H | []]]]]];
    now apply cleanValue_label in H.
Qed.

Lemma parseActionItems_fields_clean_witness :
  exists items,
    parseActionItems (Some MoreSamples.labelled_summary) = Value items /\
    costCenter items = Some "19090001" /\ invoice items = None /\
    trim "19090001" = "19090001".
Proof.
  eexists. split; [vm_compute; reflexivity |].
  split; [reflexivity |]. split; [reflexivity |].
  refine (proj1 (@parseActionItems_fields_clean
                   (Some MoreSamples.labelled_summary) _ "19090001" eq_refl _)).
  left. reflexivity.
Defined.

End Summary.

Section Extractor.
Import CompanyNameExtractor.

(** X16. The LLM stage never throws, and a name it returns is the answer
    of the model to the prompt that holds the payment notes, trimmed; it
    has two code units at least and is not "NONE"; the result carries the
    payment notes, the source CHATGPT and the confidence 90. *)
Theorem extractCompanyNameWithChatGPT_result : forall createLLMClient paymentNotesRaw,
  exists outcome,
    extractCompanyNameWithChatGPT createLLMClient paymentNotesRaw = Value outcome /\
    forall r, outcome = Some r ->
      exists client notes answer,
        createLLMClient = Value client /\
        paymentNotesRaw = Some notes /\ notes <> "" /\
        chatCompletion client (prompt_before ++ notes ++ prompt_after)
        = Value (Some answer) /\
        companyName r = trim answer /\
        2 <= String.length (companyName r) /\ companyName r <> "NONE" /\
        source r = "CHATGPT" /\ (confidence r == 90)%Q /\
        rawPaymentNotes r = Some notes.
Proof.
  intros createLLMClient paymentNotesRaw. unfold extractCompanyNameWithChatGPT.
  destruct paymentNotesRaw as [notes |];
    [| exists None; split; [reflexivity | discriminate]].
  destruct (String.eqb_spec notes "") as [-> | Hne];
    [exists None; split; [reflexivity | discriminate] |].
  assert (Htruthy : truthy_str (Some notes) = true).
  { destruct notes; [contradiction | reflexivity]. }
  rewrite Htruthy. cbn [negb or_empty]. unfold bind, try_catch.
  destruct createLLMClient as [client | e];
    [| exists None; split; [reflexivity | discriminate]].
  destruct (chatCompletion client (prompt_before ++ notes ++ prompt_after))
    as [[answer |] | e] eqn:Hanswer;
    try (exists None; split; [reflexivity | discriminate]).
  destruct (String.length (trim answer) =? 0)%nat eqn:Hlen0;
    [exists None; split; [reflexivity | discriminate] |].
  destruct (String.eqb_spec (trim answer) "NONE") as [| Hnone];
    [exists None; split; [reflexivity | discriminate] |].
  destruct (String.length (trim answer) <? 2)%nat eqn:Hlen2;
    [exists None; split; [reflexivity | discriminate] |].
  cbn [orb]. eexists. split; [reflexivity |].
  intros r [= <-]. exists client, notes, answer.
  cbn [companyName source confidence rawPaymentNotes].
  apply Nat.ltb_ge in Hlen2. repeat split; auto; reflexivity.
Qed.

End Extractor.

End LlmMore.

(** ** The comparison of the strategies *)

Module ComparisonMore.

Import LineMatcher LineComparison LineMatcherProperties.

(** The strategies handle their own failures. *)
Lemma strategies_return : forall db env text,
  vectorSearch db text = Value (results_of (vectorSearch db text)) /\
  fuzzySearch db text = Value (results_of (fuzzySearch db text)) /\
  openaiEmbeddingSearch env db text
  = Value (results_of (openaiEmbeddingSearch env db text)).
Proof.
  intros db env text. unfold vectorSearch, fuzzySearch, openaiEmbeddingSearch.
  repeat split.
  - now destruct (run db SapVectorSimilarity text).
  - now destruct (run db FuzzyContains text).
  - now destruct (run db (OpenAIVectorSimilarity (remote_source env)) text).
Qed.

(** X17. The comparison and the search agree.  Once the database is
    connected, [searchLineComparison] returns the lists of the strategies
    as they are, the reranker finding nothing, and [searchLine] returns
    the ranking of exactly these lists. *)
Theorem comparison_agrees_with_searchLine : forall db env lineText,
  exists found,
    searchLineComparison (Value db) env lineText = Value found /\
    chatgpt found = [] /\
    searchLine (Value db) env lineText =
    Value (merge_and_rank (fuzzy found) (vector found) (openaiEmbedding found)) /\
    (too_short lineText = false ->
     vector found = results_of (vectorSearch db (or_empty lineText)) /\
     fuzzy found = results_of (fuzzySearch db (or_empty lineText)) /\
     openaiEmbedding found
     = results_of (openaiEmbeddingSearch env db (or_empty lineText))).
Proof.
  intros db env lineText. rewrite searchLine_connected. unfold searchLineComparison.
  destruct (too_short lineText).
  - exists nothing_found. repeat split; discriminate.
  - destruct (strategies_return db env (or_empty lineText)) as (Hv & Hf & Ho).
    cbn [bind]. rewrite Hv, Hf, Ho. cbn [bind try_catch chatgptSearch].
    eexists. split; [reflexivity |]. cbn [chatgpt fuzzy vector openaiEmbedding].
    repeat split.
Qed.

End ComparisonMore.

(** ** Cached emails for display *)

Module EmailDisplayMore.

Import EmailDisplay TextFacts.
Local Open Scope string_scope.

Lemma length_append : forall a b,
  String.length (a ++ b) = String.length a + String.length b.
Proof.
  induction a as [| c a IH]; intro b; simpl; [reflexivity | now rewrite IH].
Qed.

Lemma substring0_length : forall n s, String.length (substring0 n s) <= n.
Proof.
  intros n s. unfold substring0. rewrite length_str. apply firstn_le_length.
Qed.

(** The preview shown: 153 code units at most, the last three of them
    dots. *)
Lemma preview_of_shape : forall bodyPreview,
  String.length (preview_of bodyPreview) <= 153 /\
  exists text, preview_of bodyPreview = text ++ "...".
Proof.
  intros [text |]; unfold preview_of.
  - split; [| now exists (substring0 150 text)].
    rewrite length_append. pose proof (substring0_length 150 text). simpl. lia.
  - split; [simpl; lia | now exists "undefined"].
Qed.

(** X18. What the clerk is shown of a cached search: as many entries as
    results, in the same order, so ten at most; the scores shown are whole
    numbers of at most 100 that never increase down the list; and every
    preview has 153 code units at most and ends in three dots. *)
Theorem formatted_cached_results :
  forall B db companyName amount valueDate daysBefore daysAfter results,
  EmailMatcher.searchCachedEmails B db companyName amount valueDate daysBefore daysAfter
  = Value results ->
  let shown := formatCachedEmailResults B results in
  map id shown = map (fun r => EmailMatcher.ID (EmailMatcher.email r)) results /\
  List.length shown <= 10 /\
  StronglySorted (fun a b => (score b <= score a)%Z) shown /\
  Forall (fun f => (score f <= 100)%Z /\
                   String.length (preview f) <= 153 /\
                   exists text, preview f = text ++ "...") shown.
Proof.
  intros B db companyName amount valueDate daysBefore daysAfter results Hrun shown.
  destruct (EmailSearchMore.searchCachedEmails_value _ _ _ _ _ _ _ Hrun)
    as (name & window & rows & searchEmbedding & found & _ & _ & _ & _ & _ & Hres).
  unfold shown, formatCachedEmailResults.
  split; [now rewrite map_map |].
  split; [rewrite length_map, Hres, length_firstn; lia |].
  split.
  - assert (Hsorted : StronglySorted
              (fun a b => (EmailMatcher.relevanceScore b <= EmailMatcher.relevanceScore a)%Q)
              results).
    { rewrite Hres. apply EmailSearchMore.sorted_firstn. apply sort_sorted. }
    clear - Hsorted. induction Hsorted as [| r l Hs IH Hall]; simpl; constructor.
    + exact IH.
    + apply Forall_map. apply Forall_forall. intros x Hx. simpl.
      apply LineMatcherProperties.Math_round_monotone.
      exact (proj1 (Forall_forall _ _) Hall x Hx).
  - apply Forall_map. apply Forall_forall. intros r Hr. cbn [score preview format_one].
    split; [| apply preview_of_shape].
    change 100%Z with (Math_round 100).
    apply LineMatcherProperties.Math_round_monotone.
    rewrite Hres in Hr.
    assert (Hin : In r (JS.sort (descending EmailMatcher.relevanceScore)
                          (map (fun row =>
                                  EmailMatcher.mkScored row
                                    (EmailMatcher.calculateRelevanceScore B row name
                                       (passed amount) searchEmbedding)) found))).
    { rewrite <- (firstn_skipn 10 (JS.sort _ _)). apply in_or_app. now left. }
    apply (Permutation_in _ (Permutation_sym (sort_perm _ _))) in Hin.
    apply in_map_iff in Hin as (email & <- & _). simpl.
    apply EmailProperties.Math_min_le_r.
Qed.

Lemma formatted_cached_results_witness :
  exists results,
    EmailMatcher.searchCachedEmails Samples.sample_builtins MoreSamples.crowded_db
      (Some "ACME") (Given 1500%Q) "2025-03-10" Undefined Undefined = Value results /\
    map score (formatCachedEmailResults Samples.sample_builtins results)
    = [60; 50; 45; 43; 38; 35; 33; 28; 25; 25]%Z /\
    let shown := formatCachedEmailResults Samples.sample_builtins results in
    map id shown = map (fun r => EmailMatcher.ID (EmailMatcher.email r)) results /\
    List.length shown <= 10 /\
    StronglySorted (fun a b => (score b <= score a)%Z) shown /\
    Forall (fun f => (score f <= 100)%Z /\
                     String.length (preview f) <= 153 /\
                     exists text, preview f = text ++ "...") shown.
Proof.
  eexists. split; [vm_compute; reflexivity |]. split; [vm_compute; reflexivity |].
  apply (@formatted_cached_results Samples.sample_builtins MoreSamples.crowded_db
           (Some "ACME") (Given 1500%Q) "2025-03-10" Undefined Undefined _ eq_refl).
Defined.

(** X19. Fetching one cached email fails in two cases only: the
    statement failed, and its error is passed on as it is, or it found no
    row, and the error names the id asked for.  Otherwise the first row
    found is returned, its lists parsed, the empty list standing for a
    text that is absent or cannot be parsed. *)
Theorem getEmailById_outcome : forall B select_by_id emailId,
  (forall e,
     getEmailById B select_by_id emailId = Throw e <->
     select_by_id emailId = Throw e \/
     (select_by_id emailId = Value [] /\ e = mkError ("Email not found: " ++ emailId))) /\
  (forall full,
     getEmailById B select_by_id emailId = Value full ->
     exists cached rest,
       select_by_id emailId = Value (cached :: rest) /\
       full_id full = EmailMatcher.ID (row cached) /\
       full_bodyText full = EmailMatcher.bodyText (row cached) /\
       (toAddresses cached = None -> full_to full = safeParseJSON B (Some "[]")) /\
       (forall text e, toAddresses cached = Some text -> text <> "" ->
                       JSON_parse B text = Throw e -> full_to full = JArray [])).
Proof.
  intros B select_by_id emailId. unfold getEmailById, bind, try_catch.
  destruct (select_by_id emailId) as [[| cached rest] | e0]; split.
  - intro e. split.
    + intros [= <-]. right. auto.
    + intros [H | [_ ->]]; [discriminate | reflexivity].
  - discriminate.
  - intro e. split; [discriminate | intros [H | [H _]]; discriminate].
  - intros full [= <-]. exists cached, rest. cbn.
    repeat split.
    + intros ->. reflexivity.
    + intros text e -> Hne Hparse. unfold safeParseJSON, EmailMatcher.or_empty_array.
      destruct text; [contradiction |]. cbn [truthy_str String.length Nat.eqb negb or_empty].
      now rewrite Hparse.
  - intro e. split.
    + intros [= <-]. now left.
    + intros [[= ->] | [H _]]; [reflexivity | discriminate].
  - discriminate.
Qed.

End EmailDisplayMore.

(** ** Cleaning a company name *)

Module CompanyNameCleanerMore.

Import CompanyNameCleaner TextFacts.
Local Open Scope string_scope.

Lemma derives_to_the_end : forall r prev w rest,
  derives r prev w rest -> ends_at_eos r = true -> rest = [].
Proof.
  intros r prev w rest H. induction H; simpl; intro Hend; try discriminate; auto.
  - apply andb_true_iff in Hend as [H1 _]. auto.
  - apply andb_true_iff in Hend as [_ H2]. auto.
Qed.

Lemma str_app : forall a b, str (a ++ b) = (str a ++ str b)%string.
Proof.
  induction a as [| c a IH]; intro b; simpl; [reflexivity | now rewrite IH].
Qed.

(** Removing a match that reaches the end of the text leaves a prefix. *)
Lemma replace_at_the_end : forall r s,
  plain r = true -> ends_at_eos r = true ->
  exists dropped, s = replace r "" s ++ dropped.
Proof.
  intros r s Hplain Hend. unfold replace.
  destruct (exec r s) as [m |] eqn:Hexec.
  - destruct (exec_plain _ _ Hplain Hexec) as [Hline Hder].
    apply derives_to_the_end in Hder; [| exact Hend].
    rewrite Hder in *. exists (str (matched m)).
    rewrite <- (str_chars s), Hline. simpl. now rewrite !app_nil_r, str_app.
  - exists "". clear. induction s as [| c s IH]; simpl; [reflexivity | now rewrite <- IH].
Qed.

Lemma append_assoc : forall a b c : string, ((a ++ b) ++ c = a ++ (b ++ c))%string.
Proof.
  induction a as [| x a IH]; intros b c; simpl; [reflexivity | now rewrite IH].
Qed.

(** X20. [cleanCompanyName] removes text at the end of the name and white
    space around what is left, nothing else: the result is a prefix of
    the name, trimmed.  It is the empty string for a name that is absent
    or empty. *)
Theorem cleanCompanyName_keeps_a_prefix : forall companyName,
  (truthy_str companyName = false -> cleanCompanyName companyName = "") /\
  (forall name, companyName = Some name ->
     exists kept dropped,
       name = kept ++ dropped /\
       cleanCompanyName companyName = trim kept /\
       trim (cleanCompanyName companyName) = cleanCompanyName companyName /\
       String.length (cleanCompanyName companyName) <= String.length name).
Proof.
  intro companyName. split.
  - intro Hfalsy. unfold cleanCompanyName. now rewrite Hfalsy.
  - intros name ->. unfold cleanCompanyName.
    destruct (truthy_str (Some name)) eqn:Htruthy; cbn [negb or_empty].
    + destruct (@replace_at_the_end llc_suffix name eq_refl eq_refl) as (d1 & H1).
      set (s1 := replace llc_suffix "" name) in *.
      destruct (@replace_at_the_end inc_suffix s1 eq_refl eq_refl) as (d2 & H2).
      set (s2 := replace inc_suffix "" s1) in *.
      destruct (@replace_at_the_end corp_suffix s2 eq_refl eq_refl) as (d3 & H3).
      set (s3 := replace corp_suffix "" s2) in *.
      destruct (@replace_at_the_end ltd_suffix s3 eq_refl eq_refl) as (d4 & H4).
      set (s4 := replace ltd_suffix "" s3) in *.
      destruct (@replace_at_the_end co_suffix s4 eq_refl eq_refl) as (d5 & H5).
      set (s5 := replace co_suffix "" s4) in *.
      exists s5, (d5 ++ d4 ++ d3 ++ d2 ++ d1).
      assert (Hname : name = s5 ++ d5 ++ d4 ++ d3 ++ d2 ++ d1).
      { rewrite H1 at 1. rewrite H2 at 1. rewrite H3 at 1. rewrite H4 at 1.
        rewrite H5 at 1. now rewrite !append_assoc. }
      split; [exact Hname |]. split; [reflexivity |]. split; [apply trim_idem |].
      etransitivity; [apply trim_length |].
      rewrite Hname at 1. rewrite EmailDisplayMore.length_append. lia.
    + exists "", name. repeat split. simpl. lia.
Qed.

Lemma cleanCompanyName_keeps_a_prefix_witness :
  cleanCompanyName (Some "ACME Supply Corp.") = "ACME Supply" /\
  exists kept dropped,
    "ACME Supply Corp." = kept ++ dropped /\
    cleanCompanyName (Some "ACME Supply Corp.") = trim kept /\
    trim (cleanCompanyName (Some "ACME Supply Corp."))
    = cleanCompanyName (Some "ACME Supply Corp.") /\
    String.length (cleanCompanyName (Some "ACME Supply Corp."))
    <= String.length "ACME Supply Corp.".
Proof.
  split; [vm_compute; reflexivity |].
  apply (proj2 (cleanCompanyName_keeps_a_prefix (Some "ACME Supply Corp."))).
  reflexivity.
Defined.

(** Only one suffix of each kind is removed, in the order of the five
    replacements: a suffix uncovered by a later replacement stays. *)
Example cleanCompanyName_leaves_uncovered_suffix :
  cleanCompanyName (Some "ACME LLC INC") = "ACME LLC".
Proof. vm_compute. reflexivity. Qed.

End CompanyNameCleanerMore.
